(** * pyHCA.core.ioHCA: annotation readers, hit aggregation and the TREMOLO report

    A shallow embedding of [src/pyHCA/core/ioHCA.py].

    - Python dictionaries are association lists in insertion order (the
      iteration order of a Python 3 [dict]); [dget] is the subscript
      [d[k]], [dset] the assignment [d[k] = v] (an existing key keeps its
      position, a new key goes last).  A loop [for k in d] whose body reads
      [d[k]] is a loop over the entries [(k, v)] of the list.
    - Floating-point values (e-values, probabilities, scores) are exact
      rationals [Q]; only their comparisons [<] and [==] are used by the
      code.  They are compared with [Qltb] and [Qeq_bool].
    - Protein ids, arrangement labels and alignment strings are [string]s,
      compared as Python compares [str]: lexicographically by character code.
    - A Python exception is the [Raise] branch of [result].
    - Text handed to [write] is kept as the format template together with
      its arguments ([Fmt]); the rendering of a float is outside the model. *)

From Stdlib Require Import List ZArith QArith Qminmax Lia Bool.
From Stdlib Require Import Ascii String.
From Stdlib Require Import Sorted Permutation.
From Stdlib Require Import OrderedTypeEx.
Import ListNotations.

Open Scope string_scope.
Open Scope Z_scope.
Open Scope list_scope.

(** ** Python values, exceptions *)

Inductive val : Type :=
| VNone
| VInt (z : Z)
| VFloat (q : Q)
| VStr (s : string).

Inductive exn : Type :=
| KeyError
| IndexError
| ValueError
| TypeError
| NameError
| SystemExit (code : Z).

Inductive result (A : Type) : Type :=
| Ok (a : A)
| Raise (e : exn).
Arguments Ok {A} a.
Arguments Raise {A} e.

Definition rbind {A B : Type} (r : result A) (k : A -> result B) : result B :=
  match r with
  | Ok a => k a
  | Raise e => Raise e
  end.

Notation "'do' x <- r ; k" := (rbind r (fun x => k))
  (at level 10, x pattern, r at level 100, k at level 200).

(** ** Dictionaries *)

Class Key (K : Type) : Type := {
  keq : K -> K -> bool;
  keq_spec : forall a b : K, reflect (a = b) (keq a b)
}.

#[export] Instance Key_string : Key string :=
  {| keq := String.eqb; keq_spec := String.eqb_spec |}.

#[export] Instance Key_Z : Key Z :=
  {| keq := Z.eqb; keq_spec := Z.eqb_spec |}.

Definition dict (K V : Type) : Type := list (K * V).

Section Dict.
Context {K V : Type} `{Key K}.

(** [d[k]]: [None] is Python's [KeyError]. *)
Fixpoint dget (d : dict K V) (k : K) : option V :=
  match d with
  | [] => None
  | (k', v) :: d' => if keq k k' then Some v else dget d' k
  end.

(** [d[k] = v]. *)
Fixpoint dset (d : dict K V) (k : K) (v : V) : dict K V :=
  match d with
  | [] => [(k, v)]
  | (k', v') :: d' => if keq k k' then (k', v) :: d' else (k', v') :: dset d' k v
  end.

(** [k in d]. *)
Definition dmem (d : dict K V) (k : K) : bool :=
  match dget d k with Some _ => true | None => false end.

Definition keys (d : dict K V) : list K := map fst d.

(** Subscript in a position where a missing key raises. *)
Definition subscript (d : dict K V) (k : K) : result V :=
  match dget d k with
  | Some v => Ok v
  | None => Raise KeyError
  end.
End Dict.

(** ** Comparisons and [list.sort] *)

Definition Qltb (a b : Q) : bool :=
  match Qcompare a b with Lt => true | _ => false end.

(** [(e1, s1) < (e2, s2)] on Python tuples: the first components decide
    unless they are [==]. *)
Definition pair_ltb (a b : Q * string) : bool :=
  if Qeq_bool (fst a) (fst b) then String.ltb (snd a) (snd b)
  else Qltb (fst a) (fst b).

Section Sort.
Context {A : Type} (ltb : A -> A -> bool).

(** Python's [sorted] and [list.sort] are stable and only use [<].  A stable
    insertion sort returns the same list. *)
Fixpoint insert (x : A) (l : list A) : list A :=
  match l with
  | [] => [x]
  | y :: l' => if ltb y x then y :: insert x l' else x :: y :: l'
  end.

Fixpoint sort (l : list A) : list A :=
  match l with
  | [] => []
  | x :: l' => insert x (sort l')
  end.
End Sort.

(** ** Hit records *)

(** One hit of the upstream search, the dictionary [res] of [flatres] with
    its fifteen keys. *)
Record hit : Type := {
  E_value : Q;
  descr : string;
  Probab : Q;
  Score : Q;
  Identities : Q;
  Similarity : Q;
  Sum_probs : Q;
  Qstart : Z;
  Qstop : Z;
  Tstart : Z;
  Tstop : Z;
  Qali : string;
  Qcons : string;
  Tali : string;
  Tcons : string
}.

(** hit id -> hit record, for one protein *)
Definition hits : Type := dict Z hit.
(** protein id -> hits, for one query sub-domain *)
Definition domtargets : Type := dict string hits.
(** arrangement label -> member proteins, for one query sub-domain *)
Definition domgroups : Type := dict string (list string).

(** ** flatres (lines 143-170) *)

(** The list stored at [flattargets[name][hitnum]]. *)
Definition flatrow (res : hit) : list val :=
  [VFloat (E_value res); VStr (descr res);
   VFloat (Probab res); VFloat (Score res); VFloat (Identities res);
   VFloat (Similarity res); VFloat (Sum_probs res);
   VInt (Qstart res); VInt (Qstop res); VInt (Tstart res); VInt (Tstop res);
   VStr (Qali res); VStr (Qcons res); VStr (Tali res); VStr (Tcons res)].

Definition flatdict : Type := dict string (dict Z (list val)).

(** Body of the inner loop, for one [(hitnum, res)] of [targets[name]].
    [fl] is the dictionary object bound to [flattargets[name]]. *)
Definition flatres_hit (name : string)
    (st : dict Z (list val) * dict string Q) (kv : Z * hit)
    : dict Z (list val) * dict string Q :=
  let '(fl, prot_orders) := st in
  let '(hitnum, res) := kv in
  let prot_orders' :=
    match dget prot_orders name with
    | Some cur =>
        if Qltb (E_value res) cur then dset prot_orders name (E_value res)
        else prot_orders
    | None => dset prot_orders name (E_value res)
    end in
  (dset fl hitnum (flatrow res), prot_orders').

(** The outer loop.  [flattargets[name] = dict()] creates the entry before
    the hits are read; the inner loop then fills that same object, so the
    entry's position is the one of the first assignment. *)
Fixpoint flatres_loop (targets : domtargets) (proteins : list string)
    (flattargets : flatdict) (prot_orders : dict string Q)
    : result (flatdict * dict string Q) :=
  match proteins with
  | [] => Ok (flattargets, prot_orders)
  | name :: rest =>
      do hs <- subscript targets name;
      let '(fl, prot_orders') :=
        fold_left (flatres_hit name) hs ([], prot_orders) in
      flatres_loop targets rest (dset flattargets name fl) prot_orders'
  end.

(** [evalues, order = zip( *flatorders )]: unpacking the empty [zip] into two
    names raises [ValueError]. *)
Definition unzip2 {A B : Type} (l : list (A * B)) : result (list A * list B) :=
  match l with
  | [] => Raise ValueError
  | _ => Ok (map fst l, map snd l)
  end.

Definition flatorders_of (prot_orders : dict string Q) : list (Q * string) :=
  sort pair_ltb (map (fun kv => (snd kv, fst kv)) prot_orders).

Definition flatres (targets : domtargets) (proteins : list string)
    : result (list string * flatdict) :=
  do (flattargets, prot_orders) <- flatres_loop targets proteins [] [];
  do (evalues, order) <- unzip2 (flatorders_of prot_orders);
  Ok (order, flattargets).

(** ** orderda (lines 172-190) *)

(** The two inner loops for one arrangement [da]: every hit of every member
    protein appends [(E-value, da)]; [targets[prot]] raises on a protein
    without an entry. *)
Fixpoint keptda_prots (targets : domtargets) (da : string)
    (prots : list string) (keptda : list (Q * string))
    : result (list (Q * string)) :=
  match prots with
  | [] => Ok keptda
  | prot :: rest =>
      do hs <- subscript targets prot;
      keptda_prots targets da rest
        (keptda ++ map (fun kv => (E_value (snd kv), da)) hs)
  end.

(** The outer loop over the arrangements, in the dictionary's order. *)
Fixpoint keptda_loop (targets : domtargets) (arrangements : domgroups)
    (keptda : list (Q * string)) : result (list (Q * string)) :=
  match arrangements with
  | [] => Ok keptda
  | (da, prots) :: rest =>
      do keptda' <- keptda_prots targets da prots keptda;
      keptda_loop targets rest keptda'
  end.

(** The walk over the sorted list: a label is appended the first time it is
    met and recorded in [visited]. *)
Fixpoint visit_loop (keptda : list (Q * string)) (orderedda : list string)
    (visited : dict string Z) : list string :=
  match keptda with
  | [] => orderedda
  | (evalue, da) :: rest =>
      if negb (dmem visited da)
      then visit_loop rest (orderedda ++ [da]) (dset visited da 1)
      else visit_loop rest orderedda visited
  end.

Definition orderda (arrangements : domgroups) (targets : domtargets)
    : result (list string) :=
  do keptda <- keptda_loop targets arrangements [];
  Ok (visit_loop (sort pair_ltb keptda) [] []).

(** ** Written text *)

(** [template.format(args)], kept unrendered. *)
Inductive chunk : Type :=
| Fmt (template : string) (args : list val).

Definition tab : string := String (ascii_of_nat 9) "".
Definition nl : string := String (ascii_of_nat 10) "".

(** A line of tab-separated fields. *)
Definition tsv (fields : list string) : string :=
  (String.concat tab fields ++ nl)%string.

(** ** summary_tremolo (lines 192-226) *)

(** The 5-tuple appended to [data]. *)
Record datum : Type := {
  d_evalue : Q;
  d_probab : Q;
  d_prot : string;
  d_hitnum : Z;
  d_da : string
}.

(** [a < b] on these tuples: the first position where the two differ
    ([==] false) decides. *)
Definition datum_ltb (a b : datum) : bool :=
  if negb (Qeq_bool (d_evalue a) (d_evalue b)) then Qltb (d_evalue a) (d_evalue b)
  else if negb (Qeq_bool (d_probab a) (d_probab b)) then Qltb (d_probab a) (d_probab b)
  else if negb (String.eqb (d_prot a) (d_prot b)) then String.ltb (d_prot a) (d_prot b)
  else if negb (Z.eqb (d_hitnum a) (d_hitnum b)) then Z.ltb (d_hitnum a) (d_hitnum b)
  else String.ltb (d_da a) (d_da b).

(** [l[:n]] for an integer [n]; a negative [n] counts from the end. *)
Definition slice_to {A : Type} (l : list A) (n : Z) : list A :=
  if n <? 0 then firstn (Z.to_nat (Z.of_nat (List.length l) + n)) l
  else firstn (Z.to_nat n) l.

(** The reverse index [prot2grp]: later assignments overwrite earlier ones. *)
Definition prot2grp_of (gq : domgroups) : dict string string :=
  fold_left
    (fun p2g (kv : string * list string) =>
       fold_left (fun p2g' prot => dset p2g' prot (fst kv)) (snd kv) p2g)
    gq [].

(** The hits of one protein appended to [data]; [prot2grp[prot]] is
    evaluated once per hit. *)
Fixpoint data_hits (prot2grp : dict string string) (prot : string)
    (hs : hits) (data : list datum) : result (list datum) :=
  match hs with
  | [] => Ok data
  | (hitnum, res) :: rest =>
      do da <- subscript prot2grp prot;
      data_hits prot2grp prot rest
        (data ++ [{| d_evalue := E_value res; d_probab := Probab res;
                     d_prot := prot; d_hitnum := hitnum; d_da := da |}])
  end.

Fixpoint data_loop (prot2grp : dict string string) (tq : domtargets)
    (data : list datum) : result (list datum) :=
  match tq with
  | [] => Ok data
  | (prot, hs) :: rest =>
      do data' <- data_hits prot2grp prot hs data;
      data_loop prot2grp rest data'
  end.

(** The rows kept for one query sub-domain: [data] sorted and cut. *)
Definition summary_data (gq : domgroups) (tq : domtargets) (xbest : Z)
    : result (list datum) :=
  do data <- data_loop (prot2grp_of gq) tq [];
  Ok (slice_to (sort datum_ltb data) xbest).

Definition summary_line (querydom : Z) (d : datum) : chunk :=
  Fmt (tsv ["Qdom"; "{}"; "{}"; "{}"; "{}"; "{}"; "{}"])
      [VInt (querydom + 1); VStr (d_prot d); VInt (d_hitnum d); VStr (d_da d);
       VFloat (d_evalue d); VFloat (d_probab d)].

(** The loop over the query sub-domains; [summary] grows by one line per
    kept row. *)
Fixpoint summary_loop (targets : dict Z domtargets) (groups : dict Z domgroups)
    (xbest : Z) (summary : list chunk) : result (list chunk) :=
  match targets with
  | [] => Ok summary
  | (querydom, tq) :: rest =>
      do gq <- subscript groups querydom;
      do data <- summary_data gq tq xbest;
      summary_loop rest groups xbest (summary ++ map (summary_line querydom) data)
  end.

Definition summary_tremolo (targets : dict Z domtargets)
    (groups : dict Z domgroups) (xbest : Z) : result (list chunk) :=
  summary_loop targets groups xbest [].

(** ** String operations used by the readers *)

(** [str.isspace] on one character (codes below 256). *)
Definition is_space (c : ascii) : bool :=
  let n := nat_of_ascii c in
  ((9 <=? n) && (n <=? 13) || (28 <=? n) && (n <=? 32)
   || (n =? 133) || (n =? 160))%nat.

(** [s.split()]: the maximal runs of non-space characters. *)
Fixpoint split_go (s : string) (cur : option string) : list string :=
  match s with
  | EmptyString => match cur with Some w => [w] | None => [] end
  | String c s' =>
      if is_space c then
        match cur with
        | Some w => w :: split_go s' None
        | None => split_go s' None
        end
      else
        split_go s' (Some (match cur with
                           | Some w => (w ++ String c "")%string
                           | None => String c ""
                           end))
  end.

Definition split (s : string) : list string := split_go s None.

Fixpoint drop_last (s : string) : string :=
  match s with
  | EmptyString => ""
  | String c EmptyString => ""
  | String c s' => String c (drop_last s')
  end.

(** [s[1:-1]] *)
Definition slice_1_m1 (s : string) : string :=
  match s with
  | EmptyString => ""
  | String _ s' => drop_last s'
  end.

(** [s[0]] *)
Definition first_char (s : string) : result ascii :=
  match s with
  | EmptyString => Raise IndexError
  | String c _ => Ok c
  end.

(** [l[i]] for a non-negative index. *)
Definition index {A : Type} (l : list A) (i : nat) : result A :=
  match nth_error l i with
  | Some a => Ok a
  | None => Raise IndexError
  end.

Definition digit_of (c : ascii) : option Z :=
  let n := nat_of_ascii c in
  if ((48 <=? n) && (n <=? 57))%nat then Some (Z.of_nat (n - 48)) else None.

(** Decimal digits after a first digit; one underscore is allowed between two
    digits, as in Python's integer literals. *)
Fixpoint parse_digits (s : string) (acc : Z) : option Z :=
  match s with
  | EmptyString => Some acc
  | String c s' =>
      match digit_of c with
      | Some d => parse_digits s' (10 * acc + d)
      | None =>
          if Ascii.eqb c "_" then
            match s' with
            | String c' s'' =>
                match digit_of c' with
                | Some d => parse_digits s'' (10 * acc + d)
                | None => None
                end
            | EmptyString => None
            end
          else None
      end
  end.

Definition parse_nat (s : string) : option Z :=
  match s with
  | String c s' =>
      match digit_of c with
      | Some d => parse_digits s' d
      | None => None
      end
  | EmptyString => None
  end.

(** [int(s)] in base 10, for a token without white space (the readers only
    pass tokens of [split]); anything else is a [ValueError]. *)
Definition int (s : string) : result Z :=
  let signed :=
    match s with
    | String c s' =>
        if Ascii.eqb c "-" then option_map Z.opp (parse_nat s')
        else if Ascii.eqb c "+" then parse_nat s'
        else parse_nat s
    | EmptyString => None
    end in
  match signed with
  | Some z => Ok z
  | None => Raise ValueError
  end.

(** ** The annotation readers (lines 65-140) *)

(** protein id -> list of annotation tuples; a tuple is the list of its
    fields. *)
Definition annotations : Type := dict string (list (list val)).

(** One line of [read_hcadomain].  [prot] is the loop-carried variable, not
    bound before the first header line. *)
Definition hcadomain_line (st : annotations * option string) (line : string)
    : result (annotations * option string) :=
  let '(annotation, prot) := st in
  do c <- first_char line;
  if Ascii.eqb c ">" then
    match split (slice_1_m1 line) with
    | [p; size] => Ok (dset annotation p [], Some p)
    | _ => Raise ValueError
    end
  else
    let tmp := split line in
    do t0 <- index tmp 0;
    if String.eqb t0 "domain" then
      do t1 <- index tmp 1;
      do i1 <- int t1;
      do t2 <- index tmp 2;
      do i2 <- int t2;
      let start := i1 - 1 in
      let stop := i2 in
      match prot with
      | None => Raise NameError
      | Some p =>
          do l <- subscript annotation p;
          Ok (dset annotation p
                (l ++ [[VInt start; VInt stop; VStr t0; VStr "!"; VNone]]),
              prot)
      end
    else Ok (annotation, prot).

Fixpoint hcadomain_loop (lines : list string) (st : annotations * option string)
    : result (annotations * option string) :=
  match lines with
  | [] => Ok st
  | line :: rest => do st' <- hcadomain_line st line; hcadomain_loop rest st'
  end.

(** [inputfile] is given by the lines the file iterator yields. *)
Definition read_hcadomain (inputfile : list string) : result annotations :=
  do (annotation, _) <- hcadomain_loop inputfile ([], None);
  Ok annotation.

(** [annotation.setdefault(prot, []).append(t)] *)
Definition setdefault_append (annotation : annotations) (prot : string)
    (t : list val) : annotations :=
  match dget annotation prot with
  | Some l => dset annotation prot (l ++ [t])
  | None => dset annotation prot [t]
  end.

Definition pfamdomain_line (annotation : annotations) (line : string)
    : result annotations :=
  do c <- first_char line;
  if Ascii.eqb c "#" || Ascii.eqb c (ascii_of_nat 10) then Ok annotation
  else
    let tmp := split line in
    do prot <- index tmp 0;
    do name <- index tmp 1;
    do t2 <- index tmp 2;
    do start <- int t2;
    do t3 <- index tmp 3;
    do stop <- int t3;
    let status := "!" in
    Ok (setdefault_append annotation prot
          [VInt start; VInt stop; VStr name; VStr status; VNone]).

Fixpoint pfamdomain_loop (lines : list string) (annotation : annotations)
    : result annotations :=
  match lines with
  | [] => Ok annotation
  | line :: rest =>
      do annotation' <- pfamdomain_line annotation line;
      pfamdomain_loop rest annotation'
  end.

Definition read_pfamdomain (inputfile : list string) : result annotations :=
  pfamdomain_loop inputfile [].


(** ** The report writer (lines 228-298) *)

(** Computations that write to the output file and may raise: the text
    written so far is kept when an exception ends the computation. *)
Definition W (A : Type) : Type := list chunk -> list chunk * result A.

Definition wret {A : Type} (a : A) : W A := fun out => (out, Ok a).

Definition wbind {A B : Type} (m : W A) (k : A -> W B) : W B :=
  fun out =>
    match m out with
    | (out', Ok a) => k a out'
    | (out', Raise e) => (out', Raise e)
    end.

(** [outf.write(...)] *)
Definition write (c : chunk) : W unit := fun out => (out ++ [c], Ok tt).

(** [outf.write(s)] for a string [s] built as a sequence of chunks. *)
Definition write_all (cs : list chunk) : W unit := fun out => (out ++ cs, Ok tt).

(** An expression that may raise, evaluated without writing. *)
Definition lift {A : Type} (r : result A) : W A := fun out => (out, r).

Notation "'wdo' x <~ m ;; k" := (wbind m (fun x => k))
  (at level 10, x pattern, m at level 99, k at level 200).
Notation "m ;; k" := (wbind m (fun _ => k))
  (at level 100, right associativity).

Fixpoint wfor {A : Type} (l : list A) (body : A -> W unit) : W unit :=
  match l with
  | [] => wret tt
  | a :: l' => body a ;; wfor l' body
  end.

(** A constant string. *)
Definition text (s : string) : chunk := Fmt s [].

(** [v + 1] for a number. *)
Definition add1 (v : val) : result val :=
  match v with
  | VInt z => Ok (VInt (z + 1))
  | VFloat q => Ok (VFloat (q + 1))
  | _ => Raise TypeError
  end.

Record query_t : Type := {
  qname : list string;
  qdescr : list string;
  qseq : list string
}.

(** [enumerate(l)] *)
Definition enumerate {A : Type} (l : list A) : list (nat * A) :=
  combine (seq 0 (List.length l)) l.

Definition write_header : W unit :=
  write (text ("# Traveling into REmote hoMOLOgy with HCA (TREMOLO) " ++ nl)%string) ;;
  write (text ("# tremolo v1.0 was developped by Guillem Faure at Isabelle Callebaut's team" ++ nl)%string) ;;
  write (text ("# tremolo v2.0 is developped and maintained by Tristan Bitard-Feildel" ++ nl)%string) ;;
  write (text ("#" ++ nl)%string) ;;
  write (text ("# Please cite" ++ nl)%string) ;;
  write (text ("# Identification of hidden relationships from the coupling of hydrophobic cluster analysis and domain architecture information." ++ nl)%string) ;;
  write (text ("# G. Faure & I. Callebaut." ++ nl)%string) ;;
  write (text "Bioinformatics. 2013 Jul 15;29(14):1726-33. doi: 10.1093/bioinformatics/btt271.") ;;
  write (text (nl ++ nl)%string).

Definition write_query (query : query_t) : W unit :=
  wfor (enumerate (qname query)) (fun '(i, name) =>
    write (Fmt (tsv ["Qname"; "{}"]) [VStr name]) ;;
    wdo d <~ lift (index (qdescr query) i) ;;
    write (Fmt (tsv ["Qdesc"; "{}"]) [VStr d]) ;;
    wdo s <~ lift (index (qseq query) i) ;;
    write (Fmt (tsv ["Qseq"; "{}"] ++ nl)%string [VStr s])).

(** The loop over [positions]; the indices are collected in [querydoms]. *)
Definition write_positions (positions : list (Z * Z)) : W (list Z) :=
  wfor (enumerate positions) (fun '(ite, (start, stop)) =>
    write (Fmt (tsv ["Qdom"; "{}"; "{}"; "{}"])
               [VInt (Z.of_nat ite + 1); VInt (start + 1); VInt stop])) ;;
  wret (map (fun p => Z.of_nat (fst p)) (enumerate positions)).

Definition annotation_template : string :=
  tsv ["Qdom"; "{}"; "{}"; "{}"; "{}"; "{}"; "{}"].

(** The placeholder line of an unannotated protein. *)
Definition none_line (querydom : Z) : chunk :=
  Fmt (tsv ["Qdom"; "{}"; "{}"]) [VInt (querydom + 1); VStr "None"].

(** One turn of the loop at line 287: the tuple is unpacked into six names. *)
Definition write_annotation (querydom : Z) (ann : list val) : W unit :=
  match ann with
  | [start; stop; dom; d_e_val; bitscore; types] =>
      wdo start1 <~ lift (add1 start) ;;
      write (Fmt annotation_template
                 [VInt (querydom + 1); dom; start1; stop; d_e_val; bitscore])
  | _ => lift (Raise ValueError)
  end.

(** Lines 286-290. *)
Definition write_domains (querydom : Z) (cddres : annotations) (prot : string)
    : W unit :=
  match dget cddres prot with
  | Some anns => wfor anns (write_annotation querydom)
  | None => write (none_line querydom)
  end.

(** Lines 292-298, for one hit of [flat[prot]]. *)
Definition write_hit (querydom : Z) (kv : Z * list val) : W unit :=
  let '(hit, row) := kv in
  match row with
  | [e_val; descr; prob; score; ident; sim; sprob; qstart; qstop; tstart;
     tstop; qali; qcons; tali; tcons] =>
      write (Fmt (tsv ["Hit"; "{}"; "{}"; "{}"; "{}"; "{}"; "{}"; "{}"])
                 [VInt (querydom + 1); VInt hit; e_val; prob; score; ident; sim]) ;;
      wdo q1 <~ lift (add1 qstart) ;;
      write (Fmt (tsv ["HitQali"; "{}"; "{}"; "{}"; "{}"; "{}"])
                 [VInt (querydom + 1); VInt hit; q1; qstop; qali]) ;;
      wdo q2 <~ lift (add1 qstart) ;;
      write (Fmt (tsv ["HitQcon"; "{}"; "{}"; "{}"; "{}"; "{}"])
                 [VInt (querydom + 1); VInt hit; q2; qstop; qcons]) ;;
      wdo t1 <~ lift (add1 tstart) ;;
      write (Fmt (tsv ["HitTcon"; "{}"; "{}"; "{}"; "{}"; "{}"])
                 [VInt (querydom + 1); VInt hit; t1; tstop; tcons]) ;;
      wdo t2 <~ lift (add1 tstart) ;;
      write (Fmt (tsv ["HitTali"; "{}"; "{}"; "{}"; "{}"; "{}"])
                 [VInt (querydom + 1); VInt hit; t2; tstop; tali]) ;;
      write (text ("//" ++ nl)%string)
  | _ => lift (Raise ValueError)
  end.

(** Lines 285-298: one protein of [order]. *)
Definition write_protein (querydom : Z) (cddres : annotations)
    (flat : flatdict) (prot : string) : W unit :=
  write (Fmt (">{}" ++ nl)%string [VStr prot]) ;;
  write_domains querydom cddres prot ;;
  wdo fl <~ lift (subscript flat prot) ;;
  wfor fl (write_hit querydom).

(** Lines 279-298: one arrangement of [orderedda]. *)
Definition write_arrangement (querydom : Z) (gq : domgroups) (tq : domtargets)
    (cddres : annotations) (da : string) : W unit :=
  wdo proteins <~ lift (subscript gq da) ;;
  write (text ("##" ++ nl)%string) ;;
  wdo (order, flat) <~ lift (flatres tq proteins) ;;
  wfor order (write_protein querydom cddres flat).

(** Lines 270-298: one query sub-domain. *)
Definition write_querydom (targets : dict Z domtargets) (cddres : annotations)
    (groups : dict Z domgroups) (querydom : Z) : W unit :=
  write (Fmt ("# Query domain {}" ++ nl ++ nl)%string [VInt (querydom + 1)]) ;;
  wdo gq <~ lift (subscript groups querydom) ;;
  wdo tq <~ lift (subscript targets querydom) ;;
  wdo orderedda <~ lift (orderda gq tq) ;;
  write (text ("# Domain Domain_arrangement number_of_protein" ++ nl)%string) ;;
  wfor orderedda (fun da =>
    wdo members <~ lift (subscript gq da) ;;
    write (Fmt (tsv ["INFO"; "{}"; "{}"; "{}"])
               [VInt querydom; VStr da; VInt (Z.of_nat (List.length members))])) ;;
  write (text nl) ;;
  wfor orderedda (write_arrangement querydom gq tq cddres).

(** The text written to [output]; opening and closing the file are left
    out. *)
Definition write_tremolo_results (query : query_t) (positions : list (Z * Z))
    (targets : dict Z domtargets) (cddres : annotations)
    (groups : dict Z domgroups) (xbest : Z) : W unit :=
  write_header ;;
  write_query query ;;
  wdo querydoms <~ write_positions positions ;;
  write (text nl) ;;
  wdo summary <~ lift (summary_tremolo targets groups xbest) ;;
  write_all summary ;;
  write (text nl) ;;
  wfor querydoms (write_querydom targets cddres groups).

(** * Vocabulary of the properties *)

(** ** Three-way comparisons *)

(** A three-way comparison of a total preorder: [Eq] is an equivalence that
    the comparison cannot tell apart. *)
Record total_cmp {A : Type} (cmp : A -> A -> comparison) : Prop := {
  cmp_antisym : forall a b, cmp a b = CompOpp (cmp b a);
  cmp_lt_trans : forall a b c, cmp a b = Lt -> cmp b c = Lt -> cmp a c = Lt;
  cmp_eq_subst : forall a b c, cmp a b = Eq -> cmp a c = cmp b c
}.

(** Lexicographic comparison of pairs, the comparison of Python tuples. *)
Definition lex {A B : Type} (c1 : A -> A -> comparison)
    (c2 : B -> B -> comparison) (x y : A * B) : comparison :=
  match c1 (fst x) (fst y) with
  | Eq => c2 (snd x) (snd y)
  | r => r
  end.

Definition pair_cmp : Q * string -> Q * string -> comparison :=
  lex Qcompare String.compare.

Definition datum_key (d : datum) : Q * (Q * (string * (Z * string))) :=
  (d_evalue d, (d_probab d, (d_prot d, (d_hitnum d, d_da d)))).

Definition datum_cmp (a b : datum) : comparison :=
  lex Qcompare (lex Qcompare (lex String.compare (lex Z.compare String.compare)))
      (datum_key a) (datum_key b).

(** [a <= b] for a three-way comparison. *)
Definition cmp_le {A : Type} (cmp : A -> A -> comparison) (a b : A) : Prop :=
  cmp a b <> Gt.

(** ** Best e-values *)

(** The minimum of a list of e-values, [None] for the empty list. *)
Definition Qmin_list (l : list Q) : option Q :=
  match l with
  | [] => None
  | x :: l' => Some (fold_left Qmin l' x)
  end.

Definition evalues_of (hs : hits) : list Q :=
  map (fun kv => E_value (snd kv)) hs.

(** A protein's best e-value: the minimum over its hits. *)
Definition best_evalue (targets : domtargets) (prot : string) : option Q :=
  match dget targets prot with
  | Some hs => Qmin_list (evalues_of hs)
  | None => None
  end.

(** The protein has at least one hit in the hit mapping. *)
Definition has_hit (targets : domtargets) (prot : string) : bool :=
  match dget targets prot with
  | Some (_ :: _) => true
  | _ => false
  end.

(** [p1] comes strictly before [p2] in the order of the pairs
    [(best e-value, protein id)]. *)
Definition best_then_id (targets : domtargets) (p1 p2 : string) : Prop :=
  exists e1 e2,
    best_evalue targets p1 = Some e1 /\ best_evalue targets p2 = Some e2 /\
    (e1 < e2 \/ (e1 == e2 /\ String.ltb p1 p2 = true))%Q.

(** Position of the first occurrence of [x]. *)
Fixpoint first_index (x : string) (l : list string) : nat :=
  match l with
  | [] => O
  | y :: l' => if String.eqb x y then O else S (first_index x l')
  end.

(** The tie rule as the specification words it: two proteins of [order] with
    equal best e-values stand in the order in which they were first met in
    [proteins]. *)
Definition ties_in_first_seen_order (targets : domtargets)
    (proteins order : list string) : Prop :=
  forall i j p1 p2 e1 e2,
    (i < j)%nat ->
    nth_error order i = Some p1 -> nth_error order j = Some p2 ->
    best_evalue targets p1 = Some e1 -> best_evalue targets p2 = Some e2 ->
    (e1 == e2)%Q ->
    (first_index p1 proteins < first_index p2 proteins)%nat.

(** The dictionary that the inner loop of [flatres] builds from the hits of
    one protein, started from [fl]. *)
Definition flat_hits (hs : hits) (fl : dict Z (list val)) : dict Z (list val) :=
  fold_left (fun d kv => dset d (fst kv) (flatrow (snd kv))) hs fl.

(** ** Sample data *)

Definition sample_hit (e p : Q) : hit :=
  {| E_value := e; descr := "hit"; Probab := p; Score := 50; Identities := 30;
     Similarity := 1 # 2; Sum_probs := 40;
     Qstart := 0; Qstop := 10; Tstart := 4; Tstop := 14;
     Qali := "MKV"; Qcons := "mkv"; Tali := "MRV"; Tcons := "mrv" |}.

(** The scenario of the specification: [P1] and [P2] in arrangement [A],
    [P3] in arrangement [B]. *)
Definition sample_targets : domtargets :=
  [("P1", [(1, sample_hit (1 # 100000) 90); (2, sample_hit (1 # 1000000000) 99)]);
   ("P2", [(1, sample_hit (1 # 1000) 80)]);
   ("P3", [(1, sample_hit (1 # 10) 50)])].

Definition sample_groups : domgroups := [("A", ["P1"; "P2"]); ("B", ["P3"])].

(** Two proteins with the same best e-value, met in the order [b], [a]. *)
Definition tie_targets : domtargets :=
  [("b", [(1, sample_hit (1 # 1000) 80)]);
   ("a", [(1, sample_hit (1 # 1000) 80)])].

(** A hit mapping whose only protein has no hit. *)
Definition nohit_targets : domtargets := [("P1", [])].

(** ** Arrangements *)

(** The e-values of all hits of the member proteins [prots]. *)
Definition da_evalues (targets : domtargets) (prots : list string) : list Q :=
  flat_map (fun prot =>
              match dget targets prot with
              | Some hs => evalues_of hs
              | None => []
              end) prots.

(** The best e-value of an arrangement: the minimum over all hits of all
    its member proteins. *)
Definition da_best (arrangements : domgroups) (targets : domtargets)
    (da : string) : option Q :=
  match dget arrangements da with
  | Some prots => Qmin_list (da_evalues targets prots)
  | None => None
  end.

(** Some member protein of the arrangement has a hit. *)
Definition da_has_hit (arrangements : domgroups) (targets : domtargets)
    (da : string) : bool :=
  match da_best arrangements targets da with
  | Some _ => true
  | None => false
  end.

(** [d1] comes strictly before [d2] in the order of the pairs
    [(best e-value, label)]. *)
Definition best_then_label (arrangements : domgroups) (targets : domtargets)
    (d1 d2 : string) : Prop :=
  exists m1 m2,
    da_best arrangements targets d1 = Some m1 /\
    da_best arrangements targets d2 = Some m2 /\
    (m1 < m2 \/ (m1 == m2 /\ String.ltb d1 d2 = true))%Q.

(** Every member protein of every arrangement is a key of the hit mapping. *)
Definition members_in_targets (arrangements : domgroups) (targets : domtargets)
    : Prop :=
  forall da prots prot,
    In (da, prots) arrangements -> In prot prots -> dmem targets prot = true.

(** The list [keptda] that the loops of [orderda] build. *)
Definition keptda_of (targets : domtargets) (arrangements : domgroups)
    : list (Q * string) :=
  flat_map (fun kv => map (fun e => (e, fst kv)) (da_evalues targets (snd kv)))
           arrangements.

(** [e] is a least e-value recorded for the label [d] in [G]. *)
Definition least_for (G : list (Q * string)) (d : string) (e : Q) : Prop :=
  In (e, d) G /\ forall e', In (e', d) G -> (e <= e')%Q.

Definition least_lt (G : list (Q * string)) (d1 d2 : string) : Prop :=
  exists e1 e2,
    least_for G d1 e1 /\ least_for G d2 e2 /\ pair_cmp (e1, d1) (e2, d2) = Lt.

(** An arrangement grouping with an arrangement [C] whose only member has
    no hit. *)
Definition nohit_da_targets : domtargets :=
  [("P1", [(1, sample_hit (1 # 1000) 80)]); ("P4", [])].

Definition nohit_da_groups : domgroups := [("A", ["P1"]); ("C", ["P4"])].

(** ** Summary *)

(** [prot] is a member of the arrangement group [da]. *)
Definition in_group (gq : domgroups) (prot da : string) : Prop :=
  exists prots, In (da, prots) gq /\ In prot prots.

(** Invariant I4 for one query sub-domain: every protein of the hit mapping
    is a member of exactly one arrangement group. *)
Definition one_group_each (gq : domgroups) (tq : domtargets) : Prop :=
  forall prot, In prot (keys tq) ->
    exists da, in_group gq prot da /\
               forall da', in_group gq prot da' -> da' = da.

(** I4 for all query sub-domains of the hit mapping. *)
Definition groups_cover (targets : dict Z domtargets)
    (groups : dict Z domgroups) : Prop :=
  forall querydom tq, In (querydom, tq) targets ->
    exists gq, dget groups querydom = Some gq /\ one_group_each gq tq.

(** Every protein of the hit mapping that has a hit is a member of some
    arrangement group, for all query sub-domains: no subscript of
    [summary_tremolo] raises. *)
Definition groups_reach (targets : dict Z domtargets)
    (groups : dict Z domgroups) : Prop :=
  forall querydom tq, In (querydom, tq) targets ->
    exists gq, dget groups querydom = Some gq /\
      forall prot hs, In (prot, hs) tq -> hs <> [] ->
        exists da, in_group gq prot da.

(** One tuple per hit of the sub-domain, in the order of the hit mapping. *)
Definition all_data (prot2grp : dict string string) (tq : domtargets)
    : list datum :=
  flat_map (fun ph : string * hits =>
              match dget prot2grp (fst ph) with
              | Some da =>
                  map (fun kv : Z * hit =>
                         {| d_evalue := E_value (snd kv);
                            d_probab := Probab (snd kv);
                            d_prot := fst ph; d_hitnum := fst kv; d_da := da |})
                      (snd ph)
              | None => []
              end) tq.

(** The hits of the sub-domain: protein, hit id, e-value and probability of
    every hit of every protein. *)
Definition hit_list (tq : domtargets) : list (string * Z * Q * Q) :=
  flat_map (fun ph : string * hits =>
              map (fun kv : Z * hit =>
                     (fst ph, fst kv, E_value (snd kv), Probab (snd kv)))
                  (snd ph)) tq.

(** The hit that a tuple of [data] stands for. *)
Definition datum_hit (d : datum) : string * Z * Q * Q :=
  (d_prot d, d_hitnum d, d_evalue d, d_probab d).

(** The rows kept for the sub-domain [qt] of the hit mapping. *)
Definition kept_rows (groups : dict Z domgroups) (xbest : Z)
    (qt : Z * domtargets) : list datum :=
  match dget groups (fst qt) with
  | Some gq => slice_to (sort datum_ltb (all_data (prot2grp_of gq) (snd qt))) xbest
  | None => []
  end.

(** [a <= b] on the keys [(e-value, probability)]. *)
Definition key_le (a b : datum) : Prop :=
  cmp_le (lex Qcompare Qcompare)
         (d_evalue a, d_probab a) (d_evalue b, d_probab b).

(** What the kept rows are with respect to all the hits [data] of the
    sub-domain: at most [xbest] rows, ascending in the key, the rest of the
    hits have keys that are not smaller, and nothing is dropped when there
    are at most [xbest] hits. *)
Definition summary_rows_ok (data : list datum) (xbest : Z) (kept : list datum)
    : Prop :=
  Z.of_nat (List.length kept) <= xbest /\
  StronglySorted key_le kept /\
  (exists dropped,
     Permutation (kept ++ dropped) data /\
     forall k d, In k kept -> In d dropped -> key_le k d) /\
  (Z.of_nat (List.length data) <= xbest -> Permutation kept data).

Definition sample_all_targets : dict Z domtargets := [(0, sample_targets)].
Definition sample_all_groups : dict Z domgroups := [(0, sample_groups)].

(** ** Readers and writer *)


(** Every annotation tuple of the mapping has five fields. *)
Definition five_fields (annotation : annotations) : Prop :=
  forall prot l t,
    dget annotation prot = Some l -> In t l -> List.length t = 5%nat.

(** A chunk is an annotation line. *)
Definition is_annotation_line (c : chunk) : Prop :=
  exists args, c = Fmt annotation_template args.

(** A seghca file with one protein and one domain line. *)
Definition sample_seghca : list string :=
  [(">P1 100" ++ nl)%string; ("domain 5 20" ++ nl)%string].

(** A pfam file with one annotation line. *)
Definition sample_pfam : list string :=
  [("# comment" ++ nl)%string; ("P1 PF00001 5 20 more" ++ nl)%string].

Definition sample_query : query_t :=
  {| qname := ["query"]; qdescr := ["a query"]; qseq := ["MKVLA"] |}.

(** One protein [P1] with one hit; its annotation list is present and
    empty. *)
Definition single_targets : dict Z domtargets :=
  [(0, [("P1", [(1, sample_hit (1 # 1000) 80)])])].
Definition single_groups : dict Z domgroups := [(0, [("A", ["P1"])])].
Definition empty_list_cddres : annotations := [("P1", [])].

Definition empty_list_report : list chunk * result unit :=
  write_tremolo_results sample_query [(0, 10)] single_targets
    empty_list_cddres single_groups 100 [].

(** The report of the same protein with the annotations read from
    [sample_seghca]. *)
Definition seghca_report : list chunk * result unit :=
  match read_hcadomain sample_seghca with
  | Ok cddres =>
      write_tremolo_results sample_query [(0, 10)] single_targets
        cddres single_groups 100 []
  | Raise e => ([], Raise e)
  end.

(** A grouping in which [P1] is a member of two arrangement groups. *)
Definition twice_groups : domgroups := [("A", ["P1"; "P2"]); ("B", ["P1"; "P3"])].

(** ** Lines of the annotation files *)

(** A header line of a seghca file for the protein [p]: it starts with [>]
    and what stands between the first and the last character has two
    tokens, the first of which is [p]. *)
Definition header_line (line p : string) : Prop :=
  exists c size,
    first_char line = Ok c /\ Ascii.eqb c ">" = true /\
    split (slice_1_m1 line) = [p; size].

(** A domain line with the bounds [s] and [e]. *)
Definition domain_line (line : string) (s e : Z) : Prop :=
  exists ts te more,
    split line = "domain" :: ts :: te :: more /\ int ts = Ok s /\ int te = Ok e.

(** A line of a seghca file that is neither a header nor a domain line: its
    first token is not [domain] and it does not start with [>]. *)
Definition other_line (line : string) : Prop :=
  exists c t0 more,
    first_char line = Ok c /\ Ascii.eqb c ">" = false /\
    split line = t0 :: more /\ String.eqb t0 "domain" = false.

(** The tuple stored for a domain line. *)
Definition hca_tuple (se : Z * Z) : list val :=
  [VInt (fst se - 1); VInt (snd se); VStr "domain"; VStr "!"; VNone].

(** A line that [read_pfamdomain] skips. *)
Definition pfam_skipped (line : string) : Prop :=
  exists c, first_char line = Ok c /\
            (Ascii.eqb c "#" || Ascii.eqb c (ascii_of_nat 10)) = true.

(** An annotation line of a pfam file. *)
Definition pfam_line (line prot name : string) (s e : Z) : Prop :=
  exists c ts te more,
    first_char line = Ok c /\
    (Ascii.eqb c "#" || Ascii.eqb c (ascii_of_nat 10)) = false /\
    split line = prot :: name :: ts :: te :: more /\
    int ts = Ok s /\ int te = Ok e.

(** A seghca file in which the protein [P1] has two header lines. *)
Definition repeated_header_seghca : list string :=
  [(">P1 100" ++ nl)%string; ("domain 5 20" ++ nl)%string;
   ("cluster 1 2 101" ++ nl)%string;
   (">P1 100" ++ nl)%string; ("domain 30 40" ++ nl)%string;
   ("domain 50 60" ++ nl)%string].

(** ** Vocabulary for the report writer *)

(** The computation returns, with a value that satisfies [P]. *)
Definition returns {A : Type} (m : W A) (P : A -> Prop) : Prop :=
  forall out, exists new a, m out = (out ++ new, Ok a) /\ P a.

(** The chunks of the header, as [write_header] writes them. *)
Definition header_chunks : list chunk := fst (write_header []).

(** There is a description and a sequence for every query name. *)
Definition query_complete (query : query_t) : Prop :=
  (List.length (qname query) <= List.length (qdescr query))%nat /\
  (List.length (qname query) <= List.length (qseq query))%nat.

(** Every annotation of the mapping can be rendered: it has six fields and
    its start is a number. *)
Definition renderable (cddres : annotations) : Prop :=
  forall prot anns ann,
    dget cddres prot = Some anns -> In ann anns ->
    exists start stop dom d_e_val bitscore types v,
      ann = [start; stop; dom; d_e_val; bitscore; types] /\
      add1 start = Ok v.

(** Every index of [positions] is a query sub-domain of the hit mapping and
    of the grouping, whose member proteins are keys of the hit mapping. *)
Definition domains_present (positions : list (Z * Z))
    (targets : dict Z domtargets) (groups : dict Z domgroups) : Prop :=
  forall i, (i < List.length positions)%nat ->
    exists gq tq,
      dget groups (Z.of_nat i) = Some gq /\
      dget targets (Z.of_nat i) = Some tq /\
      NoDup (keys gq) /\ members_in_targets gq tq.

(** The six chunks of one hit. *)
Definition hit_chunks (querydom : Z) (kv : Z * hit) : list chunk :=
  let hitnum := fst kv in
  let res := snd kv in
  [Fmt (tsv ["Hit"; "{}"; "{}"; "{}"; "{}"; "{}"; "{}"; "{}"])
       [VInt (querydom + 1); VInt hitnum; VFloat (E_value res);
        VFloat (Probab res); VFloat (Score res); VFloat (Identities res);
        VFloat (Similarity res)];
   Fmt (tsv ["HitQali"; "{}"; "{}"; "{}"; "{}"; "{}"])
       [VInt (querydom + 1); VInt hitnum; VInt (Qstart res + 1);
        VInt (Qstop res); VStr (Qali res)];
   Fmt (tsv ["HitQcon"; "{}"; "{}"; "{}"; "{}"; "{}"])
       [VInt (querydom + 1); VInt hitnum; VInt (Qstart res + 1);
        VInt (Qstop res); VStr (Qcons res)];
   Fmt (tsv ["HitTcon"; "{}"; "{}"; "{}"; "{}"; "{}"])
       [VInt (querydom + 1); VInt hitnum; VInt (Tstart res + 1);
        VInt (Tstop res); VStr (Tcons res)];
   Fmt (tsv ["HitTali"; "{}"; "{}"; "{}"; "{}"; "{}"])
       [VInt (querydom + 1); VInt hitnum; VInt (Tstart res + 1);
        VInt (Tstop res); VStr (Tali res)];
   text ("//" ++ nl)%string].

(** Annotations with six fields, as the report writer unpacks them. *)
Definition sample_cddres : annotations :=
  [("P1", [[VInt 4; VInt 20; VStr "PF00001"; VFloat (1 # 100); VFloat 35;
            VStr "specific"]])].

(** A query with a name and no description. *)
Definition short_query : query_t :=
  {| qname := ["query"]; qdescr := []; qseq := ["MKVLA"] |}.

(** ** write_annotHCA (lines 39-62) *)

(** The annotation of one protein: the dictionary with the entries
    ["domain"] and ["cluster"], each a list of annotation objects. *)
Definition protein_annotation : Type := dict string (list val).

(** The lines of one protein.  [sizes[prot]] is read before the header line
    is written; the line of an annotation is [str(annotation)], which is what
    the format of the object itself renders. *)
Definition write_annotHCA_protein (sizes : dict string val)
    (kv : string * protein_annotation) : W unit :=
  let '(prot, entry) := kv in
  wdo size <~ lift (subscript sizes prot) ;;
  write (Fmt (">{} {}" ++ nl)%string [VStr prot; size]) ;;
  wdo domains <~ lift (subscript entry "domain") ;;
  wfor domains (fun annotation =>
    write (Fmt ("{}" ++ nl)%string [annotation])) ;;
  wdo clusters <~ lift (subscript entry "cluster") ;;
  wfor clusters (fun annotation =>
    write (Fmt ("{}" ++ nl)%string [annotation])).

(** What is printed on standard output, and the text of the file with the
    outcome; the file is opened for writing and starts empty. *)
Definition write_annotHCA (output : string)
    (dannotate : dict string protein_annotation) (sizes : dict string val)
    (verbose : bool) : list chunk * (list chunk * result unit) :=
  ((if verbose
    then [Fmt ("Writting output of annotation to file {}" ++ nl)%string
              [VStr output]]
    else []),
   wfor dannotate (write_annotHCA_protein sizes) []).

(** The lines of one protein when nothing is missing. *)
Definition annotHCA_block (sizes : dict string val)
    (kv : string * protein_annotation) : list chunk :=
  match dget sizes (fst kv), dget (snd kv) "domain", dget (snd kv) "cluster" with
  | Some size, Some domains, Some clusters =>
      Fmt (">{} {}" ++ nl)%string [VStr (fst kv); size]
      :: map (fun a => Fmt ("{}" ++ nl)%string [a]) (domains ++ clusters)
  | _, _, _ => []
  end.

(** The protein has a size and both annotation lists. *)
Definition annotHCA_entry_ok (sizes : dict string val)
    (kv : string * protein_annotation) : bool :=
  dmem sizes (fst kv) && dmem (snd kv) "domain" && dmem (snd kv) "cluster".

Definition sample_dannotate : dict string protein_annotation :=
  [("P1", [("domain", [VStr "domain 5 20"; VStr "domain 30 40"]);
           ("cluster", [VStr "cluster 6 9 1011"])]);
   ("P2", [("domain", []); ("cluster", [])])].

Definition sample_sizes : dict string val := [("P1", VInt 100); ("P2", VInt 50)].

(** * Properties *)

(** ** Dictionaries *)

Section DictFacts.
Context {K V : Type} `{Key K}.
Implicit Types (d : dict K V) (k : K) (v : V).

Lemma keq_refl k : keq k k = true.
Proof. destruct (keq_spec k k); congruence. Qed.

Lemma keq_neq k k' : k <> k' -> keq k k' = false.
Proof. intros Hn. destruct (keq_spec k k'); congruence. Qed.

Lemma dget_dset_same d k v : dget (dset d k v) k = Some v.
Proof.
  induction d as [|[k' v'] d IH]; simpl.
  - now rewrite keq_refl.
  - destruct (keq_spec k k') as [->|Hn]; simpl.
    + now rewrite keq_refl.
    + now rewrite (keq_neq _ _ Hn).
Qed.

Lemma dget_dset_other d k k' v : k <> k' -> dget (dset d k v) k' = dget d k'.
Proof.
  intros Hn. induction d as [|[k0 v0] d IH]; simpl.
  - rewrite keq_neq; [reflexivity | congruence].
  - destruct (keq_spec k k0) as [->|Hn0]; simpl.
    + rewrite keq_neq; [reflexivity | congruence].
    + now rewrite IH.
Qed.

Lemma dset_same d k v : dget d k = Some v -> dset d k v = d.
Proof.
  induction d as [|[k' v'] d IH]; simpl; [discriminate|].
  destruct (keq_spec k k') as [->|Hn]; intros Hg.
  - congruence.
  - now rewrite IH.
Qed.

Lemma dset_dset d k v v' : dset (dset d k v) k v' = dset d k v'.
Proof.
  induction d as [|[k0 v0] d IH]; simpl.
  - now rewrite keq_refl.
  - destruct (keq_spec k k0) as [->|Hn]; simpl.
    + now rewrite keq_refl.
    + now rewrite (keq_neq _ _ Hn), IH.
Qed.

Lemma dget_In d k v : dget d k = Some v -> In (k, v) d.
Proof.
  induction d as [|[k' v'] d IH]; simpl; [discriminate|].
  destruct (keq_spec k k') as [->|Hn]; intros Hg.
  - left. congruence.
  - right. now apply IH.
Qed.

Lemma dget_None_iff d k : dget d k = None <-> ~ In k (keys d).
Proof.
  induction d as [|[k' v'] d IH]; simpl.
  - tauto.
  - destruct (keq_spec k k') as [->|Hn].
    + split; [discriminate | intros Hc; exfalso; apply Hc; now left].
    + rewrite IH. split; intros Hc; [intros [E|I]; [congruence | tauto] | tauto].
Qed.

Lemma dget_Some_keys d k v : dget d k = Some v -> In k (keys d).
Proof. intros Hg. apply dget_In in Hg. now apply (in_map fst) in Hg. Qed.

Lemma In_keys_dget d k : In k (keys d) -> exists v, dget d k = Some v.
Proof.
  intros Hi. destruct (dget d k) eqn:E; [eauto|].
  apply dget_None_iff in E. contradiction.
Qed.

Lemma In_dget d k v : NoDup (keys d) -> In (k, v) d -> dget d k = Some v.
Proof.
  induction d as [|[k' v'] d IH]; simpl; [tauto|].
  intros Hnd [E|Hi].
  - inversion E; subst. now rewrite keq_refl.
  - inversion Hnd as [|? ? Hni Hnd']; subst.
    destruct (keq_spec k k') as [->|Hn].
    + exfalso. apply Hni. now apply (in_map fst) in Hi.
    + now apply IH.
Qed.

Lemma keys_dset d k v :
  keys (dset d k v) = if dmem d k then keys d else keys d ++ [k].
Proof.
  unfold dmem. induction d as [|[k' v'] d IH]; simpl; [reflexivity|].
  destruct (keq_spec k k') as [->|Hn]; simpl; [reflexivity|].
  rewrite IH. now destruct (dget d k).
Qed.

Lemma In_keys_dset d k v k' :
  In k' (keys (dset d k v)) <-> k' = k \/ In k' (keys d).
Proof.
  rewrite keys_dset. unfold dmem. destruct (dget d k) eqn:E.
  - split; [tauto|]. intros [->|Hi]; [|assumption].
    now apply dget_Some_keys in E.
  - rewrite in_app_iff. simpl. intuition.
Qed.

Lemma NoDup_keys_dset d k v : NoDup (keys d) -> NoDup (keys (dset d k v)).
Proof.
  intros Hnd. rewrite keys_dset. unfold dmem.
  destruct (dget d k) eqn:E; [assumption|].
  apply dget_None_iff in E.
  apply NoDup_rev in Hnd. rewrite <- (rev_involutive (keys d ++ [k])).
  apply NoDup_rev. rewrite rev_app_distr. simpl. constructor; [|assumption].
  now rewrite <- in_rev.
Qed.

Lemma dmem_true_iff d k : dmem d k = true <-> In k (keys d).
Proof.
  unfold dmem. destruct (dget d k) eqn:E.
  - split; [intros _; now apply dget_Some_keys in E | reflexivity].
  - apply dget_None_iff in E. split; [discriminate | contradiction].
Qed.
End DictFacts.

(** ** Three-way comparisons *)

Section CmpFacts.
Context {A : Type} {cmp : A -> A -> comparison} (T : total_cmp cmp).

Lemma cmp_refl a : cmp a a = Eq.
Proof.
  pose proof (cmp_antisym cmp T a a) as E.
  destruct (cmp a a); simpl in E; congruence.
Qed.

Lemma cmp_eq_sym a b : cmp a b = Eq -> cmp b a = Eq.
Proof.
  intros E. rewrite (cmp_antisym cmp T b a), E. reflexivity.
Qed.

Lemma cmp_eq_subst_r a b c : cmp b c = Eq -> cmp a b = cmp a c.
Proof.
  intros E. rewrite (cmp_antisym cmp T a b), (cmp_antisym cmp T a c).
  now rewrite (cmp_eq_subst cmp T b c a E).
Qed.

Lemma cmp_gt_lt a b : cmp a b = Gt <-> cmp b a = Lt.
Proof.
  rewrite (cmp_antisym cmp T a b).
  destruct (cmp b a); simpl; split; congruence.
Qed.

Lemma cmp_le_trans a b c :
  cmp_le cmp a b -> cmp_le cmp b c -> cmp_le cmp a c.
Proof.
  unfold cmp_le. intros Hab Hbc.
  destruct (cmp a b) eqn:Eab; [| |congruence].
  - now rewrite (cmp_eq_subst cmp T a b c Eab).
  - destruct (cmp b c) eqn:Ebc; [| |congruence].
    + rewrite <- (cmp_eq_subst_r a b c Ebc), Eab. discriminate.
    + rewrite (cmp_lt_trans cmp T a b c Eab Ebc). discriminate.
Qed.

Lemma cmp_le_total a b : cmp_le cmp a b \/ cmp_le cmp b a.
Proof.
  unfold cmp_le. rewrite (cmp_antisym cmp T b a).
  destruct (cmp a b); simpl; intuition congruence.
Qed.
End CmpFacts.

Lemma total_cmp_lex {A B : Type} (c1 : A -> A -> comparison)
    (c2 : B -> B -> comparison) :
  total_cmp c1 -> total_cmp c2 -> total_cmp (lex c1 c2).
Proof.
  intros T1 T2. split; unfold lex.
  - intros [a1 b1] [a2 b2]; simpl.
    rewrite (cmp_antisym c1 T1 a1 a2), (cmp_antisym c2 T2 b1 b2).
    now destruct (c1 a2 a1).
  - intros [a1 b1] [a2 b2] [a3 b3]; simpl.
    destruct (c1 a1 a2) eqn:E12; try discriminate.
    + rewrite (cmp_eq_subst c1 T1 a1 a2 a3 E12).
      destruct (c1 a2 a3); try discriminate; [|reflexivity].
      apply (cmp_lt_trans c2 T2).
    + intros _. destruct (c1 a2 a3) eqn:E23; try discriminate.
      * now rewrite <- (cmp_eq_subst_r T1 a1 a2 a3 E23), E12.
      * now rewrite (cmp_lt_trans c1 T1 a1 a2 a3 E12 E23).
  - intros [a1 b1] [a2 b2] [a3 b3]; simpl.
    destruct (c1 a1 a2) eqn:E12; try discriminate.
    intros E. rewrite (cmp_eq_subst c1 T1 a1 a2 a3 E12).
    now rewrite (cmp_eq_subst c2 T2 b1 b2 b3 E).
Qed.

Lemma total_cmp_on {A B : Type} (f : A -> B) (c : B -> B -> comparison) :
  total_cmp c -> total_cmp (fun a b => c (f a) (f b)).
Proof.
  intros T. split; intros.
  - apply (cmp_antisym c T).
  - eapply (cmp_lt_trans c T); eassumption.
  - now apply (cmp_eq_subst c T).
Qed.

Lemma total_cmp_Q : total_cmp Qcompare.
Proof.
  split.
  - intros a b. now rewrite Qcompare_antisym.
  - intros a b c. rewrite <- !Qlt_alt. apply Qlt_trans.
  - intros a b c E. apply Qeq_alt in E. now rewrite E.
Qed.

Lemma total_cmp_Z : total_cmp Z.compare.
Proof.
  split.
  - intros a b. now rewrite Z.compare_antisym.
  - intros a b c. rewrite !Z.compare_lt_iff. lia.
  - intros a b c E. apply Z.compare_eq in E. now subst.
Qed.

Lemma total_cmp_string : total_cmp String.compare.
Proof.
  split.
  - apply String.compare_antisym.
  - intros a b c H1 H2.
    apply String_as_OT.cmp_lt in H1. apply String_as_OT.cmp_lt in H2.
    apply String_as_OT.cmp_lt. eapply String_as_OT.lt_trans; eassumption.
  - intros a b c E. apply String.compare_eq_iff in E. now subst.
Qed.

Lemma total_cmp_pair : total_cmp pair_cmp.
Proof. apply total_cmp_lex; [apply total_cmp_Q | apply total_cmp_string]. Qed.

Lemma total_cmp_datum : total_cmp datum_cmp.
Proof.
  unfold datum_cmp.
  apply (total_cmp_on datum_key).
  repeat apply total_cmp_lex;
    first [apply total_cmp_Q | apply total_cmp_string | apply total_cmp_Z].
Qed.

Lemma Qltb_lt a b : Qltb a b = true <-> Qcompare a b = Lt.
Proof. unfold Qltb. destruct (Qcompare a b); split; congruence. Qed.

Lemma Qeq_bool_cmp a b : Qeq_bool a b = true <-> Qcompare a b = Eq.
Proof. rewrite Qeq_bool_iff. apply Qeq_alt. Qed.

Lemma string_ltb_lt a b : String.ltb a b = true <-> String.compare a b = Lt.
Proof. unfold String.ltb. destruct (String.compare a b); split; congruence. Qed.

Lemma string_eqb_cmp a b : String.eqb a b = true <-> String.compare a b = Eq.
Proof.
  rewrite String.eqb_eq. split.
  - intros ->. apply (cmp_refl total_cmp_string).
  - apply String.compare_eq_iff.
Qed.

Lemma Z_eqb_cmp a b : Z.eqb a b = true <-> Z.compare a b = Eq.
Proof. rewrite Z.eqb_eq. symmetry. apply Z.compare_eq_iff. Qed.

Lemma pair_ltb_lt a b : pair_ltb a b = true <-> pair_cmp a b = Lt.
Proof.
  unfold pair_ltb, pair_cmp, lex.
  destruct (Qeq_bool (fst a) (fst b)) eqn:E.
  - apply Qeq_bool_cmp in E. rewrite E. apply string_ltb_lt.
  - rewrite Qltb_lt. destruct (Qcompare (fst a) (fst b)) eqn:C;
      try (split; congruence).
    apply Qeq_bool_cmp in C. congruence.
Qed.

Lemma datum_ltb_lt a b : datum_ltb a b = true <-> datum_cmp a b = Lt.
Proof.
  unfold datum_ltb, datum_cmp, datum_key, lex; simpl.
  destruct (Qeq_bool (d_evalue a) (d_evalue b)) eqn:E1; simpl.
  2:{ rewrite Qltb_lt. destruct (Qcompare (d_evalue a) (d_evalue b)) eqn:C;
        try (split; congruence). apply Qeq_bool_cmp in C. congruence. }
  apply Qeq_bool_cmp in E1. rewrite E1.
  destruct (Qeq_bool (d_probab a) (d_probab b)) eqn:E2; simpl.
  2:{ rewrite Qltb_lt. destruct (Qcompare (d_probab a) (d_probab b)) eqn:C;
        try (split; congruence). apply Qeq_bool_cmp in C. congruence. }
  apply Qeq_bool_cmp in E2. rewrite E2.
  destruct (String.eqb (d_prot a) (d_prot b)) eqn:E3; simpl.
  2:{ rewrite string_ltb_lt.
      destruct (String.compare (d_prot a) (d_prot b)) eqn:C;
        try (split; congruence). apply string_eqb_cmp in C. congruence. }
  apply string_eqb_cmp in E3. rewrite E3.
  destruct (Z.eqb (d_hitnum a) (d_hitnum b)) eqn:E4; simpl.
  2:{ rewrite Z.ltb_lt, <- Z.compare_lt_iff.
      destruct (Z.compare (d_hitnum a) (d_hitnum b)) eqn:C;
        try (split; congruence). apply Z_eqb_cmp in C. congruence. }
  apply Z_eqb_cmp in E4. rewrite E4.
  apply string_ltb_lt.
Qed.

(** ** The sort *)

Section SortFacts.
Context {A : Type} (cmp : A -> A -> comparison) (ltb : A -> A -> bool).
Hypothesis T : total_cmp cmp.
Hypothesis ltb_lt : forall a b, ltb a b = true <-> cmp a b = Lt.

Lemma insert_perm x l : Permutation (insert ltb x l) (x :: l).
Proof.
  induction l as [|y l IH]; simpl; [reflexivity|].
  destruct (ltb y x); [|reflexivity].
  rewrite IH. apply perm_swap.
Qed.

Lemma sort_perm l : Permutation (sort ltb l) l.
Proof.
  induction l as [|x l IH]; simpl; [reflexivity|].
  rewrite insert_perm. now constructor.
Qed.

Lemma insert_sorted x l :
  StronglySorted (cmp_le cmp) l -> StronglySorted (cmp_le cmp) (insert ltb x l).
Proof.
  induction 1 as [|y l Hs IH Hall]; simpl.
  - repeat constructor.
  - destruct (ltb y x) eqn:E.
    + apply ltb_lt in E. constructor; [assumption|].
      eapply Permutation_Forall; [symmetry; apply insert_perm|].
      constructor; [|assumption]. unfold cmp_le. congruence.
    + assert (Hxy : cmp_le cmp x y).
      { unfold cmp_le. intros G. apply (cmp_gt_lt T) in G.
        apply ltb_lt in G. congruence. }
      constructor; [now constructor|].
      constructor; [assumption|].
      eapply Forall_impl; [|exact Hall].
      intros z Hz. eapply (cmp_le_trans T); eassumption.
Qed.

Lemma sort_sorted l : StronglySorted (cmp_le cmp) (sort ltb l).
Proof.
  induction l as [|x l IH]; simpl; [constructor | now apply insert_sorted].
Qed.

Lemma sort_In x l : In x (sort ltb l) <-> In x l.
Proof.
  split; apply Permutation_in; [apply sort_perm | symmetry; apply sort_perm].
Qed.

Lemma sort_length l : List.length (sort ltb l) = List.length l.
Proof. apply Permutation_length, sort_perm. Qed.
End SortFacts.

(** ** Minima of e-values *)

Lemma Qmin_ltb c e : Qmin c e = if Qltb e c then e else c.
Proof.
  unfold Qmin, GenericMinMax.gmin, Qltb.
  rewrite <- (Qcompare_antisym c e). now destruct (Qcompare c e).
Qed.

Lemma Qmin_left c e : (c <= e)%Q -> Qmin c e = c.
Proof.
  intros Hle. unfold Qmin, GenericMinMax.gmin.
  apply -> Qle_alt in Hle. destruct (Qcompare c e); congruence.
Qed.

Lemma fold_Qmin_le l : forall x,
  (fold_left Qmin l x <= x)%Q /\ Forall (fun y => (fold_left Qmin l x <= y)%Q) l.
Proof.
  induction l as [|y l IH]; intros x; simpl.
  - split; [apply Qle_refl | constructor].
  - destruct (IH (Qmin x y)) as [H1 H2]. split.
    + eapply Qle_trans; [exact H1 | apply Q.le_min_l].
    + constructor; [|exact H2].
      eapply Qle_trans; [exact H1 | apply Q.le_min_r].
Qed.

Lemma fold_Qmin_In l : forall x, In (fold_left Qmin l x) (x :: l).
Proof.
  induction l as [|y l IH]; intros x; simpl; [now left|].
  destruct (IH (Qmin x y)) as [E|Hi]; [|now right; right].
  rewrite <- E. rewrite Qmin_ltb. destruct (Qltb y x); simpl; tauto.
Qed.

Lemma fold_Qmin_fix l c :
  Forall (fun y => (c <= y)%Q) l -> fold_left Qmin l c = c.
Proof.
  induction 1 as [|y l Hy Hl IH]; simpl; [reflexivity|].
  now rewrite (Qmin_left c y Hy).
Qed.

(** [Qmin_list] returns an element of the list that no element is below. *)
Lemma Qmin_list_spec l m :
  Qmin_list l = Some m -> In m l /\ forall y, In y l -> (m <= y)%Q.
Proof.
  destruct l as [|x l]; simpl; [discriminate|].
  intros E. inversion E; subst. split; [apply fold_Qmin_In|].
  destruct (fold_Qmin_le l x) as [H1 H2].
  intros y [->|Hy]; [assumption|].
  rewrite Forall_forall in H2. now apply H2.
Qed.

Lemma best_evalue_has_hit targets p :
  has_hit targets p = true <-> exists e, best_evalue targets p = Some e.
Proof.
  unfold has_hit, best_evalue.
  destruct (dget targets p) as [[|kv hs]|]; simpl; split;
    try discriminate; try (intros [e E]; discriminate); eauto.
Qed.

(** ** flatres *)

Lemma flatres_hits_fold name hs : forall fl po,
  fold_left (flatres_hit name) hs (fl, po) =
  (flat_hits hs fl,
   match hs with
   | [] => po
   | kv :: rest =>
       dset po name
         (fold_left Qmin (evalues_of rest)
            (match dget po name with
             | Some c => Qmin c (E_value (snd kv))
             | None => E_value (snd kv)
             end))
   end).
Proof.
  induction hs as [|[h res] rest IH]; intros fl po; [reflexivity|].
  assert (Hstep : flatres_hit name (fl, po) (h, res) =
                  (dset fl h (flatrow res),
                   dset po name (match dget po name with
                                 | Some c => Qmin c (E_value res)
                                 | None => E_value res
                                 end))).
  { unfold flatres_hit. destruct (dget po name) as [c|] eqn:E; [|reflexivity].
    rewrite Qmin_ltb. destruct (Qltb (E_value res) c); [reflexivity|].
    now rewrite (dset_same _ _ _ E). }
  cbn [fold_left]. rewrite Hstep, IH. unfold flat_hits. cbn [fold_left fst snd].
  f_equal. destruct rest as [|[h2 res2] rest2]; [reflexivity|].
  rewrite dget_dset_same, dset_dset. reflexivity.
Qed.

Lemma flatres_loop_orders targets proteins : forall fl po fl' po',
  flatres_loop targets proteins fl po = Ok (fl', po') ->
  NoDup (keys po) ->
  (forall p e, dget po p = Some e -> best_evalue targets p = Some e) ->
  NoDup (keys po') /\
  (forall p e, dget po' p = Some e -> best_evalue targets p = Some e) /\
  (forall p, In p (keys po') <->
             In p (keys po) \/ (In p proteins /\ has_hit targets p = true)).
Proof.
  induction proteins as [|name rest IH]; intros fl po fl' po' Hrun Hnd Hbest.
  - inversion Hrun; subst. repeat split; try assumption; simpl; tauto.
  - simpl in Hrun. unfold subscript in Hrun.
    destruct (dget targets name) as [hs|] eqn:Et; [|discriminate].
    simpl in Hrun. rewrite flatres_hits_fold in Hrun.
    destruct hs as [|[h res] hs'].
    + apply IH in Hrun; try assumption.
      destruct Hrun as (H1 & H2 & H3). repeat split; try assumption.
      * intros Hp. apply H3 in Hp. simpl. tauto.
      * intros [Hp|[[->|Hp] Hh]]; apply H3; try tauto.
        unfold has_hit in Hh. rewrite Et in Hh. discriminate.
    + assert (Hb : best_evalue targets name =
                   Some (fold_left Qmin (evalues_of hs') (E_value res))).
      { unfold best_evalue. now rewrite Et. }
      assert (Hm : fold_left Qmin (evalues_of hs')
                     (match dget po name with
                      | Some c => Qmin c (E_value (snd (h, res)))
                      | None => E_value (snd (h, res))
                      end) =
                   fold_left Qmin (evalues_of hs') (E_value res)).
      { destruct (dget po name) as [c|] eqn:Ec; [|reflexivity].
        apply Hbest in Ec. rewrite Hb in Ec. inversion Ec as [Ec'].
        destruct (fold_Qmin_le (evalues_of hs') (E_value res)) as [Hle Hall].
        rewrite Ec' in Hle, Hall |- *. simpl.
        rewrite (Qmin_left _ _ Hle). now apply fold_Qmin_fix. }
      rewrite Hm in Hrun. apply IH in Hrun.
      * destruct Hrun as (H1 & H2 & H3). repeat split; try assumption.
        -- intros Hp. apply H3 in Hp. rewrite In_keys_dset in Hp. simpl.
           destruct Hp as [[->|Hp]|[Hp Hh]]; try tauto.
           right. split; [now left|]. unfold has_hit. now rewrite Et.
        -- intros Hp. apply H3. rewrite In_keys_dset. simpl in Hp.
           destruct Hp as [Hp|[[->|Hp] Hh]]; tauto.
      * now apply NoDup_keys_dset.
      * intros p e. destruct (String.eqb_spec name p) as [->|Hn].
        -- rewrite dget_dset_same. intros E. inversion E; subst. exact Hb.
        -- rewrite dget_dset_other by assumption. apply Hbest.
Qed.

Lemma flatres_loop_start targets proteins fl' po' :
  flatres_loop targets proteins [] [] = Ok (fl', po') ->
  NoDup (keys po') /\
  (forall p e, dget po' p = Some e -> best_evalue targets p = Some e) /\
  (forall p, In p (keys po') <-> In p proteins /\ has_hit targets p = true).
Proof.
  intros Hloop.
  apply flatres_loop_orders in Hloop; [|constructor | discriminate].
  destruct Hloop as (H1 & H2 & H3).
  split; [assumption|]. split; [assumption|].
  intros p. rewrite H3. simpl. tauto.
Qed.

Lemma flatres_loop_flat targets proteins : forall fl po fl' po',
  flatres_loop targets proteins fl po = Ok (fl', po') ->
  forall name,
    (In name proteins ->
     exists hs, dget targets name = Some hs /\
                dget fl' name = Some (flat_hits hs [])) /\
    (~ In name proteins -> dget fl' name = dget fl name).
Proof.
  induction proteins as [|n0 rest IH]; intros fl po fl' po' Hrun name.
  - inversion Hrun; subst. simpl. tauto.
  - simpl in Hrun. unfold subscript in Hrun.
    destruct (dget targets n0) as [hs|] eqn:Et; [|discriminate].
    simpl in Hrun. rewrite flatres_hits_fold in Hrun.
    destruct (IH _ _ _ _ Hrun name) as [Hin Hout].
    split.
    + intros Hi. destruct (in_dec string_dec name rest) as [Hr|Hr].
      * now apply Hin.
      * destruct Hi as [->|Hi]; [|contradiction].
        exists hs. split; [assumption|].
        rewrite (Hout Hr). apply dget_dset_same.
    + intros Hni. simpl in Hni.
      rewrite Hout by tauto. apply dget_dset_other. tauto.
Qed.

Lemma flatres_loop_total targets proteins : forall fl po,
  (forall p, In p proteins -> dmem targets p = true) ->
  exists fl' po', flatres_loop targets proteins fl po = Ok (fl', po').
Proof.
  induction proteins as [|name rest IH]; intros fl po Hk; simpl; [eauto|].
  assert (Hm : dmem targets name = true) by (apply Hk; now left).
  unfold dmem in Hm. unfold subscript.
  destruct (dget targets name) as [hs|]; [|discriminate]. simpl.
  destruct (fold_left (flatres_hit name) hs ([], po)) as [fl1 po1].
  apply IH. intros p Hp. apply Hk. now right.
Qed.

Lemma StronglySorted_map_distinct {A B : Type} (f : A -> B)
    (R : A -> A -> Prop) (S : B -> B -> Prop) (l : list A) :
  StronglySorted R l ->
  NoDup (map f l) ->
  (forall a b, In a l -> In b l -> R a b -> f a <> f b -> S (f a) (f b)) ->
  StronglySorted S (map f l).
Proof.
  induction 1 as [|a l Hs IH Hall]; intros Hnd Himp; simpl; [constructor|].
  inversion Hnd as [|? ? Hni Hnd']; subst.
  constructor.
  - apply IH; [assumption|]. intros x y Hx Hy. apply Himp; now right.
  - rewrite Forall_forall in *. intros fb Hfb.
    apply in_map_iff in Hfb. destruct Hfb as (b & <- & Hb).
    apply Himp; [now left | now right | now apply Hall|].
    intros E. apply Hni. rewrite E. now apply in_map.
Qed.

Lemma unzip2_Ok {A B : Type} (l : list (A * B)) xs ys :
  unzip2 l = Ok (xs, ys) -> l <> [] /\ ys = map snd l.
Proof.
  destruct l; simpl; [discriminate|]. intros E. inversion E; subst.
  split; [discriminate | reflexivity].
Qed.

Lemma flatres_Ok targets proteins order flat :
  flatres targets proteins = Ok (order, flat) ->
  exists po, flatres_loop targets proteins [] [] = Ok (flat, po) /\
             po <> [] /\ order = map snd (flatorders_of po).
Proof.
  unfold flatres. destruct (flatres_loop targets proteins [] []) as [[fl po]|e];
    simpl; [|discriminate].
  destruct (unzip2 (flatorders_of po)) as [[ev ord]|e] eqn:Eu; simpl;
    [|discriminate].
  intros E. inversion E; subst. apply unzip2_Ok in Eu. destruct Eu as [Hne ->].
  exists po. repeat split. intros ->. now apply Hne.
Qed.

Lemma flatorders_snd_perm po :
  Permutation (map snd (flatorders_of po)) (keys po).
Proof.
  unfold flatorders_of, keys.
  rewrite (Permutation_map snd (sort_perm pair_ltb _)).
  rewrite map_map. reflexivity.
Qed.

Lemma flatorders_In po e p : In (e, p) (flatorders_of po) <-> In (p, e) po.
Proof.
  unfold flatorders_of.
  rewrite (sort_In pair_ltb), in_map_iff. split.
  - intros ([p' e'] & E & Hi). simpl in E. now inversion E; subst.
  - intros Hi. now exists (p, e).
Qed.

Lemma flatres_order_In targets proteins order flat :
  flatres targets proteins = Ok (order, flat) ->
  forall p, In p order <-> In p proteins /\ has_hit targets p = true.
Proof.
  intros Hrun p. apply flatres_Ok in Hrun. destruct Hrun as (po & Hloop & _ & ->).
  destruct (flatres_loop_start _ _ _ _ Hloop) as (_ & _ & Hkeys).
  rewrite <- Hkeys. split.
  - apply (Permutation_in _ (flatorders_snd_perm po)).
  - apply (Permutation_in _ (Permutation_sym (flatorders_snd_perm po))).
Qed.

(** C1, as the code has it: every protein of the returned order has a best
    e-value, the minimum of the e-values of its hits, and the order is
    strictly ascending in the pairs (best e-value, protein id): proteins are
    sorted by their best e-value and proteins with equal best e-values stand
    in ascending order of their ids. *)
Theorem flatres_order_sorted targets proteins order flat :
  flatres targets proteins = Ok (order, flat) ->
  (forall p, In p order ->
     exists hs e,
       dget targets p = Some hs /\ best_evalue targets p = Some e /\
       In e (evalues_of hs) /\
       forall e', In e' (evalues_of hs) -> (e <= e')%Q) /\
  StronglySorted (best_then_id targets) order.
Proof.
  intros Hrun. split.
  - intros p Hp. apply (flatres_order_In _ _ _ _ Hrun) in Hp.
    destruct Hp as [_ Hh]. apply best_evalue_has_hit in Hh.
    destruct Hh as (e & Hb). unfold best_evalue in Hb.
    destruct (dget targets p) as [hs|] eqn:Eg; [|discriminate].
    exists hs, e. split; [reflexivity|].
    split; [unfold best_evalue; now rewrite Eg|].
    now apply Qmin_list_spec.
  - apply flatres_Ok in Hrun. destruct Hrun as (po & Hloop & _ & ->).
    destruct (flatres_loop_start _ _ _ _ Hloop) as (Hnd & Hbest & _).
    apply (StronglySorted_map_distinct snd (cmp_le pair_cmp)).
    + apply (sort_sorted pair_cmp pair_ltb total_cmp_pair pair_ltb_lt).
    + eapply Permutation_NoDup; [symmetry; apply flatorders_snd_perm | exact Hnd].
    + intros [e1 p1] [e2 p2] H1 H2 Hle Hne. simpl in *.
      apply flatorders_In in H1. apply flatorders_In in H2.
      apply (In_dget _ _ _ Hnd) in H1. apply (In_dget _ _ _ Hnd) in H2.
      exists e1, e2. repeat split; try (now apply Hbest).
      unfold cmp_le, pair_cmp, lex in Hle. simpl in Hle.
      destruct (Qcompare e1 e2) eqn:C.
      * right. split; [now apply Qeq_alt|]. apply string_ltb_lt.
        destruct (String.compare p1 p2) eqn:Cs; try congruence.
        apply String.compare_eq_iff in Cs. contradiction.
      * left. now apply Qlt_alt.
      * congruence.
Qed.

Lemma flatres_order_sorted_witness :
  exists flat,
    flatres sample_targets ["P2"; "P1"] = Ok (["P1"; "P2"], flat) /\
    StronglySorted (best_then_id sample_targets) ["P1"; "P2"].
Proof.
  eexists. split.
  - vm_compute. reflexivity.
  - eapply (flatres_order_sorted sample_targets ["P2"; "P1"]).
    vm_compute. reflexivity.
Defined.

(** C1, as the specification words the tie rule: [b] is met before [a] and
    both have the same best e-value, yet [a] comes first. *)
Lemma flatres_ties_resorted_by_id :
  exists order flat,
    flatres tie_targets ["b"; "a"] = Ok (order, flat) /\
    order = ["a"; "b"] /\
    ~ ties_in_first_seen_order tie_targets ["b"; "a"] order.
Proof.
  eexists. eexists. split; [vm_compute; reflexivity|]. split; [reflexivity|].
  intros Hties.
  specialize (Hties 0%nat 1%nat "a" "b" (1 # 1000)%Q (1 # 1000)%Q).
  assert (Hlt : (1 < 0)%nat)
    by (apply Hties; solve [lia | reflexivity | apply Qeq_refl]).
  lia.
Qed.

(** ** flatres: proteins without hits, failure *)

Lemma flatorders_nil po : flatorders_of po = [] <-> po = [].
Proof.
  split.
  - intros E.
    pose proof (sort_length pair_ltb (map (fun kv => (snd kv, fst kv)) po)) as L.
    unfold flatorders_of in E. rewrite E, length_map in L.
    destruct po; [reflexivity | discriminate].
  - intros ->. reflexivity.
Qed.

(** C5: a protein without hits is not in the returned order; when no given
    protein has a hit the call fails, with the [ValueError] of the unpacking
    of the empty [zip] when every given protein is a key of the hit mapping;
    when every given protein is a key and one of them has a hit, the call
    returns. *)
Theorem flatres_zero_hits targets proteins :
  (forall order flat, flatres targets proteins = Ok (order, flat) ->
     forall p, has_hit targets p = false -> ~ In p order) /\
  ((forall p, In p proteins -> has_hit targets p = false) ->
     exists e, flatres targets proteins = Raise e) /\
  ((forall p, In p proteins -> dmem targets p = true) ->
   (forall p, In p proteins -> has_hit targets p = false) ->
     flatres targets proteins = Raise ValueError) /\
  ((forall p, In p proteins -> dmem targets p = true) ->
   (exists p, In p proteins /\ has_hit targets p = true) ->
     exists order flat, flatres targets proteins = Ok (order, flat) /\
                        order <> []).
Proof.
  assert (Hnone : forall fl po,
             (forall p, In p proteins -> has_hit targets p = false) ->
             flatres_loop targets proteins [] [] = Ok (fl, po) -> po = []).
  { intros fl po Hno Hloop.
    destruct (flatres_loop_start _ _ _ _ Hloop) as (_ & _ & Hkeys).
    destruct po as [|[p e] po]; [reflexivity|]. exfalso.
    destruct (proj1 (Hkeys p) (or_introl eq_refl)) as [Hi Hh].
    rewrite (Hno p Hi) in Hh. discriminate. }
  split; [|split; [|split]].
  - intros order flat Hrun p Hno Hi.
    apply (flatres_order_In _ _ _ _ Hrun) in Hi. destruct Hi as [_ Hh]. congruence.
  - intros Hno. unfold flatres.
    destruct (flatres_loop targets proteins [] []) as [[fl po]|e] eqn:Hloop;
      simpl; [|eauto].
    rewrite (Hnone fl po Hno eq_refl). simpl. eauto.
  - intros Hk Hno. unfold flatres.
    destruct (flatres_loop_total targets proteins [] [] Hk) as (fl & po & Hloop).
    rewrite Hloop. simpl. now rewrite (Hnone _ _ Hno Hloop).
  - intros Hk (p & Hi & Hh). unfold flatres.
    destruct (flatres_loop_total targets proteins [] [] Hk) as (fl & po & Hloop).
    rewrite Hloop. simpl.
    destruct (flatres_loop_start _ _ _ _ Hloop) as (_ & _ & Hkeys).
    assert (Hp : In p (keys po)) by (apply Hkeys; now split).
    destruct (flatorders_of po) as [|x l] eqn:El.
    + apply flatorders_nil in El. subst po. contradiction.
    + simpl. eexists. eexists. split; [reflexivity | discriminate].
Qed.

Lemma flatres_zero_hits_witness :
  flatres nohit_targets ["P1"] = Raise ValueError /\
  exists order flat,
    flatres sample_targets ["P1"; "P2"] = Ok (order, flat) /\ order <> [].
Proof.
  split.
  - apply (proj1 (proj2 (proj2 (flatres_zero_hits nohit_targets ["P1"])))).
    + intros p [<-|[]]. reflexivity.
    + intros p [<-|[]]. reflexivity.
  - apply (proj2 (proj2 (proj2 (flatres_zero_hits sample_targets ["P1"; "P2"])))).
    + intros p [<-|[<-|[]]]; reflexivity.
    + exists "P1". split; [now left | reflexivity].
Defined.

(** ** flatres: the flat view *)

Lemma flat_hits_other hs : forall fl k,
  ~ In k (keys hs) -> dget (flat_hits hs fl) k = dget fl k.
Proof.
  unfold flat_hits.
  induction hs as [|[k0 r0] hs IH]; intros fl k Hni; simpl; [reflexivity|].
  simpl in Hni. rewrite IH by tauto.
  apply dget_dset_other. tauto.
Qed.

Lemma flat_hits_get hs : forall fl k res,
  NoDup (keys hs) -> In (k, res) hs ->
  dget (flat_hits hs fl) k = Some (flatrow res).
Proof.
  induction hs as [|[k0 r0] hs IH]; intros fl k res Hnd Hi; [contradiction|].
  inversion Hnd as [|? ? Hni Hnd']; subst.
  destruct Hi as [E|Hi].
  - inversion E; subst.
    change (flat_hits ((k, res) :: hs) fl)
      with (flat_hits hs (dset fl k (flatrow res))).
    rewrite flat_hits_other by assumption. apply dget_dset_same.
  - change (flat_hits ((k0, r0) :: hs) fl)
      with (flat_hits hs (dset fl k0 (flatrow r0))).
    now apply IH.
Qed.

(** C9: for a hit [targets[name][hitnum]] of a given protein, the entry
    [flat[name][hitnum]] is the list of the fifteen display fields, in the
    order e-value, description, probability, score, identity, similarity,
    summed probability, query start and stop, template start and stop,
    query alignment and consensus, template alignment and consensus. *)
Theorem flatres_flat_fields targets proteins order flat name hs hitnum res :
  flatres targets proteins = Ok (order, flat) ->
  In name proteins ->
  dget targets name = Some hs ->
  NoDup (keys hs) ->
  dget hs hitnum = Some res ->
  exists fl row,
    dget flat name = Some fl /\ dget fl hitnum = Some row /\
    List.length row = 15%nat /\
    row = [VFloat (E_value res); VStr (descr res); VFloat (Probab res);
           VFloat (Score res); VFloat (Identities res);
           VFloat (Similarity res); VFloat (Sum_probs res);
           VInt (Qstart res); VInt (Qstop res);
           VInt (Tstart res); VInt (Tstop res);
           VStr (Qali res); VStr (Qcons res); VStr (Tali res); VStr (Tcons res)].
Proof.
  intros Hrun Hin Ht Hnd Hh.
  apply flatres_Ok in Hrun. destruct Hrun as (po & Hloop & _ & _).
  destruct (flatres_loop_flat _ _ _ _ _ _ Hloop name) as [Hflat _].
  destruct (Hflat Hin) as (hs' & Ht' & Hfl).
  rewrite Ht in Ht'. inversion Ht'; subst hs'.
  exists (flat_hits hs []), (flatrow res).
  split; [assumption|]. split; [|split; reflexivity].
  apply flat_hits_get; [assumption|]. now apply dget_In.
Qed.

Lemma flatres_flat_fields_witness :
  exists flat fl row,
    flatres sample_targets ["P1"; "P2"] = Ok (["P1"; "P2"], flat) /\
    dget flat "P1" = Some fl /\ dget fl 2 = Some row /\
    nth_error row 0 = Some (VFloat (1 # 1000000000)) /\
    nth_error row 2 = Some (VFloat 99) /\
    nth_error row 14 = Some (VStr "mrv").
Proof.
  destruct (flatres_flat_fields sample_targets ["P1"; "P2"] ["P1"; "P2"]
              (match flatres sample_targets ["P1"; "P2"] with
               | Ok (_, flat) => flat
               | Raise _ => []
               end)
              "P1"
              [(1, sample_hit (1 # 100000) 90); (2, sample_hit (1 # 1000000000) 99)]
              2 (sample_hit (1 # 1000000000) 99))
    as (fl & row & Hfl & Hrow & _ & ->).
  - vm_compute. reflexivity.
  - now left.
  - reflexivity.
  - repeat constructor; simpl; intuition discriminate.
  - reflexivity.
  - eexists. exists fl. eexists. split; [vm_compute; reflexivity|].
    split; [exact Hfl|]. split; [exact Hrow|]. repeat split.
Defined.

(** ** orderda *)

Lemma keptda_prots_eq targets da prots : forall keptda,
  (forall prot, In prot prots -> dmem targets prot = true) ->
  keptda_prots targets da prots keptda =
  Ok (keptda ++ map (fun e => (e, da)) (da_evalues targets prots)).
Proof.
  induction prots as [|prot rest IH]; intros keptda Hk; simpl.
  - now rewrite app_nil_r.
  - assert (Hm : dmem targets prot = true) by (apply Hk; now left).
    unfold dmem in Hm. unfold subscript.
    destruct (dget targets prot) as [hs|]; [|discriminate]. simpl.
    rewrite IH by (intros p Hp; apply Hk; now right).
    rewrite map_app, app_assoc. unfold evalues_of. now rewrite map_map.
Qed.

Lemma keptda_loop_eq targets arrangements : forall keptda,
  members_in_targets arrangements targets ->
  keptda_loop targets arrangements keptda =
  Ok (keptda ++ keptda_of targets arrangements).
Proof.
  induction arrangements as [|[da prots] rest IH]; intros keptda Hk; simpl.
  - now rewrite app_nil_r.
  - rewrite keptda_prots_eq by (intros p Hp; apply (Hk da prots); now try left).
    simpl. rewrite IH.
    + now rewrite app_assoc.
    + intros d ps p Hd Hp. apply (Hk d ps); now try right.
Qed.

Lemma keptda_of_In targets arrangements e da :
  In (e, da) (keptda_of targets arrangements) <->
  exists prots, In (da, prots) arrangements /\ In e (da_evalues targets prots).
Proof.
  unfold keptda_of. rewrite in_flat_map. split.
  - intros ([d prots] & Hi & Hm). simpl in Hm.
    apply in_map_iff in Hm. destruct Hm as (e' & E & He).
    inversion E; subst. eauto.
  - intros (prots & Hi & He). exists (da, prots). split; [assumption|].
    simpl. apply in_map_iff. eauto.
Qed.

Lemma visit_loop_acc keptda : forall orderedda visited,
  visit_loop keptda orderedda visited = orderedda ++ visit_loop keptda [] visited.
Proof.
  induction keptda as [|[e d] rest IH]; intros orderedda visited; simpl.
  - now rewrite app_nil_r.
  - destruct (dmem visited d); simpl.
    + apply IH.
    + rewrite IH. rewrite (IH [d]). now rewrite <- app_assoc.
Qed.

Lemma dmem_dset {V : Type} (d : dict string V) k v k' :
  dmem (dset d k v) k' = true <-> k' = k \/ dmem d k' = true.
Proof. rewrite !dmem_true_iff. apply In_keys_dset. Qed.

Lemma pair_cmp_le_fst e d e' d' :
  cmp_le pair_cmp (e, d) (e', d') -> (e <= e')%Q.
Proof.
  unfold cmp_le, pair_cmp, lex. simpl. intros H. apply Qle_alt.
  destruct (Qcompare e e'); congruence.
Qed.

Lemma pair_cmp_le_lt e d e' d' :
  cmp_le pair_cmp (e, d) (e', d') -> d <> d' -> pair_cmp (e, d) (e', d') = Lt.
Proof.
  unfold cmp_le, pair_cmp, lex. simpl. intros H Hne.
  destruct (Qcompare e e'); try congruence.
  destruct (String.compare d d') eqn:C; try congruence.
  apply String.compare_eq_iff in C. contradiction.
Qed.

Lemma visit_loop_sorted G : forall L L0 visited,
  G = L0 ++ L ->
  (forall e d, In (e, d) L0 -> dmem visited d = true) ->
  StronglySorted (cmp_le pair_cmp) L ->
  NoDup (visit_loop L [] visited) /\
  (forall d, In d (visit_loop L [] visited) <->
             In d (map snd L) /\ dmem visited d = false) /\
  (forall d, In d (visit_loop L [] visited) ->
             exists e, In (e, d) L /\ least_for G d e) /\
  StronglySorted (least_lt G) (visit_loop L [] visited).
Proof.
  induction L as [|[e d] L IH]; intros L0 visited HG Hseen Hs.
  - simpl. split; [constructor|]. split; [intros d; tauto|].
    split; [intros d []|constructor].
  - inversion Hs as [|? ? Hs' Hall]; subst.
    rewrite Forall_forall in Hall.
    assert (HG' : L0 ++ (e, d) :: L = (L0 ++ [(e, d)]) ++ L)
      by (now rewrite <- app_assoc).
    simpl. destruct (dmem visited d) eqn:Ev; simpl.
    + destruct (IH (L0 ++ [(e, d)]) visited HG') as (H1 & H2 & H3 & H4);
        [|assumption|].
      { intros e0 d0 Hi. apply in_app_or in Hi. destruct Hi as [Hi|[E|[]]].
        - eapply Hseen; eassumption.
        - now inversion E; subst. }
      split; [assumption|]. split; [|split; [|assumption]].
      * intros d'. rewrite H2. split; [tauto|].
        intros [[<-|Hi] Hv]; [congruence | tauto].
      * intros d' Hi. destruct (H3 d' Hi) as (e' & He' & Hl).
        exists e'. split; [now right | assumption].
    + rewrite visit_loop_acc.
      destruct (IH (L0 ++ [(e, d)]) (dset visited d 1) HG')
        as (H1 & H2 & H3 & H4); [|assumption|].
      { intros e0 d0 Hi. apply dmem_dset.
        apply in_app_or in Hi. destruct Hi as [Hi|[E|[]]].
        - right. eapply Hseen; eassumption.
        - left. now inversion E. }
      assert (Hnew : forall d', In d' (visit_loop L [] (dset visited d 1)) ->
                                d' <> d /\ dmem visited d' = false).
      { intros d' Hi. apply H2 in Hi. destruct Hi as [_ Hv].
        split.
        - intros ->. rewrite (proj2 (dmem_dset visited d 1 d)) in Hv;
            [discriminate | now left].
        - destruct (dmem visited d') eqn:Ev'; [|reflexivity].
          rewrite (proj2 (dmem_dset visited d 1 d')) in Hv;
            [discriminate | now right]. }
      assert (Hleast : least_for (L0 ++ (e, d) :: L) d e).
      { split; [apply in_or_app; right; now left|].
        intros e' Hi. apply in_app_or in Hi. destruct Hi as [Hi|[E|Hi]].
        - apply Hseen in Hi. congruence.
        - inversion E; subst. apply Qle_refl.
        - apply (pair_cmp_le_fst e d e' d). now apply Hall. }
      simpl. split; [|split; [|split]].
      * constructor; [|assumption]. intros Hi. apply Hnew in Hi. tauto.
      * intros d'. split.
        -- intros [<-|Hi]; [split; [now left | assumption]|].
           destruct (Hnew d' Hi) as [_ Hv]. apply H2 in Hi. tauto.
        -- intros [[<-|Hi] Hv]; [now left|].
           destruct (String.eqb_spec d d') as [->|Hne]; [now left|].
           right. apply H2. split; [assumption|].
           destruct (dmem (dset visited d 1) d') eqn:Ed; [|reflexivity].
           apply dmem_dset in Ed. destruct Ed; congruence.
      * intros d' [<-|Hi].
        -- exists e. split; [now left | assumption].
        -- destruct (H3 d' Hi) as (e' & He' & Hl).
           exists e'. split; [now right | assumption].
      * constructor; [assumption|]. rewrite Forall_forall. intros d' Hi.
        destruct (H3 d' Hi) as (e' & He' & Hl).
        exists e, e'. split; [assumption|]. split; [assumption|].
        apply pair_cmp_le_lt; [now apply Hall|].
        destruct (Hnew d' Hi) as [Hne _]. congruence.
Qed.

Lemma StronglySorted_impl {A : Type} (R S : A -> A -> Prop) (l : list A) :
  StronglySorted R l ->
  (forall a b, In a l -> In b l -> R a b -> S a b) ->
  StronglySorted S l.
Proof.
  induction 1 as [|a l Hs IH Hall]; intros Himp; constructor.
  - apply IH. intros x y Hx Hy. apply Himp; now right.
  - rewrite Forall_forall in *. intros b Hb.
    apply Himp; [now left | now right | now apply Hall].
Qed.

Lemma keptda_of_dget targets arrangements e da :
  NoDup (keys arrangements) ->
  (In (e, da) (keptda_of targets arrangements) <->
   exists prots, dget arrangements da = Some prots /\
                 In e (da_evalues targets prots)).
Proof.
  intros Hnd. rewrite keptda_of_In. split; intros (prots & H1 & H2);
    exists prots; split; try assumption.
  - now apply In_dget.
  - now apply dget_In.
Qed.

Lemma least_for_best arrangements targets d e :
  NoDup (keys arrangements) ->
  least_for (sort pair_ltb (keptda_of targets arrangements)) d e ->
  exists m, da_best arrangements targets d = Some m /\ (m == e)%Q.
Proof.
  intros Hnd [Hin Hleast].
  rewrite (sort_In pair_ltb) in Hin.
  rewrite (keptda_of_dget _ _ _ _ Hnd) in Hin. destruct Hin as (prots & Hg & He).
  unfold da_best. rewrite Hg.
  destruct (Qmin_list (da_evalues targets prots)) as [m|] eqn:Em.
  - exists m. split; [reflexivity|].
    apply Qmin_list_spec in Em. destruct Em as [Hm Hlow].
    apply Qle_antisym; [now apply Hlow|].
    apply Hleast. rewrite (sort_In pair_ltb).
    rewrite (keptda_of_dget _ _ _ _ Hnd). eauto.
  - destruct (da_evalues targets prots); [contradiction | discriminate].
Qed.

Lemma da_has_hit_iff arrangements targets d :
  NoDup (keys arrangements) ->
  (da_has_hit arrangements targets d = true <->
   exists e, In (e, d) (keptda_of targets arrangements)).
Proof.
  intros Hnd. unfold da_has_hit, da_best. split.
  - destruct (dget arrangements d) as [prots|] eqn:Eg; [|discriminate].
    destruct (Qmin_list (da_evalues targets prots)) as [m|] eqn:Em;
      [|discriminate].
    intros _. exists m. rewrite (keptda_of_dget _ _ _ _ Hnd).
    exists prots. split; [assumption|]. now apply Qmin_list_spec in Em.
  - intros (e & Hi). rewrite (keptda_of_dget _ _ _ _ Hnd) in Hi.
    destruct Hi as (prots & -> & He).
    destruct (da_evalues targets prots); [contradiction | reflexivity].
Qed.

(** C3, as the code has it: when every member protein is a key of the hit
    mapping, [orderda] returns each arrangement label that has at least one
    hit exactly once (a permutation of those labels, arrangements without
    hits are left out), strictly ascending in the pairs
    (minimum e-value over the hits of the members, label). *)
Theorem orderda_ranked arrangements targets :
  NoDup (keys arrangements) ->
  members_in_targets arrangements targets ->
  exists orderedda,
    orderda arrangements targets = Ok orderedda /\
    NoDup orderedda /\
    Permutation orderedda
      (filter (da_has_hit arrangements targets) (keys arrangements)) /\
    StronglySorted (best_then_label arrangements targets) orderedda.
Proof.
  intros Hnd Hk. unfold orderda.
  rewrite (keptda_loop_eq targets arrangements [] Hk). simpl.
  set (G := sort pair_ltb (keptda_of targets arrangements)).
  destruct (visit_loop_sorted G G [] [] eq_refl) as (H1 & H2 & H3 & H4).
  { intros e d []. }
  { apply (sort_sorted pair_cmp pair_ltb total_cmp_pair pair_ltb_lt). }
  exists (visit_loop G [] []). split; [reflexivity|]. split; [assumption|].
  split.
  - apply NoDup_Permutation; [assumption | now apply NoDup_filter |].
    intros d. rewrite H2, filter_In, (da_has_hit_iff _ _ _ Hnd). split.
    + intros [Hi _]. apply in_map_iff in Hi. destruct Hi as ([e d'] & E & Hi).
      simpl in E. subst d'. unfold G in Hi. rewrite (sort_In pair_ltb) in Hi.
      split; [|eauto].
      rewrite (keptda_of_dget _ _ _ _ Hnd) in Hi. destruct Hi as (prots & Hg & _).
      now apply dget_Some_keys in Hg.
    + intros [_ (e & Hi)]. split; [|reflexivity].
      apply in_map_iff. exists (e, d). split; [reflexivity|].
      unfold G. now rewrite (sort_In pair_ltb).
  - apply (StronglySorted_impl (least_lt G)); [assumption|].
    intros d1 d2 _ _ (e1 & e2 & L1 & L2 & Hlt).
    apply (least_for_best _ _ _ _ Hnd) in L1. destruct L1 as (m1 & B1 & E1).
    apply (least_for_best _ _ _ _ Hnd) in L2. destruct L2 as (m2 & B2 & E2).
    exists m1, m2. split; [assumption|]. split; [assumption|].
    unfold pair_cmp, lex in Hlt. simpl in Hlt.
    rewrite E1, E2.
    destruct (Qcompare e1 e2) eqn:C; try discriminate.
    + right. split; [now apply Qeq_alt | now apply string_ltb_lt].
    + left. now apply Qlt_alt.
Qed.

Lemma orderda_ranked_witness :
  orderda sample_groups sample_targets = Ok ["A"; "B"] /\
  StronglySorted (best_then_label sample_groups sample_targets) ["A"; "B"].
Proof.
  destruct (orderda_ranked sample_groups sample_targets)
    as (orderedda & Hrun & _ & _ & Hsorted).
  - repeat constructor; simpl; intuition discriminate.
  - intros da prots prot [E|[E|[]]] Hp; inversion E; subst;
      simpl in Hp; intuition (subst; reflexivity).
  - assert (E : Ok orderedda = Ok ["A"; "B"])
      by (rewrite <- Hrun; vm_compute; reflexivity).
    inversion E; subst. split; [vm_compute; reflexivity | assumption].
Defined.

(** C3, as the specification words it: the arrangement [C] of the grouping
    has no hit and is missing from the result, which therefore is not a
    permutation of the labels of the grouping. *)
Lemma orderda_omits_arrangement_without_hit :
  orderda nohit_da_groups nohit_da_targets = Ok ["A"] /\
  In "C" (keys nohit_da_groups) /\
  ~ Permutation ["A"] (keys nohit_da_groups).
Proof.
  split; [vm_compute; reflexivity|]. split; [simpl; tauto|].
  intros Hp. apply Permutation_length in Hp. discriminate.
Qed.

(** ** summary_tremolo: the reverse index *)

Lemma prot2grp_inner da prots : forall (p2g : dict string string) prot,
  (In prot prots ->
   dget (fold_left (fun m p => dset m p da) prots p2g) prot = Some da) /\
  (~ In prot prots ->
   dget (fold_left (fun m p => dset m p da) prots p2g) prot = dget p2g prot).
Proof.
  induction prots as [|p0 rest IH]; intros p2g prot; simpl; [tauto|].
  destruct (IH (dset p2g p0 da) prot) as [Hin Hout]. split.
  - intros Hi. destruct (in_dec string_dec prot rest) as [Hr|Hr]; [now apply Hin|].
    destruct Hi as [->|Hi]; [|contradiction].
    rewrite (Hout Hr). apply dget_dset_same.
  - intros Hni. rewrite Hout by tauto. apply dget_dset_other. tauto.
Qed.

Lemma prot2grp_fold gq : forall (p2g : dict string string) prot,
  (forall da,
     dget (fold_left
             (fun m (kv : string * list string) =>
                fold_left (fun m' p => dset m' p (fst kv)) (snd kv) m)
             gq p2g) prot = Some da ->
     dget p2g prot = Some da \/ in_group gq prot da) /\
  ((dget p2g prot <> None \/ exists da, in_group gq prot da) ->
   dget (fold_left
           (fun m (kv : string * list string) =>
              fold_left (fun m' p => dset m' p (fst kv)) (snd kv) m)
           gq p2g) prot <> None).
Proof.
  induction gq as [|[da0 prots] rest IH]; intros p2g prot; simpl.
  - split; [tauto|]. intros [H|[da [ps [[] _]]]]. assumption.
  - destruct (IH (fold_left (fun m' p => dset m' p da0) prots p2g) prot)
      as [H1 H2].
    destruct (prot2grp_inner da0 prots p2g prot) as [Hin Hout].
    split.
    + intros da Hg. destruct (H1 da Hg) as [Hd|(ps & Hi & Hp)].
      * destruct (in_dec string_dec prot prots) as [Hr|Hr].
        -- rewrite (Hin Hr) in Hd. inversion Hd; subst.
           right. exists prots. split; [now left | assumption].
        -- rewrite (Hout Hr) in Hd. now left.
      * right. exists ps. split; [now right | assumption].
    + intros Hsome. apply H2.
      destruct (in_dec string_dec prot prots) as [Hr|Hr].
      * left. rewrite (Hin Hr). discriminate.
      * destruct Hsome as [Hs|(da & ps & [E|Hi] & Hp)].
        -- left. now rewrite (Hout Hr).
        -- inversion E; subst. contradiction.
        -- right. exists da, ps. tauto.
Qed.

Lemma prot2grp_of_unique gq prot da :
  in_group gq prot da ->
  (forall da', in_group gq prot da' -> da' = da) ->
  dget (prot2grp_of gq) prot = Some da.
Proof.
  intros Hin Huniq.
  destruct (prot2grp_fold gq [] prot) as [H1 H2].
  fold (prot2grp_of gq) in H1, H2.
  destruct (dget (prot2grp_of gq) prot) as [da'|] eqn:E.
  - destruct (H1 da' eq_refl) as [Hd|Hg]; [discriminate|].
    now rewrite (Huniq da' Hg).
  - exfalso. apply H2; [|reflexivity]. right. eauto.
Qed.

Lemma data_hits_eq prot2grp prot da hs : forall data,
  dget prot2grp prot = Some da ->
  data_hits prot2grp prot hs data =
  Ok (data ++ map (fun kv : Z * hit =>
                     {| d_evalue := E_value (snd kv);
                        d_probab := Probab (snd kv);
                        d_prot := prot; d_hitnum := fst kv; d_da := da |}) hs).
Proof.
  induction hs as [|[hitnum res] rest IH]; intros data Hg; simpl.
  - now rewrite app_nil_r.
  - unfold subscript. rewrite Hg. simpl. rewrite IH by assumption.
    now rewrite <- app_assoc.
Qed.

Lemma data_loop_eq prot2grp tq : forall data,
  (forall prot hs, In (prot, hs) tq -> hs <> [] ->
                   exists da, dget prot2grp prot = Some da) ->
  data_loop prot2grp tq data = Ok (data ++ all_data prot2grp tq).
Proof.
  induction tq as [|[prot hs] rest IH]; intros data Hk; simpl.
  - now rewrite app_nil_r.
  - assert (Hrest : forall p h, In (p, h) rest -> h <> [] ->
                                exists da, dget prot2grp p = Some da)
      by (intros p h Hp; apply Hk; now right).
    destruct hs as [|kv hs'].
    + simpl. rewrite IH by assumption.
      now destruct (dget prot2grp prot).
    + destruct (Hk prot (kv :: hs') (or_introl eq_refl)) as (da & Hg);
        [discriminate|].
      rewrite (data_hits_eq _ _ _ _ _ Hg). cbn [rbind]. rewrite Hg.
      rewrite IH by assumption. now rewrite <- app_assoc.
Qed.

Lemma all_data_hits prot2grp tq :
  (forall prot hs, In (prot, hs) tq -> hs <> [] ->
                   exists da, dget prot2grp prot = Some da) ->
  map datum_hit (all_data prot2grp tq) = hit_list tq.
Proof.
  unfold all_data, hit_list.
  induction tq as [|[prot hs] rest IH]; intros Hk; simpl; [reflexivity|].
  rewrite map_app, IH by (intros p h Hp; apply Hk; now right).
  f_equal. destruct hs as [|kv hs'].
  - now destruct (dget prot2grp prot).
  - destruct (Hk prot (kv :: hs') (or_introl eq_refl)) as (da & ->);
      [discriminate|].
    rewrite map_map. reflexivity.
Qed.

Lemma prot2grp_of_some gq prot da :
  in_group gq prot da -> exists da', dget (prot2grp_of gq) prot = Some da'.
Proof.
  intros Hin. destruct (prot2grp_fold gq [] prot) as [_ H2].
  fold (prot2grp_of gq) in H2.
  destruct (dget (prot2grp_of gq) prot) as [da'|] eqn:E; [eauto|].
  exfalso. apply H2; [|reflexivity]. right. eauto.
Qed.

Lemma groups_cover_reach targets groups :
  groups_cover targets groups -> groups_reach targets groups.
Proof.
  intros Hc querydom tq Hi. destruct (Hc querydom tq Hi) as (gq & Hg & H4).
  exists gq. split; [assumption|]. intros prot hs Hp _.
  destruct (H4 prot) as (da & Hin & _); [|eauto].
  now apply (in_map fst) in Hp.
Qed.

Lemma one_group_each_lookup gq tq prot :
  one_group_each gq tq -> In prot (keys tq) ->
  exists da, dget (prot2grp_of gq) prot = Some da /\ in_group gq prot da /\
             forall da', in_group gq prot da' -> da' = da.
Proof.
  intros H4 Hp. destruct (H4 prot Hp) as (da & Hin & Huniq).
  exists da. split; [now apply prot2grp_of_unique | tauto].
Qed.

Lemma summary_data_eq gq tq xbest :
  (forall prot hs, In (prot, hs) tq -> hs <> [] ->
                   exists da, in_group gq prot da) ->
  summary_data gq tq xbest =
  Ok (slice_to (sort datum_ltb (all_data (prot2grp_of gq) tq)) xbest).
Proof.
  intros Hr. unfold summary_data. rewrite data_loop_eq; [reflexivity|].
  intros prot hs Hp Hne. destruct (Hr prot hs Hp Hne) as (da & Hin).
  eapply prot2grp_of_some; eassumption.
Qed.

Lemma summary_loop_eq groups xbest targets : forall summary,
  groups_reach targets groups ->
  summary_loop targets groups xbest summary =
  Ok (summary ++
      List.concat (map (fun qt => map (summary_line (fst qt)) (kept_rows groups xbest qt))
                  targets)).
Proof.
  induction targets as [|[querydom tq] rest IH]; intros summary Hc; simpl.
  - now rewrite app_nil_r.
  - destruct (Hc querydom tq (or_introl eq_refl)) as (gq & Hg & H4).
    unfold subscript. rewrite Hg. cbn [rbind].
    rewrite (summary_data_eq gq tq xbest H4). cbn [rbind].
    rewrite IH by (intros q t Hi; apply Hc; now right).
    unfold kept_rows at 2. simpl. rewrite Hg. now rewrite <- app_assoc.
Qed.

(** C6: under I4 the reverse index gives every protein of the hit mapping
    the one arrangement it is a member of, so the subscript
    [prot2grp[prot]] never raises and [summary_tremolo] returns. *)
Theorem summary_lookup_never_fails targets groups xbest :
  groups_cover targets groups ->
  (forall querydom tq gq prot,
     In (querydom, tq) targets -> dget groups querydom = Some gq ->
     In prot (keys tq) ->
     exists da, subscript (prot2grp_of gq) prot = Ok da /\
                in_group gq prot da /\
                forall da', in_group gq prot da' -> da' = da) /\
  (forall querydom tq,
     In (querydom, tq) targets ->
     exists gq data, dget groups querydom = Some gq /\
                     data_loop (prot2grp_of gq) tq [] = Ok data) /\
  exists summary, summary_tremolo targets groups xbest = Ok summary.
Proof.
  intros Hc. split; [|split].
  - intros querydom tq gq prot Hi Hg Hp.
    destruct (Hc querydom tq Hi) as (gq' & Hg' & H4).
    rewrite Hg in Hg'. inversion Hg'; subst gq'.
    destruct (one_group_each_lookup gq tq prot H4 Hp) as (da & Hd & Hin & Hu).
    exists da. unfold subscript. rewrite Hd. tauto.
  - intros querydom tq Hi. destruct (Hc querydom tq Hi) as (gq & Hg & H4).
    exists gq. eexists. split; [assumption|].
    apply data_loop_eq. intros prot hs Hp _.
    apply (in_map fst) in Hp.
    destruct (one_group_each_lookup gq tq prot H4 Hp) as (da & Hd & _). eauto.
  - unfold summary_tremolo.
    rewrite summary_loop_eq by (now apply groups_cover_reach). eauto.
Qed.

Lemma sample_groups_cover : groups_cover sample_all_targets sample_all_groups.
Proof.
  intros querydom tq [E|[]]. inversion E; subst.
  exists sample_groups. split; [reflexivity|].
  intros prot Hp. simpl in Hp.
  assert (Hcases : (prot = "P1" \/ prot = "P2") \/ prot = "P3") by intuition.
  destruct Hcases as [Hc|Hc]; [exists "A" | exists "B"]; (split;
    [ eexists; split; [simpl; eauto | simpl; intuition]
    | intros da' (prots & [E'|[E'|[]]] & Hi); inversion E'; subst;
      [simpl in Hi; intuition (try reflexivity; subst; discriminate) ..] ]).
Qed.

Lemma summary_lookup_never_fails_witness :
  subscript (prot2grp_of sample_groups) "P2" = Ok "A" /\
  exists summary,
    summary_tremolo sample_all_targets sample_all_groups 2 = Ok summary.
Proof.
  destruct (summary_lookup_never_fails sample_all_targets sample_all_groups 2
              sample_groups_cover) as (Hlookup & _ & Hsum).
  split; [|exact Hsum].
  destruct (Hlookup 0 sample_targets sample_groups "P2") as (da & Hd & _).
  - now left.
  - reflexivity.
  - simpl. tauto.
  - rewrite Hd. revert Hd. vm_compute. intros E. exact (eq_sym E).
Defined.

(** ** summary_tremolo: the kept rows *)

Lemma StronglySorted_app_inv {A : Type} (R : A -> A -> Prop) (l1 l2 : list A) :
  StronglySorted R (l1 ++ l2) ->
  StronglySorted R l1 /\ StronglySorted R l2 /\
  forall a b, In a l1 -> In b l2 -> R a b.
Proof.
  induction l1 as [|x l1 IH]; simpl; intros Hs.
  - split; [constructor|]. split; [assumption|]. intros a b [].
  - inversion Hs as [|? ? Hs' Hall]; subst.
    destruct (IH Hs') as (H1 & H2 & H3).
    rewrite Forall_forall in Hall.
    split; [|split; [assumption|]].
    + constructor; [assumption|]. rewrite Forall_forall. intros y Hy.
      apply Hall. apply in_or_app. now left.
    + intros a b [<-|Ha] Hb; [|now apply H3].
      apply Hall. apply in_or_app. now right.
Qed.

Lemma datum_cmp_key_le a b : cmp_le datum_cmp a b -> key_le a b.
Proof.
  unfold key_le, cmp_le, datum_cmp, datum_key, lex. simpl.
  destruct (Qcompare (d_evalue a) (d_evalue b)); try congruence.
  destruct (Qcompare (d_probab a) (d_probab b)); congruence.
Qed.

Lemma slice_to_nonneg {A : Type} (l : list A) (n : Z) :
  0 <= n -> slice_to l n = firstn (Z.to_nat n) l.
Proof.
  intros Hn. unfold slice_to.
  destruct (Z.ltb_spec n 0); [lia | reflexivity].
Qed.

Lemma sorted_prefix_ok data xbest :
  0 <= xbest ->
  summary_rows_ok data xbest (slice_to (sort datum_ltb data) xbest).
Proof.
  intros Hn. rewrite (slice_to_nonneg _ _ Hn).
  set (n := Z.to_nat xbest). set (sorted := sort datum_ltb data).
  assert (Hsorted : StronglySorted (cmp_le datum_cmp) sorted)
    by apply (sort_sorted datum_cmp datum_ltb total_cmp_datum datum_ltb_lt).
  assert (Hperm : Permutation sorted data) by apply sort_perm.
  rewrite <- (firstn_skipn n sorted) in Hsorted.
  apply StronglySorted_app_inv in Hsorted. destruct Hsorted as (H1 & _ & H3).
  split; [|split; [|split]].
  - rewrite length_firstn. unfold n. lia.
  - apply (StronglySorted_impl (cmp_le datum_cmp)); [assumption|].
    intros a b _ _. apply datum_cmp_key_le.
  - exists (skipn n sorted). split.
    + now rewrite firstn_skipn.
    + intros k d Hk Hd. apply datum_cmp_key_le. now apply H3.
  - intros Hlen. rewrite firstn_all2; [assumption|].
    unfold sorted. rewrite (sort_length datum_ltb). unfold n. lia.
Qed.

(** C4: when every protein with a hit is a member of some arrangement group
    (no subscript raises), for every cap [xbest] (a number of rows) the
    summary is, for the query sub-domains in turn, one line per kept row; for
    each sub-domain the kept rows are at most [xbest], they are in ascending
    order of the key (e-value, probability), every hit of the sub-domain that
    was not kept has a key that is not smaller than the key of any kept row
    (the rows are chosen among all proteins of the sub-domain, whatever
    their arrangement), and when the sub-domain has at most [xbest] hits the
    kept rows are all its hits, each once ([data] has one tuple per hit of
    the sub-domain). *)
Theorem summary_tremolo_bounded targets groups (xbest : nat) :
  groups_reach targets groups ->
  summary_tremolo targets groups (Z.of_nat xbest) =
    Ok (List.concat
          (map (fun qt => map (summary_line (fst qt))
                              (kept_rows groups (Z.of_nat xbest) qt))
               targets)) /\
  forall querydom tq, In (querydom, tq) targets ->
    exists gq,
      dget groups querydom = Some gq /\
      summary_data gq tq (Z.of_nat xbest) =
        Ok (kept_rows groups (Z.of_nat xbest) (querydom, tq)) /\
      map datum_hit (all_data (prot2grp_of gq) tq) = hit_list tq /\
      (List.length (kept_rows groups (Z.of_nat xbest) (querydom, tq)) <= xbest)%nat /\
      summary_rows_ok (all_data (prot2grp_of gq) tq) (Z.of_nat xbest)
                      (kept_rows groups (Z.of_nat xbest) (querydom, tq)).
Proof.
  intros Hc. split.
  - unfold summary_tremolo. now rewrite summary_loop_eq.
  - intros querydom tq Hi. destruct (Hc querydom tq Hi) as (gq & Hg & Hr).
    exists gq. split; [assumption|].
    unfold kept_rows. cbn [fst snd]. rewrite Hg.
    assert (Hok : summary_rows_ok (all_data (prot2grp_of gq) tq) (Z.of_nat xbest)
                    (slice_to (sort datum_ltb (all_data (prot2grp_of gq) tq))
                              (Z.of_nat xbest)))
      by (apply sorted_prefix_ok; lia).
    split; [now apply summary_data_eq|]. split; [|split; [|assumption]].
    + apply all_data_hits. intros prot hs Hp Hne.
      destruct (Hr prot hs Hp Hne) as (da & Hin).
      eapply prot2grp_of_some; eassumption.
    + destruct Hok as (Hlen & _). lia.
Qed.

Lemma summary_tremolo_bounded_witness :
  summary_tremolo sample_all_targets sample_all_groups 2 =
    Ok [summary_line 0 {| d_evalue := 1 # 1000000000; d_probab := 99;
                          d_prot := "P1"; d_hitnum := 2; d_da := "A" |};
        summary_line 0 {| d_evalue := 1 # 100000; d_probab := 90;
                          d_prot := "P1"; d_hitnum := 1; d_da := "A" |}] /\
  summary_rows_ok (all_data (prot2grp_of sample_groups) sample_targets) 2
                  (kept_rows sample_all_groups 2 (0, sample_targets)).
Proof.
  destruct (summary_tremolo_bounded sample_all_targets sample_all_groups 2
              (groups_cover_reach _ _ sample_groups_cover))
    as (Hrun & Hrows).
  split; [vm_compute; reflexivity|].
  destruct (Hrows 0 sample_targets (or_introl eq_refl))
    as (gq & Hg & _ & _ & _ & Hok).
  vm_compute in Hg. inversion Hg; subst gq. exact Hok.
Defined.

(** A negative cap counts from the end of the sorted list: with four hits
    and [xbest = -1] three rows are kept. *)
Lemma summary_data_negative_cap :
  exists kept, summary_data sample_groups sample_targets (-1) = Ok kept /\
               List.length kept = 3%nat.
Proof. eexists. split; vm_compute; reflexivity. Qed.

(** ** read_annotation *)









(** ** The arity of annotation tuples *)

Lemma five_fields_dset annotation p l :
  five_fields annotation ->
  (forall t, In t l -> List.length t = 5%nat) ->
  five_fields (dset annotation p l).
Proof.
  intros H5 Hl prot l' t Hg Hi.
  destruct (String.eqb_spec p prot) as [->|Hn].
  - rewrite dget_dset_same in Hg. inversion Hg; subst. now apply Hl.
  - rewrite dget_dset_other in Hg by assumption. eapply H5; eassumption.
Qed.

Lemma hcadomain_line_five annotation prot line annotation' prot' :
  five_fields annotation ->
  hcadomain_line (annotation, prot) line = Ok (annotation', prot') ->
  five_fields annotation'.
Proof.
  intros H5. unfold hcadomain_line, rbind.
  destruct (first_char line) as [c|]; [|discriminate].
  destruct (Ascii.eqb c ">").
  - destruct (split (slice_1_m1 line)) as [|p [|size [|x l]]]; try discriminate.
    intros E. inversion E; subst. apply five_fields_dset; [assumption|].
    intros t [].
  - destruct (index (split line) 0) as [t0|]; [|discriminate].
    destruct (String.eqb t0 "domain").
    + destruct (index (split line) 1) as [t1|]; [|discriminate].
      destruct (int t1) as [i1|]; [|discriminate].
      destruct (index (split line) 2) as [t2|]; [|discriminate].
      destruct (int t2) as [i2|]; [|discriminate].
      destruct prot as [p|]; [|discriminate].
      unfold subscript. destruct (dget annotation p) as [l|] eqn:Eg;
        [|discriminate].
      intros E. inversion E; subst. apply five_fields_dset; [assumption|].
      intros t Hi. apply in_app_or in Hi. destruct Hi as [Hi|[<-|[]]].
      * eapply H5; eassumption.
      * reflexivity.
    + intros E. now inversion E; subst.
Qed.

Lemma read_hcadomain_five inputfile annotation :
  read_hcadomain inputfile = Ok annotation -> five_fields annotation.
Proof.
  unfold read_hcadomain.
  assert (Hloop : forall lines st st',
             five_fields (fst st) -> hcadomain_loop lines st = Ok st' ->
             five_fields (fst st')).
  { induction lines as [|line rest IH]; intros [a p] st' H5;
      cbn [hcadomain_loop].
    - intros E. now inversion E; subst.
    - destruct (hcadomain_line (a, p) line) as [[a1 p1]|] eqn:El;
        cbn [rbind]; [|discriminate].
      apply IH. cbn [fst] in *. eapply hcadomain_line_five; eassumption. }
  destruct (hcadomain_loop inputfile ([], None)) as [[a p]|] eqn:E;
    [|simpl; discriminate].
  simpl. intros E'. inversion E'; subst.
  apply (Hloop inputfile ([], None) (annotation, p)); [|exact E].
  intros prot l t Hg. discriminate.
Qed.

Lemma pfamdomain_line_five annotation line annotation' :
  five_fields annotation ->
  pfamdomain_line annotation line = Ok annotation' ->
  five_fields annotation'.
Proof.
  intros H5. unfold pfamdomain_line, rbind.
  destruct (first_char line) as [c|]; [|discriminate].
  destruct (Ascii.eqb c "#" || Ascii.eqb c (ascii_of_nat 10)).
  - intros E. now inversion E; subst.
  - destruct (index (split line) 0) as [prot|]; [|discriminate].
    destruct (index (split line) 1) as [name|]; [|discriminate].
    destruct (index (split line) 2) as [t2|]; [|discriminate].
    destruct (int t2) as [start|]; [|discriminate].
    destruct (index (split line) 3) as [t3|]; [|discriminate].
    destruct (int t3) as [stop|]; [|discriminate].
    intros E. inversion E; subst. unfold setdefault_append.
    destruct (dget annotation prot) as [l|] eqn:Eg;
      (apply five_fields_dset; [assumption|]).
    + intros t Hi. apply in_app_or in Hi. destruct Hi as [Hi|[<-|[]]].
      * eapply H5; eassumption.
      * reflexivity.
    + intros t [<-|[]]. reflexivity.
Qed.

Lemma read_pfamdomain_five inputfile annotation :
  read_pfamdomain inputfile = Ok annotation -> five_fields annotation.
Proof.
  unfold read_pfamdomain.
  assert (Hloop : forall lines a a',
             five_fields a -> pfamdomain_loop lines a = Ok a' -> five_fields a').
  { induction lines as [|line rest IH]; intros a a' H5;
      cbn [pfamdomain_loop].
    - intros E. now inversion E; subst.
    - destruct (pfamdomain_line a line) as [a1|] eqn:El;
        cbn [rbind]; [|discriminate].
      apply IH. eapply pfamdomain_line_five; eassumption. }
  apply Hloop. intros prot l t Hg. discriminate.
Qed.

Lemma write_annotation_arity querydom ann out :
  List.length ann <> 6%nat ->
  write_annotation querydom ann out = (out, Raise ValueError).
Proof.
  intros Hlen.
  destruct ann as [|a1 [|a2 [|a3 [|a4 [|a5 [|a6 [|a7 l]]]]]]];
    try reflexivity.
  simpl in Hlen. contradiction.
Qed.

(** C10: the loop that renders the annotations unpacks each tuple into six
    names, the tuples of both readers have five fields; hence for a protein
    with a non-empty annotation list read by one of the readers the
    rendering raises the [ValueError] of the unpacking and writes no
    annotation line: only the line with the protein id has been written. *)
Theorem reader_annotations_raise inputfile cddres querydom prot ann rest :
  read_hcadomain inputfile = Ok cddres \/ read_pfamdomain inputfile = Ok cddres ->
  dget cddres prot = Some (ann :: rest) ->
  List.length ann = 5%nat /\
  (forall t out, List.length t <> 6%nat ->
     write_annotation querydom t out = (out, Raise ValueError)) /\
  (forall out, write_domains querydom cddres prot out = (out, Raise ValueError)) /\
  (forall flat out,
     write_protein querydom cddres flat prot out =
     (out ++ [Fmt (">{}" ++ nl)%string [VStr prot]], Raise ValueError)).
Proof.
  intros Hread Hg.
  assert (H5 : five_fields cddres).
  { destruct Hread; [eapply read_hcadomain_five | eapply read_pfamdomain_five];
      eassumption. }
  assert (Hlen : List.length ann = 5%nat)
    by (apply (H5 prot (ann :: rest)); [assumption | now left]).
  assert (Hdom : forall out,
             write_domains querydom cddres prot out = (out, Raise ValueError)).
  { intros out. unfold write_domains. rewrite Hg. simpl. unfold wbind.
    rewrite write_annotation_arity; [reflexivity | lia]. }
  split; [assumption|]. split; [|split; [assumption|]].
  - intros t out. apply write_annotation_arity.
  - intros flat out. unfold write_protein, wbind. simpl.
    now rewrite Hdom.
Qed.

Lemma reader_annotations_raise_witness :
  read_hcadomain sample_seghca =
    Ok [("P1", [[VInt 4; VInt 20; VStr "domain"; VStr "!"; VNone]])] /\
  write_domains 0 [("P1", [[VInt 4; VInt 20; VStr "domain"; VStr "!"; VNone]])]
    "P1" [] = ([], Raise ValueError).
Proof.
  assert (E : read_hcadomain sample_seghca =
              Ok [("P1", [[VInt 4; VInt 20; VStr "domain"; VStr "!"; VNone]])])
    by (vm_compute; reflexivity).
  split; [exact E|].
  apply (reader_annotations_raise sample_seghca _ 0 "P1"
           [VInt 4; VInt 20; VStr "domain"; VStr "!"; VNone] [] (or_introl E)).
  reflexivity.
Defined.

(** The report stops at the first annotation of [P1]: the last chunk written
    is the line of the protein. *)
Lemma seghca_report_raises :
  snd seghca_report = Raise ValueError /\
  last (fst seghca_report) (text "") = Fmt (">{}" ++ nl)%string [VStr "P1"].
Proof. split; vm_compute; reflexivity. Qed.

(** ** Coordinates *)

Lemma append_nil_r (s : string) : (s ++ "")%string = s.
Proof. induction s as [|c s IH]; simpl; [reflexivity | now rewrite IH]. Qed.

Lemma append_assoc (a b c : string) :
  ((a ++ b) ++ c)%string = (a ++ (b ++ c))%string.
Proof. induction a as [|x a IH]; simpl; [reflexivity | now rewrite IH]. Qed.

Lemma split_go_some s : forall w,
  exists t rest, split_go s (Some w) = (w ++ t)%string :: rest.
Proof.
  induction s as [|c s IH]; intros w; simpl.
  - exists "", []. now rewrite append_nil_r.
  - destruct (is_space c).
    + exists "", (split_go s None). now rewrite append_nil_r.
    + destruct (IH (w ++ String c "")%string) as (t & rest & E).
      exists (String c t), rest. rewrite E. now rewrite append_assoc.
Qed.

(** The first token of a line that starts with [>] starts with [>]. *)
Lemma split_first_char line t rest :
  split line = t :: rest ->
  exists c, first_char line = Ok c /\
            (Ascii.eqb c ">" = true -> exists t', t = String ">" t').
Proof.
  unfold split. destruct line as [|c s]; simpl; [discriminate|].
  intros E. exists c. split; [reflexivity|].
  intros Hc. apply Ascii.eqb_eq in Hc. subst c. simpl in E.
  destruct (split_go_some s (String ">" "")) as (t' & rest' & E').
  rewrite E' in E. inversion E; subst. now exists t'.
Qed.

(** The renderer undoes the shift of the reader: a tuple of six fields that
    starts with [start] and [stop] prints [start + 1] and [stop]. *)
Lemma write_annotation_six querydom start stop dom d_e_val bitscore types out :
  write_annotation querydom
    [VInt start; VInt stop; dom; d_e_val; bitscore; types] out =
  (out ++ [Fmt annotation_template
               [VInt (querydom + 1); dom; VInt (start + 1); VInt stop;
                d_e_val; bitscore]],
   Ok tt).
Proof. reflexivity. Qed.

(** The first annotation of a list of five-field tuples stops the loop of
    line 287. *)
Lemma write_domains_five querydom cddres prot t rest out :
  dget cddres prot = Some (t :: rest) ->
  List.length t = 5%nat ->
  write_domains querydom cddres prot out = (out, Raise ValueError).
Proof.
  intros Hg Hlen. unfold write_domains. rewrite Hg. simpl. unfold wbind.
  rewrite write_annotation_arity; [reflexivity | lia].
Qed.

(** C7: a [domain] line whose bounds read as the integers [s] and [e],
    under the header of the protein [p], stores the five-field tuple
    [(s - 1, e, "domain", "!", None)] at the end of the list of [p]; the
    loop that renders the annotations unpacks six names, so the rendering
    of the stored tuple, and of the list of [p] in the mapping that the
    reader holds, raises [ValueError] and writes nothing: after the line of
    the protein no line with [s] and [e] is printed, and parsing then
    rendering does not give the bounds back. *)
Theorem seghca_round_trip_raises annotation p l line ts te more s e :
  split line = "domain" :: ts :: te :: more ->
  int ts = Ok s ->
  int te = Ok e ->
  dget annotation p = Some l ->
  five_fields annotation ->
  let stored := [VInt (s - 1); VInt e; VStr "domain"; VStr "!"; VNone] in
  let cddres := dset annotation p (l ++ [stored]) in
  hcadomain_line (annotation, Some p) line = Ok (cddres, Some p) /\
  dget cddres p = Some (l ++ [stored]) /\
  (forall querydom out,
     write_annotation querydom stored out = (out, Raise ValueError)) /\
  (forall querydom out,
     write_domains querydom cddres p out = (out, Raise ValueError)) /\
  (forall querydom flat out,
     write_protein querydom cddres flat p out =
     (out ++ [Fmt (">{}" ++ nl)%string [VStr p]], Raise ValueError)).
Proof.
  intros Hsplit Hs He Hg H5 stored cddres.
  assert (Hget : dget cddres p = Some (l ++ [stored]))
    by (unfold cddres; apply dget_dset_same).
  assert (Hfirst : exists t rest,
             l ++ [stored] = t :: rest /\ List.length t = 5%nat).
  { destruct l as [|t l'].
    - exists stored, []. split; reflexivity.
    - exists t, (l' ++ [stored]). split; [reflexivity|].
      apply (H5 p (t :: l')); [assumption | now left]. }
  destruct Hfirst as (t & rest & Happ & Hlen).
  assert (Hdom : forall querydom out,
             write_domains querydom cddres p out = (out, Raise ValueError)).
  { intros querydom out. apply (write_domains_five _ _ _ t rest);
      [now rewrite Hget, Happ | assumption]. }
  split; [|split; [assumption|split; [|split; [assumption|]]]].
  - destruct (split_first_char _ _ _ Hsplit) as (c & Hc & Hgt).
    unfold hcadomain_line. rewrite Hc. cbn [rbind].
    destruct (Ascii.eqb c ">") eqn:Ec.
    + destruct (Hgt eq_refl) as (t' & Ht'). discriminate.
    + rewrite Hsplit. cbn [index nth_error rbind]. simpl String.eqb. cbn iota.
      rewrite Hs. cbn [rbind]. rewrite He. cbn [rbind].
      unfold subscript. rewrite Hg. reflexivity.
  - intros querydom out. reflexivity.
  - intros querydom flat out. unfold write_protein, wbind. simpl.
    now rewrite Hdom.
Qed.

Lemma seghca_round_trip_raises_witness :
  hcadomain_line ([("P1", [])], Some "P1") ("domain 5 20" ++ nl)%string =
    Ok ([("P1", [[VInt 4; VInt 20; VStr "domain"; VStr "!"; VNone]])], Some "P1") /\
  write_domains 0 [("P1", [[VInt 4; VInt 20; VStr "domain"; VStr "!"; VNone]])]
    "P1" [] = ([], Raise ValueError).
Proof.
  assert (H5 : five_fields [("P1", [])]).
  { intros prot l t Hg Hin. apply dget_In in Hg.
    destruct Hg as [Hg|[]]. inversion Hg; subst. destruct Hin. }
  destruct (seghca_round_trip_raises [("P1", [])] "P1" []
              ("domain 5 20" ++ nl)%string "5" "20" [] 5 20
              eq_refl eq_refl eq_refl eq_refl H5)
    as (Hparse & _ & _ & Hdom & _).
  split; [exact Hparse | exact (Hdom 0 [])].
Defined.

(** ** The placeholder of unannotated proteins *)

Lemma write_annotation_out querydom ann out out' r :
  write_annotation querydom ann out = (out', r) ->
  out' = out \/ exists c, out' = out ++ [c] /\ is_annotation_line c.
Proof.
  unfold write_annotation.
  destruct ann as [|a1 [|a2 [|a3 [|a4 [|a5 [|a6 [|a7 l]]]]]]];
    try (intros E; inversion E; now left).
  unfold wbind, lift, write.
  destruct (add1 a1) as [v|e]; intros E; inversion E; subst.
  - right. eexists. split; [reflexivity|]. eexists. reflexivity.
  - now left.
Qed.

Lemma wfor_write_annotation_out querydom anns : forall out out' r,
  wfor anns (write_annotation querydom) out = (out', r) ->
  exists new, out' = out ++ new /\ Forall is_annotation_line new /\
              (new <> [] -> anns <> []).
Proof.
  induction anns as [|ann rest IH]; intros out out' r; simpl.
  - intros E. inversion E; subst. exists []. rewrite app_nil_r.
    repeat split; [constructor | tauto].
  - unfold wbind at 1.
    destruct (write_annotation querydom ann out) as [out1 [[]|e]] eqn:Ea.
    + intros Hrest. apply IH in Hrest. destruct Hrest as (new & -> & Hall & _).
      apply write_annotation_out in Ea.
      destruct Ea as [->|(c & -> & Hc)].
      * exists new. repeat split; [assumption | discriminate].
      * exists (c :: new). rewrite <- app_assoc.
        repeat split; [now constructor | discriminate].
    + intros E. inversion E; subst.
      apply write_annotation_out in Ea.
      destruct Ea as [->|(c & -> & Hc)].
      * exists []. rewrite app_nil_r. repeat split; [constructor | tauto].
      * exists [c]. repeat split; [now repeat constructor | discriminate].
Qed.

Lemma none_line_not_annotation querydom : ~ is_annotation_line (none_line querydom).
Proof.
  intros (args & E). unfold none_line, annotation_template in E.
  inversion E.
Qed.

(** C2, as the code has it: a protein that is absent from the annotation
    mapping gets the line with the literal [None]; a protein whose annotation
    list is present and empty gets nothing, neither the placeholder nor an
    annotation line; an annotation line is written only for a protein with a
    non-empty annotation list, and the placeholder only for an absent one. *)
Theorem write_domains_placeholder querydom cddres prot out :
  (dget cddres prot = None ->
   write_domains querydom cddres prot out = (out ++ [none_line querydom], Ok tt)) /\
  (dget cddres prot = Some [] ->
   write_domains querydom cddres prot out = (out, Ok tt)) /\
  (forall out' r,
     write_domains querydom cddres prot out = (out', r) ->
     exists new,
       out' = out ++ new /\
       (In (none_line querydom) new <-> dget cddres prot = None) /\
       (forall c, In c new -> is_annotation_line c ->
                  exists ann rest, dget cddres prot = Some (ann :: rest))).
Proof.
  unfold write_domains. split; [|split].
  - intros ->. reflexivity.
  - intros ->. reflexivity.
  - intros out' r. destruct (dget cddres prot) as [anns|] eqn:Eg.
    + intros Hw. apply wfor_write_annotation_out in Hw.
      destruct Hw as (new & -> & Hall & Hne).
      exists new. split; [reflexivity|]. split.
      * split; [|discriminate]. intros Hi. exfalso.
        rewrite Forall_forall in Hall.
        exact (none_line_not_annotation querydom (Hall _ Hi)).
      * intros c Hi _. destruct anns as [|ann rest]; [|eauto].
        exfalso. apply Hne; [|reflexivity]. intros ->. contradiction.
    + unfold write. intros E. inversion E; subst.
      exists [none_line querydom]. split; [reflexivity|]. split.
      * split; [reflexivity | intros _; now left].
      * intros c [<-|[]] Hc. exfalso.
        exact (none_line_not_annotation querydom Hc).
Qed.

Lemma write_domains_placeholder_witness :
  write_domains 0 empty_list_cddres "P3" [] = ([none_line 0], Ok tt) /\
  write_domains 0 empty_list_cddres "P1" [] = ([], Ok tt).
Proof.
  split.
  - apply (proj1 (write_domains_placeholder 0 empty_list_cddres "P3" [])).
    reflexivity.
  - apply (proj1 (proj2 (write_domains_placeholder 0 empty_list_cddres "P1" []))).
    reflexivity.
Defined.

(** C2, as the specification words it: [P1] has an empty annotation list;
    the report is written to the end, contains the line of [P1] and does not
    contain the placeholder line. *)
Lemma empty_annotation_list_no_placeholder :
  snd empty_list_report = Ok tt /\
  dget empty_list_cddres "P1" = Some [] /\
  In (Fmt (">{}" ++ nl)%string [VStr "P1"]) (fst empty_list_report) /\
  ~ In (none_line 0) (fst empty_list_report).
Proof.
  split; [vm_compute; reflexivity|]. split; [reflexivity|]. split.
  - vm_compute. tauto.
  - vm_compute. intros H.
    repeat (destruct H as [H|H]; [discriminate H|]). exact H.
Qed.

(** * Further properties of the module *)

(** ** flatres: outcomes *)

Lemma flatres_loop_missing targets proteins : forall fl po,
  (exists p, In p proteins /\ dmem targets p = false) ->
  flatres_loop targets proteins fl po = Raise KeyError.
Proof.
  induction proteins as [|name rest IH]; intros fl po (p & Hi & Hm).
  - contradiction.
  - cbn [flatres_loop]. unfold subscript.
    destruct (dget targets name) as [hs|] eqn:Et; cbn [rbind]; [|reflexivity].
    destruct (fold_left (flatres_hit name) hs ([], po)) as [fl1 po1].
    apply IH. exists p. split; [|assumption].
    destruct Hi as [->|Hi]; [|assumption].
    unfold dmem in Hm. rewrite Et in Hm. discriminate.
Qed.

Lemma flatres_loop_raises targets proteins : forall fl po e,
  flatres_loop targets proteins fl po = Raise e ->
  e = KeyError /\ exists p, In p proteins /\ dmem targets p = false.
Proof.
  induction proteins as [|name rest IH]; intros fl po e; cbn [flatres_loop].
  - discriminate.
  - unfold subscript, dmem.
    destruct (dget targets name) as [hs|] eqn:Et; cbn [rbind].
    + destruct (fold_left (flatres_hit name) hs ([], po)) as [fl1 po1].
      intros Hr. apply IH in Hr. destruct Hr as (-> & p & Hi & Hm).
      split; [reflexivity|]. exists p. split; [now right | assumption].
    + intros E. inversion E; subst. split; [reflexivity|].
      exists name. split; [now left|]. unfold dmem. now rewrite Et.
Qed.

Lemma flatres_no_hit targets proteins :
  (forall p, In p proteins -> dmem targets p = true) ->
  (forall p, In p proteins -> has_hit targets p = false) ->
  flatres targets proteins = Raise ValueError.
Proof.
  intros Hk Hno. unfold flatres.
  destruct (flatres_loop_total targets proteins [] [] Hk) as (fl & po & Hloop).
  rewrite Hloop. cbn [rbind].
  destruct (flatres_loop_start _ _ _ _ Hloop) as (_ & _ & Hkeys).
  destruct po as [|[p e] po]; [reflexivity|]. exfalso.
  destruct (proj1 (Hkeys p) (or_introl eq_refl)) as [Hi Hh].
  rewrite (Hno p Hi) in Hh. discriminate.
Qed.

Lemma flatres_some_hit targets proteins :
  (forall p, In p proteins -> dmem targets p = true) ->
  (exists p, In p proteins /\ has_hit targets p = true) ->
  exists order flat, flatres targets proteins = Ok (order, flat) /\ order <> [].
Proof.
  intros Hk (p & Hi & Hh). unfold flatres.
  destruct (flatres_loop_total targets proteins [] [] Hk) as (fl & po & Hloop).
  rewrite Hloop. cbn [rbind].
  destruct (flatres_loop_start _ _ _ _ Hloop) as (_ & _ & Hkeys).
  assert (Hp : In p (keys po)) by (apply Hkeys; now split).
  destruct (flatorders_of po) as [|x l] eqn:El.
  - apply flatorders_nil in El. subst po. contradiction.
  - simpl. eexists. eexists. split; [reflexivity | discriminate].
Qed.

Lemma all_or_missing (targets : domtargets) (proteins : list string) :
  (forall p, In p proteins -> dmem targets p = true) \/
  (exists p, In p proteins /\ dmem targets p = false).
Proof.
  induction proteins as [|name rest [IH|(p & Hi & Hm)]].
  - left. intros p [].
  - destruct (dmem targets name) eqn:Em.
    + left. intros p [<-|Hi]; [assumption | now apply IH].
    + right. exists name. split; [now left | assumption].
  - right. exists p. split; [now right | assumption].
Qed.

Lemma none_or_some_hit (targets : domtargets) (proteins : list string) :
  (forall p, In p proteins -> has_hit targets p = false) \/
  (exists p, In p proteins /\ has_hit targets p = true).
Proof.
  induction proteins as [|name rest [IH|(p & Hi & Hm)]].
  - left. intros p [].
  - destruct (has_hit targets name) eqn:Em.
    + right. exists name. split; [now left | assumption].
    + left. intros p [<-|Hi]; [assumption | now apply IH].
  - right. exists p. split; [now right | assumption].
Qed.

(** The three outcomes of [flatres]: [KeyError] exactly when a given protein
    is not a key of the hit mapping; [ValueError] exactly when all given
    proteins are keys and none has a hit; a result exactly when all are keys
    and one has a hit.  No other exception is raised. *)
Theorem flatres_outcome targets proteins :
  (flatres targets proteins = Raise KeyError <->
   exists p, In p proteins /\ dmem targets p = false) /\
  (flatres targets proteins = Raise ValueError <->
   (forall p, In p proteins -> dmem targets p = true) /\
   (forall p, In p proteins -> has_hit targets p = false)) /\
  ((exists order flat, flatres targets proteins = Ok (order, flat)) <->
   (forall p, In p proteins -> dmem targets p = true) /\
   (exists p, In p proteins /\ has_hit targets p = true)) /\
  (forall e, flatres targets proteins = Raise e ->
             e = KeyError \/ e = ValueError).
Proof.
  assert (Hmiss : (exists p, In p proteins /\ dmem targets p = false) ->
                  flatres targets proteins = Raise KeyError).
  { intros Hm. unfold flatres.
    now rewrite (flatres_loop_missing targets proteins [] [] Hm). }
  assert (Hexcl : (forall p, In p proteins -> dmem targets p = true) ->
                  (exists p, In p proteins /\ dmem targets p = false) -> False).
  { intros Hk (p & Hi & Hm). rewrite (Hk p Hi) in Hm. discriminate. }
  assert (Hexcl' : (forall p, In p proteins -> has_hit targets p = false) ->
                   (exists p, In p proteins /\ has_hit targets p = true) -> False).
  { intros Hk (p & Hi & Hm). rewrite (Hk p Hi) in Hm. discriminate. }
  destruct (all_or_missing targets proteins) as [Hk|Hm].
  - destruct (none_or_some_hit targets proteins) as [Hno|Hsome].
    + pose proof (flatres_no_hit _ _ Hk Hno) as E. rewrite E.
      split; [|split; [|split]].
      * split; [discriminate | intros Hex; exfalso; eauto].
      * split; [intros _; now split | reflexivity].
      * split; [intros (o & f & Ho); discriminate
               | intros [_ Hex]; exfalso; eauto].
      * intros e Ee. inversion Ee. now right.
    + destruct (flatres_some_hit _ _ Hk Hsome) as (o & f & E & _). rewrite E.
      split; [|split; [|split]].
      * split; [discriminate | intros Hex; exfalso; eauto].
      * split; [discriminate | intros [_ Hno]; exfalso; eauto].
      * split; [intros _; now split | intros _; eauto].
      * intros e Ee. discriminate.
  - rewrite (Hmiss Hm). split; [|split; [|split]].
    + split; [intros _; assumption | reflexivity].
    + split; [discriminate | intros [Hk _]; exfalso; eauto].
    + split; [intros (o & f & Ho); discriminate
             | intros [Hk _]; exfalso; eauto].
    + intros e Ee. inversion Ee. now left.
Qed.

Lemma flatres_outcome_witness :
  flatres sample_targets ["P1"; "P9"] = Raise KeyError /\
  flatres nohit_targets ["P1"] = Raise ValueError.
Proof.
  split.
  - apply (proj2 (proj1 (flatres_outcome sample_targets ["P1"; "P9"]))).
    exists "P9". split; [simpl; tauto | reflexivity].
  - apply (proj2 (proj1 (proj2 (flatres_outcome nohit_targets ["P1"])))).
    split; intros p [<-|[]]; reflexivity.
Defined.

(** ** flatres: the order and the flat view as a whole *)

(** The returned order lists, without repetition, exactly the given proteins
    that have a hit. *)
Theorem flatres_order_exact targets proteins order flat :
  flatres targets proteins = Ok (order, flat) ->
  NoDup order /\
  forall p, In p order <-> In p proteins /\ has_hit targets p = true.
Proof.
  intros Hrun. split; [|now apply (flatres_order_In _ _ _ _ Hrun)].
  apply flatres_Ok in Hrun. destruct Hrun as (po & Hloop & _ & ->).
  destruct (flatres_loop_start _ _ _ _ Hloop) as (Hnd & _ & _).
  eapply Permutation_NoDup; [symmetry; apply flatorders_snd_perm | exact Hnd].
Qed.

Lemma flatres_order_exact_witness :
  NoDup ["P1"; "P2"] /\
  (In "P3" ["P1"; "P2"] <-> In "P3" ["P2"; "P1"] /\ has_hit sample_targets "P3" = true).
Proof.
  destruct (flatres_order_exact sample_targets ["P2"; "P1"] ["P1"; "P2"]
              (match flatres sample_targets ["P2"; "P1"] with
               | Ok (_, flat) => flat
               | Raise _ => []
               end)) as (Hnd & Hin).
  - vm_compute. reflexivity.
  - split; [exact Hnd | exact (Hin "P3")].
Defined.

Lemma dset_new {K V : Type} `{Key K} (d : dict K V) k v :
  ~ In k (keys d) -> dset d k v = d ++ [(k, v)].
Proof.
  induction d as [|[k' v'] d IH]; simpl; intros Hni; [reflexivity|].
  destruct (keq_spec k k') as [->|Hn]; [tauto|].
  rewrite IH by tauto. reflexivity.
Qed.

Lemma flat_hits_map hs : forall fl,
  NoDup (keys fl ++ keys hs) ->
  flat_hits hs fl = fl ++ map (fun kv => (fst kv, flatrow (snd kv))) hs.
Proof.
  unfold flat_hits.
  induction hs as [|[k r] hs IH]; intros fl Hnd; simpl.
  - now rewrite app_nil_r.
  - assert (Hk : ~ In k (keys fl)).
    { intros Hi. apply NoDup_remove_2 in Hnd. apply Hnd.
      apply in_or_app. now left. }
    rewrite (dset_new fl k (flatrow r) Hk), IH.
    + now rewrite <- app_assoc.
    + unfold keys in *. rewrite map_app. simpl. simpl in Hnd.
      rewrite <- app_assoc. exact Hnd.
Qed.

(** The flat view has one entry per given protein and no other; the entry
    of a given protein without hits is the empty dictionary; the entry of a
    protein with hits has one row per hit, in the order of its hits. *)
Theorem flatres_flat_entries targets proteins order flat :
  flatres targets proteins = Ok (order, flat) ->
  (forall name, In name (keys flat) <-> In name proteins) /\
  (forall name, In name proteins -> has_hit targets name = false ->
                dget flat name = Some []) /\
  (forall name hs, In name proteins -> dget targets name = Some hs ->
                   NoDup (keys hs) ->
                   dget flat name =
                   Some (map (fun kv => (fst kv, flatrow (snd kv))) hs)).
Proof.
  intros Hrun. apply flatres_Ok in Hrun. destruct Hrun as (po & Hloop & _ & _).
  pose proof (flatres_loop_flat _ _ _ _ _ _ Hloop) as Hflat.
  split; [|split].
  - intros name. destruct (Hflat name) as [Hin Hout]. split.
    + intros Hk. destruct (in_dec string_dec name proteins) as [Hi|Hni];
        [assumption|].
      apply In_keys_dget in Hk. destruct Hk as (v & Hv).
      rewrite (Hout Hni) in Hv. discriminate.
    + intros Hi. destruct (Hin Hi) as (hs & _ & Hg).
      now apply dget_Some_keys in Hg.
  - intros name Hi Hno. destruct (Hflat name) as [Hin _].
    destruct (Hin Hi) as (hs & Ht & Hg). rewrite Hg.
    unfold has_hit in Hno. rewrite Ht in Hno.
    destruct hs; [reflexivity | discriminate].
  - intros name hs Hi Ht Hnd. destruct (Hflat name) as [Hin _].
    destruct (Hin Hi) as (hs' & Ht' & Hg). rewrite Ht in Ht'.
    inversion Ht'; subst hs'. rewrite Hg. f_equal.
    now rewrite flat_hits_map.
Qed.

Lemma flatres_flat_entries_witness :
  exists order flat,
    flatres nohit_da_targets ["P1"; "P4"] = Ok (order, flat) /\
    order = ["P1"] /\ keys flat = ["P1"; "P4"] /\ dget flat "P4" = Some [].
Proof.
  destruct (flatres nohit_da_targets ["P1"; "P4"]) as [[order flat]|e] eqn:E;
    [|vm_compute in E; discriminate].
  exists order, flat. split; [reflexivity|].
  destruct (flatres_flat_entries _ _ _ _ E) as (_ & Hempty & _).
  assert (E' := E). vm_compute in E'. inversion E'; subst.
  split; [reflexivity|]. split; [reflexivity|].
  apply Hempty; [simpl; tauto | reflexivity].
Defined.

(** ** flatres: the order does not depend on the order of the input *)

Lemma StronglySorted_unique {A : Type} (R : A -> A -> Prop) (l1 : list A) :
  forall l2,
    StronglySorted R l1 -> StronglySorted R l2 ->
    NoDup l1 -> NoDup l2 ->
    (forall x, In x l1 <-> In x l2) ->
    (forall a b, In a l1 -> In b l1 -> R a b -> R b a -> a = b) ->
    l1 = l2.
Proof.
  induction l1 as [|a t1 IH]; intros l2 S1 S2 N1 N2 Hsame Hanti.
  - destruct l2 as [|b t2]; [reflexivity|].
    exfalso. apply (Hsame b). now left.
  - destruct l2 as [|b t2]; [exfalso; apply (Hsame a); now left|].
    inversion S1 as [|? ? S1' F1]; inversion S2 as [|? ? S2' F2]; subst.
    inversion N1 as [|? ? Hn1 N1']; inversion N2 as [|? ? Hn2 N2']; subst.
    rewrite Forall_forall in F1, F2.
    assert (Hab : a = b).
    { destruct (proj1 (Hsame a) (or_introl eq_refl)) as [E|Hat2]; [now symmetry|].
      destruct (proj2 (Hsame b) (or_introl eq_refl)) as [E|Hbt1]; [assumption|].
      apply Hanti; [now left | now right | now apply F1 | now apply F2]. }
    subst b. f_equal. apply IH; try assumption.
    + intros x. split; intros Hx.
      * destruct (proj1 (Hsame x) (or_intror Hx)) as [E|Hi]; [|assumption].
        subst x. contradiction.
      * destruct (proj2 (Hsame x) (or_intror Hx)) as [E|Hi]; [|assumption].
        subst x. contradiction.
    + intros x y Hx Hy. apply Hanti; now right.
Qed.

Lemma pair_cmp_Eq_snd a b : pair_cmp a b = Eq -> snd a = snd b.
Proof.
  unfold pair_cmp, lex. destruct (Qcompare (fst a) (fst b)); try discriminate.
  apply String.compare_eq_iff.
Qed.

Lemma cmp_le_antisym_Eq {A : Type} (cmp : A -> A -> comparison) :
  total_cmp cmp -> forall a b, cmp_le cmp a b -> cmp_le cmp b a -> cmp a b = Eq.
Proof.
  intros T a b Hab Hba. unfold cmp_le in *.
  rewrite (cmp_antisym cmp T b a) in Hba.
  destruct (cmp a b); simpl in Hba; congruence.
Qed.

(** Two calls on the same hit mapping with the same proteins in different
    orders return the same order: the sort on (best e-value, protein id)
    leaves nothing to the order of the input. *)
Theorem flatres_order_input_independent
    targets proteins proteins' order flat order' flat' :
  Permutation proteins proteins' ->
  flatres targets proteins = Ok (order, flat) ->
  flatres targets proteins' = Ok (order', flat') ->
  order = order'.
Proof.
  intros Hperm Hrun Hrun'.
  apply flatres_Ok in Hrun. destruct Hrun as (po & Hloop & _ & ->).
  apply flatres_Ok in Hrun'. destruct Hrun' as (po' & Hloop' & _ & ->).
  destruct (flatres_loop_start _ _ _ _ Hloop) as (Hnd & Hbest & Hkeys).
  destruct (flatres_loop_start _ _ _ _ Hloop') as (Hnd' & Hbest' & Hkeys').
  assert (Hsnd : forall q, NoDup (keys q) -> NoDup (map snd (flatorders_of q))).
  { intros q Hq. eapply Permutation_NoDup;
      [symmetry; apply flatorders_snd_perm | exact Hq]. }
  assert (Hdup : forall q, NoDup (keys q) -> NoDup (flatorders_of q)).
  { intros q Hq. eapply NoDup_map_inv. apply (Hsnd q Hq). }
  assert (Hto : forall q q' ps ps',
             NoDup (keys q) -> NoDup (keys q') ->
             (forall p e, dget q p = Some e -> best_evalue targets p = Some e) ->
             (forall p e, dget q' p = Some e -> best_evalue targets p = Some e) ->
             (forall p, In p (keys q) <-> In p ps /\ has_hit targets p = true) ->
             (forall p, In p (keys q') <-> In p ps' /\ has_hit targets p = true) ->
             (forall p, In p ps -> In p ps') ->
             forall x, In x (flatorders_of q) -> In x (flatorders_of q')).
  { intros q q' ps ps' Hq Hq' Hb Hb' Hk Hk' Hsub [e p] Hx.
    apply flatorders_In in Hx. apply flatorders_In.
    apply (In_dget _ _ _ Hq) in Hx.
    assert (Hp : In p (keys q')).
    { apply Hk'. apply dget_Some_keys in Hx. apply Hk in Hx.
      destruct Hx as [Hi Hh]. split; [now apply Hsub | assumption]. }
    apply In_keys_dget in Hp. destruct Hp as (e' & He').
    apply dget_In. rewrite He'. f_equal.
    apply Hb in Hx. apply Hb' in He'. congruence. }
  f_equal.
  apply (StronglySorted_unique (cmp_le pair_cmp)).
  - apply (sort_sorted pair_cmp pair_ltb total_cmp_pair pair_ltb_lt).
  - apply (sort_sorted pair_cmp pair_ltb total_cmp_pair pair_ltb_lt).
  - now apply Hdup.
  - now apply Hdup.
  - intros x. split.
    + apply (Hto po po' proteins proteins'); try assumption.
      intros p. now apply Permutation_in.
    + apply (Hto po' po proteins' proteins); try assumption.
      intros p. apply Permutation_in. now symmetry.
  - intros a b Ha Hb Hab Hba.
    pose proof (cmp_le_antisym_Eq pair_cmp total_cmp_pair a b Hab Hba) as E.
    apply pair_cmp_Eq_snd in E.
    pose proof (Hsnd po Hnd) as Hs.
    destruct a as [e1 p1], b as [e2 p2]. simpl in E. subst p2.
    apply flatorders_In in Ha. apply flatorders_In in Hb.
    apply (In_dget _ _ _ Hnd) in Ha. apply (In_dget _ _ _ Hnd) in Hb.
    congruence.
Qed.

Lemma flatres_order_input_independent_witness :
  exists order flat flat',
    flatres sample_targets ["P1"; "P2"; "P3"] = Ok (order, flat) /\
    flatres sample_targets ["P3"; "P1"; "P2"] = Ok (order, flat').
Proof.
  destruct (flatres sample_targets ["P1"; "P2"; "P3"]) as [[o f]|e] eqn:E1;
    [|vm_compute in E1; discriminate].
  destruct (flatres sample_targets ["P3"; "P1"; "P2"]) as [[o' f']|e] eqn:E2;
    [|vm_compute in E2; discriminate].
  exists o, f, f'. split; [reflexivity|].
  rewrite (flatres_order_input_independent sample_targets
             ["P1"; "P2"; "P3"] ["P3"; "P1"; "P2"] o f o' f'); try assumption.
  - reflexivity.
  - apply Permutation_sym. apply (Permutation_cons_app ["P1"; "P2"] []). reflexivity.
Defined.

(** ** orderda: outcomes *)

Lemma keptda_prots_raises targets da prots : forall keptda e,
  keptda_prots targets da prots keptda = Raise e -> e = KeyError.
Proof.
  induction prots as [|prot rest IH]; intros keptda e; cbn [keptda_prots].
  - discriminate.
  - unfold subscript.
    destruct (dget targets prot) as [hs|]; cbn [rbind]; [apply IH|].
    intros E. now inversion E.
Qed.

Lemma keptda_prots_missing targets da prots : forall keptda,
  (exists prot, In prot prots /\ dmem targets prot = false) ->
  keptda_prots targets da prots keptda = Raise KeyError.
Proof.
  induction prots as [|prot rest IH]; intros keptda (p & Hi & Hm).
  - contradiction.
  - cbn [keptda_prots]. unfold subscript.
    destruct (dget targets prot) as [hs|] eqn:Et; cbn [rbind]; [|reflexivity].
    apply IH. exists p. split; [|assumption].
    destruct Hi as [->|Hi]; [|assumption].
    unfold dmem in Hm. rewrite Et in Hm. discriminate.
Qed.

Lemma keptda_loop_missing targets arrangements : forall keptda,
  (exists da prots prot,
     In (da, prots) arrangements /\ In prot prots /\
     dmem targets prot = false) ->
  keptda_loop targets arrangements keptda = Raise KeyError.
Proof.
  induction arrangements as [|[da prots] rest IH];
    intros keptda (d & ps & p & Hi & Hp & Hm).
  - contradiction.
  - cbn [keptda_loop].
    destruct (keptda_prots targets da prots keptda) as [k1|e1] eqn:Ep;
      cbn [rbind].
    + destruct Hi as [E|Hi].
      * inversion E; subst d ps.
        rewrite keptda_prots_missing in Ep by eauto. discriminate.
      * apply IH. eauto 6.
    + apply keptda_prots_raises in Ep. now subst.
Qed.

Lemma members_or_missing (arrangements : domgroups) (targets : domtargets) :
  members_in_targets arrangements targets \/
  exists da prots prot,
    In (da, prots) arrangements /\ In prot prots /\ dmem targets prot = false.
Proof.
  induction arrangements as [|[da prots] rest [IH|(d & ps & p & Hi & Hp & Hm)]].
  - left. intros da prots prot [].
  - destruct (all_or_missing targets prots) as [Hall|(p & Hp & Hm)].
    + left. intros d ps p [E|Hi] Hp; [|now apply (IH d ps)].
      inversion E; subst. now apply Hall.
    + right. exists da, prots, p. split; [now left | tauto].
  - right. exists d, ps, p. split; [now right | tauto].
Qed.

(** [orderda] returns exactly when every member protein of every arrangement
    is a key of the hit mapping, and raises [KeyError] exactly when one of
    them is not; it raises nothing else. *)
Theorem orderda_outcome arrangements targets :
  ((exists orderedda, orderda arrangements targets = Ok orderedda) <->
   members_in_targets arrangements targets) /\
  (orderda arrangements targets = Raise KeyError <->
   exists da prots prot,
     In (da, prots) arrangements /\ In prot prots /\
     dmem targets prot = false) /\
  (forall e, orderda arrangements targets = Raise e -> e = KeyError).
Proof.
  assert (Hexcl : members_in_targets arrangements targets ->
                  (exists da prots prot,
                     In (da, prots) arrangements /\ In prot prots /\
                     dmem targets prot = false) -> False).
  { intros Hm (da & prots & prot & Hi & Hp & Hf).
    rewrite (Hm da prots prot Hi Hp) in Hf. discriminate. }
  unfold orderda.
  destruct (members_or_missing arrangements targets) as [Hm|Hmiss].
  - rewrite (keptda_loop_eq targets arrangements [] Hm). cbn [rbind].
    split; [|split].
    + split; [intros _; assumption | intros _; eauto].
    + split; [discriminate | intros Hmiss; exfalso; eauto].
    + discriminate.
  - rewrite (keptda_loop_missing targets arrangements [] Hmiss). cbn [rbind].
    split; [|split].
    + split; [intros (o & Ho); discriminate | intros Hm; exfalso; eauto].
    + split; [intros _; assumption | reflexivity].
    + intros e E. now inversion E.
Qed.

Lemma orderda_outcome_witness :
  orderda [("A", ["P1"; "P9"])] sample_targets = Raise KeyError.
Proof.
  apply (proj2 (proj1 (proj2 (orderda_outcome [("A", ["P1"; "P9"])]
                                sample_targets)))).
  exists "A", ["P1"; "P9"], "P9".
  split; [now left|]. split; [simpl; tauto | reflexivity].
Defined.

Lemma orderda_Ok_members arrangements targets orderedda :
  orderda arrangements targets = Ok orderedda ->
  members_in_targets arrangements targets.
Proof.
  intros Hrun. destruct (members_or_missing arrangements targets) as [Hm|Hmiss];
    [assumption|].
  unfold orderda in Hrun.
  rewrite (keptda_loop_missing targets arrangements [] Hmiss) in Hrun.
  discriminate.
Qed.

Lemma orderda_members_Ok arrangements targets :
  members_in_targets arrangements targets ->
  exists orderedda, orderda arrangements targets = Ok orderedda.
Proof.
  intros Hm. unfold orderda.
  rewrite (keptda_loop_eq targets arrangements [] Hm). cbn [rbind]. eauto.
Qed.

Lemma da_has_hit_member arrangements targets da :
  da_has_hit arrangements targets da = true ->
  exists prots prot,
    dget arrangements da = Some prots /\ In prot prots /\
    has_hit targets prot = true.
Proof.
  unfold da_has_hit, da_best. intros Hh.
  destruct (dget arrangements da) as [prots|] eqn:Eg; [|discriminate].
  destruct (Qmin_list (da_evalues targets prots)) as [m|] eqn:Em;
    [|discriminate].
  apply Qmin_list_spec in Em. destruct Em as [Hm _].
  unfold da_evalues in Hm. apply in_flat_map in Hm.
  destruct Hm as (prot & Hp & He).
  exists prots, prot. split; [reflexivity|]. split; [assumption|].
  unfold has_hit.
  destruct (dget targets prot) as [[|kv hs]|]; try contradiction. reflexivity.
Qed.

(** ** orderda: what a returned ranking is *)

Lemma orderda_Ok_facts arrangements targets orderedda :
  NoDup (keys arrangements) ->
  orderda arrangements targets = Ok orderedda ->
  members_in_targets arrangements targets /\
  NoDup orderedda /\
  (forall d, In d orderedda <->
             In d (keys arrangements) /\
             da_has_hit arrangements targets d = true) /\
  StronglySorted (best_then_label arrangements targets) orderedda.
Proof.
  intros Hnd Hrun.
  assert (Hk : members_in_targets arrangements targets)
    by (eapply orderda_Ok_members; eassumption).
  split; [assumption|].
  unfold orderda in Hrun.
  rewrite (keptda_loop_eq targets arrangements [] Hk) in Hrun.
  cbn [rbind app] in Hrun. inversion Hrun as [Hout]. clear Hrun.
  set (G := sort pair_ltb (keptda_of targets arrangements)).
  destruct (visit_loop_sorted G G [] [] eq_refl) as (H1 & H2 & H3 & H4).
  { intros e d []. }
  { apply (sort_sorted pair_cmp pair_ltb total_cmp_pair pair_ltb_lt). }
  split; [assumption|]. split.
  - intros d. rewrite H2, (da_has_hit_iff _ _ _ Hnd). split.
    + intros [Hi _]. apply in_map_iff in Hi. destruct Hi as ([e d'] & E & Hi).
      simpl in E. subst d'. unfold G in Hi. rewrite (sort_In pair_ltb) in Hi.
      split; [|eauto].
      rewrite (keptda_of_dget _ _ _ _ Hnd) in Hi. destruct Hi as (prots & Hg & _).
      now apply dget_Some_keys in Hg.
    + intros [_ (e & Hi)]. split; [|reflexivity].
      apply in_map_iff. exists (e, d). split; [reflexivity|].
      unfold G. now rewrite (sort_In pair_ltb).
  - apply (StronglySorted_impl (least_lt G)); [assumption|].
    intros d1 d2 _ _ (e1 & e2 & L1 & L2 & Hlt).
    apply (least_for_best _ _ _ _ Hnd) in L1. destruct L1 as (m1 & B1 & E1).
    apply (least_for_best _ _ _ _ Hnd) in L2. destruct L2 as (m2 & B2 & E2).
    exists m1, m2. split; [assumption|]. split; [assumption|].
    unfold pair_cmp, lex in Hlt. simpl in Hlt.
    rewrite E1, E2.
    destruct (Qcompare e1 e2) eqn:C; try discriminate.
    + right. split; [now apply Qeq_alt | now apply string_ltb_lt].
    + left. now apply Qlt_alt.
Qed.

(** The ranking guards the flattening: for every arrangement that [orderda]
    returns, [flatres] on the members of that arrangement returns, with a
    non-empty order.  The [ValueError] of [flatres] cannot occur in the loop
    of the report writer over the ranked arrangements. *)
Theorem orderda_guards_flatres arrangements targets orderedda :
  NoDup (keys arrangements) ->
  orderda arrangements targets = Ok orderedda ->
  forall da, In da orderedda ->
    exists proteins order flat,
      dget arrangements da = Some proteins /\
      flatres targets proteins = Ok (order, flat) /\ order <> [].
Proof.
  intros Hnd Hrun da Hda.
  destruct (orderda_Ok_facts _ _ _ Hnd Hrun) as (Hk & _ & Hin & _).
  apply Hin in Hda. destruct Hda as [_ Hh].
  destruct (da_has_hit_member _ _ _ Hh) as (prots & prot & Hg & Hp & Hhit).
  destruct (flatres_some_hit targets prots) as (order & flat & E & Hne).
  - intros p Hi. apply (Hk da prots); [now apply dget_In | assumption].
  - eauto.
  - exists prots, order, flat. tauto.
Qed.

Lemma orderda_guards_flatres_witness :
  exists proteins order flat,
    dget nohit_da_groups "A" = Some proteins /\
    flatres nohit_da_targets proteins = Ok (order, flat) /\ order <> [].
Proof.
  apply (orderda_guards_flatres nohit_da_groups nohit_da_targets ["A"]).
  - repeat constructor; simpl; intuition discriminate.
  - vm_compute. reflexivity.
  - now left.
Defined.

(** ** orderda: the ranking does not depend on the order of the grouping *)

Lemma dget_perm {V : Type} (d d' : dict string V) k :
  NoDup (keys d) -> Permutation d d' -> dget d k = dget d' k.
Proof.
  intros Hnd Hp.
  assert (Hnd' : NoDup (keys d'))
    by (eapply Permutation_NoDup; [apply Permutation_map; exact Hp | exact Hnd]).
  destruct (dget d k) as [v|] eqn:E.
  - apply dget_In in E. symmetry. apply In_dget; [assumption|].
    eapply Permutation_in; eassumption.
  - destruct (dget d' k) as [v'|] eqn:E'; [|reflexivity].
    apply dget_In in E'. apply Permutation_sym in Hp.
    apply (Permutation_in _ Hp) in E'. apply (In_dget _ _ _ Hnd) in E'.
    congruence.
Qed.

Lemma string_ltb_asym a b : String.ltb a b = true -> String.ltb b a = true -> False.
Proof.
  rewrite !string_ltb_lt. intros H1 H2.
  rewrite String.compare_antisym, H2 in H1. discriminate.
Qed.

Lemma best_then_label_asym arrangements targets d1 d2 :
  best_then_label arrangements targets d1 d2 ->
  best_then_label arrangements targets d2 d1 -> False.
Proof.
  intros (m1 & m2 & B1 & B2 & H) (m2' & m1' & B2' & B1' & H').
  rewrite B1 in B1'. rewrite B2 in B2'. inversion B1'; inversion B2'; subst.
  destruct H as [H|[He Hs]], H' as [H'|[He' Hs']].
  - apply (Qlt_irrefl m1'). eapply Qlt_trans; eassumption.
  - rewrite He' in H. apply (Qlt_irrefl m1' H).
  - rewrite He in H'. apply (Qlt_irrefl m2' H').
  - eapply string_ltb_asym; eassumption.
Qed.

(** Two groupings with the same entries in different orders give the same
    ranking. *)
Theorem orderda_input_independent arrangements arrangements' targets out out' :
  NoDup (keys arrangements) ->
  Permutation arrangements arrangements' ->
  orderda arrangements targets = Ok out ->
  orderda arrangements' targets = Ok out' ->
  out = out'.
Proof.
  intros Hnd Hperm Hrun Hrun'.
  assert (Hnd' : NoDup (keys arrangements'))
    by (eapply Permutation_NoDup; [apply Permutation_map; exact Hperm | exact Hnd]).
  destruct (orderda_Ok_facts _ _ _ Hnd Hrun) as (_ & N & Hin & Hs).
  destruct (orderda_Ok_facts _ _ _ Hnd' Hrun') as (_ & N' & Hin' & Hs').
  assert (Hbest : forall d, da_best arrangements' targets d =
                            da_best arrangements targets d).
  { intros d. unfold da_best.
    now rewrite (dget_perm arrangements arrangements' d Hnd Hperm). }
  apply (StronglySorted_unique (best_then_label arrangements targets));
    try assumption.
  - apply (StronglySorted_impl (best_then_label arrangements' targets));
      [assumption|].
    intros a b _ _ (m1 & m2 & B1 & B2 & H).
    exists m1, m2. rewrite <- !Hbest. tauto.
  - intros d. rewrite Hin, Hin'. unfold da_has_hit. rewrite Hbest.
    split; intros [Hk Hh]; (split; [|assumption]).
    + eapply Permutation_in; [apply Permutation_map; exact Hperm | assumption].
    + eapply Permutation_in;
        [apply Permutation_map, Permutation_sym; exact Hperm | assumption].
  - intros a b _ _ Hab Hba. exfalso.
    eapply best_then_label_asym; eassumption.
Qed.

Lemma orderda_input_independent_witness :
  orderda sample_groups sample_targets =
  orderda [("B", ["P3"]); ("A", ["P1"; "P2"])] sample_targets.
Proof.
  destruct (orderda sample_groups sample_targets) as [o|e] eqn:E1;
    [|vm_compute in E1; discriminate].
  destruct (orderda [("B", ["P3"]); ("A", ["P1"; "P2"])] sample_targets)
    as [o'|e] eqn:E2; [|vm_compute in E2; discriminate].
  f_equal.
  apply (orderda_input_independent sample_groups
           [("B", ["P3"]); ("A", ["P1"; "P2"])] sample_targets); try assumption.
  - repeat constructor; simpl; intuition discriminate.
  - apply perm_swap.
Defined.

(** ** summary_tremolo: outcomes *)

Lemma data_hits_outcome prot2grp prot hs : forall data,
  (forall d, data_hits prot2grp prot hs data = Ok d ->
             hs <> [] -> exists da, dget prot2grp prot = Some da) /\
  (forall e, data_hits prot2grp prot hs data = Raise e -> e = KeyError).
Proof.
  induction hs as [|[hitnum res] rest IH]; intros data; cbn [data_hits].
  - split; [intros d _ Hne; now contradiction Hne | discriminate].
  - unfold subscript.
    destruct (dget prot2grp prot) as [da|]; cbn [rbind].
    + split; [eauto | apply IH].
    + split; [discriminate | intros e E; now inversion E].
Qed.

Lemma data_loop_outcome prot2grp tq : forall data,
  (forall d, data_loop prot2grp tq data = Ok d ->
             forall prot hs, In (prot, hs) tq -> hs <> [] ->
                             exists da, dget prot2grp prot = Some da) /\
  (forall e, data_loop prot2grp tq data = Raise e -> e = KeyError).
Proof.
  induction tq as [|[prot hs] rest IH]; intros data; cbn [data_loop].
  - split; [intros d _ p h [] | discriminate].
  - destruct (data_hits_outcome prot2grp prot hs data) as [Hok Hraise].
    destruct (data_hits prot2grp prot hs data) as [d1|e1]; cbn [rbind].
    + destruct (IH d1) as [IHok IHraise]. split; [|assumption].
      intros d Hd p h [E|Hi] Hne.
      * inversion E; subst. now apply (Hok d1).
      * now apply (IHok d Hd p h).
    + split; [discriminate|]. intros e E. inversion E; subst. now apply Hraise.
Qed.

Lemma prot2grp_of_in_group gq prot da :
  dget (prot2grp_of gq) prot = Some da -> in_group gq prot da.
Proof.
  intros Hg. destruct (prot2grp_fold gq [] prot) as [H1 _].
  fold (prot2grp_of gq) in H1.
  destruct (H1 da Hg) as [Hd|Hin]; [discriminate | assumption].
Qed.

Lemma summary_data_outcome gq tq xbest :
  (forall kept, summary_data gq tq xbest = Ok kept ->
                forall prot hs, In (prot, hs) tq -> hs <> [] ->
                                exists da, in_group gq prot da) /\
  (forall e, summary_data gq tq xbest = Raise e -> e = KeyError).
Proof.
  unfold summary_data.
  destruct (data_loop_outcome (prot2grp_of gq) tq []) as [Hok Hraise].
  destruct (data_loop (prot2grp_of gq) tq []) as [d|e]; cbn [rbind].
  - split; [|discriminate]. intros kept _ prot hs Hi Hne.
    destruct (Hok d eq_refl prot hs Hi Hne) as (da & Hd).
    exists da. now apply prot2grp_of_in_group.
  - split; [discriminate|]. intros e' E. inversion E; subst. now apply Hraise.
Qed.

Lemma summary_loop_outcome groups xbest targets : forall summary,
  (forall s, summary_loop targets groups xbest summary = Ok s ->
             groups_reach targets groups) /\
  (forall e, summary_loop targets groups xbest summary = Raise e ->
             e = KeyError).
Proof.
  induction targets as [|[querydom tq] rest IH]; intros summary;
    cbn [summary_loop].
  - split; [intros s _ q t [] | discriminate].
  - unfold subscript.
    destruct (dget groups querydom) as [gq|] eqn:Eg; cbn [rbind].
    + destruct (summary_data_outcome gq tq xbest) as [Hok Hraise].
      destruct (summary_data gq tq xbest) as [kept|e1]; cbn [rbind].
      * destruct (IH (summary ++ map (summary_line querydom) kept))
          as [IHok IHraise].
        split; [|assumption].
        intros s Hs q t [E|Hi].
        -- inversion E; subst. exists gq. split; [assumption|].
           now apply (Hok kept).
        -- now apply (IHok s Hs).
      * split; [discriminate|]. intros e E. inversion E; subst.
        now apply Hraise.
    + split; [discriminate | intros e E; now inversion E].
Qed.

(** [summary_tremolo] returns exactly when every query sub-domain of the hit
    mapping has an entry in the grouping and every protein that has a hit is
    a member of some arrangement group of its sub-domain; otherwise it
    raises [KeyError], and it raises nothing else.  A protein without hits
    needs no group. *)
Theorem summary_tremolo_outcome targets groups xbest :
  ((exists summary, summary_tremolo targets groups xbest = Ok summary) <->
   groups_reach targets groups) /\
  (forall e, summary_tremolo targets groups xbest = Raise e -> e = KeyError).
Proof.
  unfold summary_tremolo.
  destruct (summary_loop_outcome groups xbest targets []) as [Hok Hraise].
  split; [|assumption]. split.
  - intros (s & Hs). now apply (Hok s).
  - intros Hr. rewrite summary_loop_eq by assumption. eauto.
Qed.

Lemma summary_tremolo_outcome_witness :
  exists summary,
    summary_tremolo sample_all_targets sample_all_groups 2 = Ok summary.
Proof.
  apply (proj2 (proj1 (summary_tremolo_outcome sample_all_targets
                         sample_all_groups 2))).
  apply groups_cover_reach, sample_groups_cover.
Defined.

(** ** summary_tremolo: a protein in several groups *)

Lemma prot2grp_fold_later g2 : forall (p2g : dict string string) prot da,
  dget p2g prot = Some da ->
  (forall da' prots', In (da', prots') g2 -> ~ In prot prots') ->
  dget (fold_left
          (fun m (kv : string * list string) =>
             fold_left (fun m' p => dset m' p (fst kv)) (snd kv) m)
          g2 p2g) prot = Some da.
Proof.
  induction g2 as [|[d ps] rest IH]; intros p2g prot da Hg Hlater;
    cbn [fold_left fst snd]; [assumption|].
  apply IH.
  - destruct (prot2grp_inner d ps p2g prot) as [_ Hout].
    rewrite Hout; [assumption|]. apply (Hlater d ps). now left.
  - intros da' prots' Hi. apply (Hlater da' prots'). now right.
Qed.

(** When a protein is a member of several arrangement groups, the reverse
    index gives it the last of them in the order of the grouping: later
    assignments overwrite earlier ones. *)
Theorem prot2grp_last_group_wins g1 da prots g2 prot :
  In prot prots ->
  (forall da' prots', In (da', prots') g2 -> ~ In prot prots') ->
  dget (prot2grp_of (g1 ++ (da, prots) :: g2)) prot = Some da.
Proof.
  intros Hin Hlater. unfold prot2grp_of.
  rewrite fold_left_app. cbn [fold_left fst snd].
  apply prot2grp_fold_later; [|assumption].
  now apply (prot2grp_inner da prots).
Qed.

Lemma prot2grp_last_group_wins_witness :
  dget (prot2grp_of twice_groups) "P1" = Some "B".
Proof.
  apply (prot2grp_last_group_wins [("A", ["P1"; "P2"])] "B" ["P1"; "P3"] [] "P1").
  - now left.
  - intros da' prots' [].
Defined.

(** ** summary_tremolo: the rows of one sub-domain *)

Lemma summary_data_Ok gq tq xbest kept :
  summary_data gq tq xbest = Ok kept ->
  kept = slice_to (sort datum_ltb (all_data (prot2grp_of gq) tq)) xbest /\
  map datum_hit (all_data (prot2grp_of gq) tq) = hit_list tq.
Proof.
  intros Hrun.
  assert (Hlook : forall prot hs, In (prot, hs) tq -> hs <> [] ->
                    exists da, dget (prot2grp_of gq) prot = Some da).
  { unfold summary_data in Hrun.
    destruct (data_loop_outcome (prot2grp_of gq) tq []) as [Hok _].
    destruct (data_loop (prot2grp_of gq) tq []) as [d|e]; [|discriminate].
    now apply (Hok d). }
  split; [|now apply all_data_hits].
  unfold summary_data in Hrun.
  rewrite (data_loop_eq _ _ [] Hlook) in Hrun. cbn [rbind app] in Hrun.
  now inversion Hrun.
Qed.

Lemma In_slice_to {A : Type} (l : list A) (n : Z) x :
  In x (slice_to l n) -> In x l.
Proof.
  unfold slice_to.
  destruct (n <? 0); intros Hi;
    match type of Hi with
    | In _ (firstn ?k _) =>
        rewrite <- (firstn_skipn k l); apply in_or_app; now left
    end.
Qed.

(** The number of rows of a sub-domain with [n] hits: the smaller of
    [xbest] and [n] for a cap that is not negative (none for [xbest = 0]);
    for a negative [xbest] the last [-xbest] rows of the sorted list are
    dropped, which leaves [n + xbest] rows, or none. *)
Theorem summary_data_length gq tq xbest kept :
  summary_data gq tq xbest = Ok kept ->
  List.length kept =
  if xbest <? 0
  then Z.to_nat (Z.of_nat (List.length (hit_list tq)) + xbest)
  else Nat.min (Z.to_nat xbest) (List.length (hit_list tq)).
Proof.
  intros Hrun. apply summary_data_Ok in Hrun. destruct Hrun as [-> Hhits].
  rewrite <- Hhits, length_map. unfold slice_to.
  rewrite (sort_length datum_ltb).
  destruct (xbest <? 0) eqn:E; rewrite length_firstn, (sort_length datum_ltb).
  - apply Z.ltb_lt in E. lia.
  - reflexivity.
Qed.

Lemma summary_data_length_witness :
  exists kept0 kept2 keptm,
    summary_data sample_groups sample_targets 0 = Ok kept0 /\
    List.length kept0 = 0%nat /\
    summary_data sample_groups sample_targets 2 = Ok kept2 /\
    List.length kept2 = 2%nat /\
    summary_data sample_groups sample_targets (-3) = Ok keptm /\
    List.length keptm = 1%nat.
Proof.
  destruct (summary_data sample_groups sample_targets 0) as [k0|] eqn:E0;
    [|vm_compute in E0; discriminate].
  destruct (summary_data sample_groups sample_targets 2) as [k2|] eqn:E2;
    [|vm_compute in E2; discriminate].
  destruct (summary_data sample_groups sample_targets (-3)) as [km|] eqn:Em;
    [|vm_compute in Em; discriminate].
  exists k0, k2, km.
  rewrite (summary_data_length _ _ _ _ E0), (summary_data_length _ _ _ _ E2),
    (summary_data_length _ _ _ _ Em).
  repeat split; reflexivity.
Defined.

(** Every row of the summary is a hit of the hit mapping, with its e-value
    and probability, and the arrangement on the row is a group that the
    protein of the row is a member of. *)
Theorem summary_rows_are_hits gq tq xbest kept :
  summary_data gq tq xbest = Ok kept ->
  forall d, In d kept ->
    in_group gq (d_prot d) (d_da d) /\
    exists hs res,
      In (d_prot d, hs) tq /\ In (d_hitnum d, res) hs /\
      d_evalue d = E_value res /\ d_probab d = Probab res.
Proof.
  intros Hrun d Hd. apply summary_data_Ok in Hrun. destruct Hrun as [-> _].
  apply In_slice_to in Hd. rewrite (sort_In datum_ltb) in Hd.
  unfold all_data in Hd. apply in_flat_map in Hd.
  destruct Hd as ([prot hs] & Hi & Hd). cbn [fst snd] in Hd.
  destruct (dget (prot2grp_of gq) prot) as [da|] eqn:Eg; [|contradiction].
  apply in_map_iff in Hd. destruct Hd as ([hitnum res] & <- & Hh).
  cbn [fst snd d_prot d_da d_hitnum d_evalue d_probab].
  split; [now apply prot2grp_of_in_group|].
  exists hs, res. tauto.
Qed.

Lemma summary_rows_are_hits_witness :
  in_group sample_groups "P1" "A".
Proof.
  destruct (summary_data sample_groups sample_targets 1) as [kept|] eqn:E;
    [|vm_compute in E; discriminate].
  assert (E' := E). vm_compute in E'. inversion E' as [Hk].
  destruct (summary_rows_are_hits _ _ _ _ E
              {| d_evalue := 1 # 1000000000; d_probab := 99;
                 d_prot := "P1"; d_hitnum := 2; d_da := "A" |}) as [Hg _].
  - rewrite <- Hk. now left.
  - exact Hg.
Defined.

(** ** read_hcadomain on whole files *)

Lemma hcadomain_loop_app l1 l2 : forall st,
  hcadomain_loop (l1 ++ l2) st =
  rbind (hcadomain_loop l1 st) (fun st' => hcadomain_loop l2 st').
Proof.
  induction l1 as [|line rest IH]; intros st; cbn [app hcadomain_loop rbind];
    [reflexivity|].
  destruct (hcadomain_line st line) as [st'|e]; cbn [rbind];
    [apply IH | reflexivity].
Qed.

Lemma read_hcadomain_Ok pre annotation :
  read_hcadomain pre = Ok annotation ->
  exists prot, hcadomain_loop pre ([], None) = Ok (annotation, prot).
Proof.
  unfold read_hcadomain.
  destruct (hcadomain_loop pre ([], None)) as [[a p]|e]; cbn [rbind];
    [|discriminate].
  intros E. inversion E; subst. eauto.
Qed.

Lemma hcadomain_line_other st line :
  other_line line -> hcadomain_line st line = Ok st.
Proof.
  intros (c & t0 & more & Hc & Hgt & Hs & Hd). destruct st as [a p].
  unfold hcadomain_line. rewrite Hc. cbn [rbind]. rewrite Hgt, Hs.
  cbn [index nth_error rbind]. now rewrite Hd.
Qed.

Lemma hcadomain_line_header annotation prot line p :
  header_line line p ->
  hcadomain_line (annotation, prot) line = Ok (dset annotation p [], Some p).
Proof.
  intros (c & size & Hc & Hgt & Hs).
  unfold hcadomain_line. rewrite Hc. cbn [rbind]. now rewrite Hgt, Hs.
Qed.

Lemma domain_line_first_char line s e :
  domain_line line s e ->
  exists c, first_char line = Ok c /\ Ascii.eqb c ">" = false.
Proof.
  intros (ts & te & more & Hs & _).
  destruct (split_first_char _ _ _ Hs) as (c & Hc & Hgt).
  exists c. split; [assumption|].
  destruct (Ascii.eqb c ">") eqn:E; [|reflexivity].
  destruct (Hgt eq_refl) as (t' & Ht'). discriminate.
Qed.

Lemma hcadomain_line_domain annotation p l line s e :
  domain_line line s e ->
  dget annotation p = Some l ->
  hcadomain_line (annotation, Some p) line =
  Ok (dset annotation p (l ++ [hca_tuple (s, e)]), Some p).
Proof.
  intros Hd Hg. destruct (domain_line_first_char _ _ _ Hd) as (c & Hc & Hgt).
  destruct Hd as (ts & te & more & Hs & Hi1 & Hi2).
  unfold hcadomain_line. rewrite Hc. cbn [rbind]. rewrite Hgt, Hs.
  cbn [index nth_error rbind]. simpl String.eqb. cbn iota.
  rewrite Hi1. cbn [rbind]. rewrite Hi2. cbn [rbind].
  unfold subscript. rewrite Hg. reflexivity.
Qed.

Lemma hcadomain_line_domain_unbound annotation line s e :
  domain_line line s e ->
  hcadomain_line (annotation, None) line = Raise NameError.
Proof.
  intros Hd. destruct (domain_line_first_char _ _ _ Hd) as (c & Hc & Hgt).
  destruct Hd as (ts & te & more & Hs & Hi1 & Hi2).
  unfold hcadomain_line. rewrite Hc. cbn [rbind]. rewrite Hgt, Hs.
  cbn [index nth_error rbind]. simpl String.eqb. cbn iota.
  rewrite Hi1. cbn [rbind]. rewrite Hi2. reflexivity.
Qed.

(** Lines that are neither headers nor domain lines (the cluster lines of
    a seghca file, for instance) do not change what is read: the file
    without such a line reads the same. *)
Theorem read_hcadomain_ignores_other_lines l1 line l2 :
  other_line line ->
  read_hcadomain (l1 ++ line :: l2) = read_hcadomain (l1 ++ l2).
Proof.
  intros Ho. unfold read_hcadomain. rewrite !hcadomain_loop_app.
  destruct (hcadomain_loop l1 ([], None)) as [st|e]; cbn [rbind];
    [|reflexivity].
  cbn [hcadomain_loop]. now rewrite (hcadomain_line_other st line Ho).
Qed.

Lemma read_hcadomain_ignores_other_lines_witness :
  read_hcadomain [(">P1 100" ++ nl)%string; ("cluster 1 2 101" ++ nl)%string;
                  ("domain 5 20" ++ nl)%string] =
  read_hcadomain sample_seghca.
Proof.
  apply (read_hcadomain_ignores_other_lines
           [(">P1 100" ++ nl)%string] ("cluster 1 2 101" ++ nl)%string
           [("domain 5 20" ++ nl)%string]).
  exists "c"%char, "cluster", ["1"; "2"; "101"]. repeat split.
Defined.

(** A domain line that comes before the first header line, possibly after
    lines that are ignored, raises [NameError]: the protein it belongs to is
    the loop variable [prot], which is not bound yet. *)
Theorem read_hcadomain_domain_before_header pre line rest s e :
  Forall other_line pre ->
  domain_line line s e ->
  read_hcadomain (pre ++ line :: rest) = Raise NameError.
Proof.
  intros Hpre Hd. unfold read_hcadomain. rewrite hcadomain_loop_app.
  assert (Hloop : hcadomain_loop pre ([], None) = Ok ([], None)).
  { induction Hpre as [|l pre Hl _ IH]; [reflexivity|].
    cbn [hcadomain_loop]. rewrite (hcadomain_line_other _ l Hl). exact IH. }
  rewrite Hloop. cbn [rbind hcadomain_loop].
  now rewrite (hcadomain_line_domain_unbound _ _ _ _ Hd).
Qed.

Lemma read_hcadomain_domain_before_header_witness :
  read_hcadomain [("domain 5 20" ++ nl)%string; (">P1 100" ++ nl)%string] =
  Raise NameError.
Proof.
  apply (read_hcadomain_domain_before_header []
           ("domain 5 20" ++ nl)%string [(">P1 100" ++ nl)%string] 5 20).
  - constructor.
  - exists "5", "20", []. repeat split.
Defined.

Lemma hcadomain_loop_domains annotation p dlines : forall bounds l,
  Forall2 (fun line se => domain_line line (fst se) (snd se)) dlines bounds ->
  hcadomain_loop dlines (dset annotation p l, Some p) =
  Ok (dset annotation p (l ++ map hca_tuple bounds), Some p).
Proof.
  induction dlines as [|line rest IH]; intros bounds l Hall;
    inversion Hall as [|? [s e] ? bs Hd Hrest]; subst; cbn [hcadomain_loop map].
  - now rewrite app_nil_r.
  - cbn [fst snd] in Hd.
    rewrite (hcadomain_line_domain _ p l line s e Hd (dget_dset_same _ _ _)).
    cbn [rbind]. rewrite dset_dset, (IH bs (l ++ [hca_tuple (s, e)]) Hrest).
    now rewrite <- app_assoc.
Qed.

(** The block of a protein: after a header line for [p], the domain lines
    that follow give the annotation list of [p], one tuple per line in the
    order of the lines, each with the start lowered by one.  What an earlier
    block of the same protein had stored is discarded by the header. *)
Theorem read_hcadomain_protein_block pre annotation line p dlines bounds :
  read_hcadomain pre = Ok annotation ->
  header_line line p ->
  Forall2 (fun l se => domain_line l (fst se) (snd se)) dlines bounds ->
  read_hcadomain (pre ++ line :: dlines) =
    Ok (dset annotation p (map hca_tuple bounds)) /\
  dget (dset annotation p (map hca_tuple bounds)) p =
    Some (map hca_tuple bounds).
Proof.
  intros Hpre Hh Hd. split; [|apply dget_dset_same].
  destruct (read_hcadomain_Ok _ _ Hpre) as (prot & Hloop).
  unfold read_hcadomain. rewrite hcadomain_loop_app, Hloop.
  cbn [rbind hcadomain_loop].
  rewrite (hcadomain_line_header annotation prot line p Hh). cbn [rbind].
  now rewrite (hcadomain_loop_domains annotation p dlines bounds [] Hd).
Qed.

Lemma read_hcadomain_protein_block_witness :
  read_hcadomain repeated_header_seghca =
  Ok [("P1", [[VInt 29; VInt 40; VStr "domain"; VStr "!"; VNone];
              [VInt 49; VInt 60; VStr "domain"; VStr "!"; VNone]])].
Proof.
  destruct (read_hcadomain_protein_block
              [(">P1 100" ++ nl)%string; ("domain 5 20" ++ nl)%string;
               ("cluster 1 2 101" ++ nl)%string]
              [("P1", [[VInt 4; VInt 20; VStr "domain"; VStr "!"; VNone]])]
              (">P1 100" ++ nl)%string "P1"
              [("domain 30 40" ++ nl)%string; ("domain 50 60" ++ nl)%string]
              [(30, 40); (50, 60)]) as [Hread _].
  - vm_compute. reflexivity.
  - exists ">"%char, "100". repeat split.
  - repeat constructor.
    + exists "30", "40", []. repeat split.
    + exists "50", "60", []. repeat split.
  - exact Hread.
Defined.

Lemma split_nil_first_char line c :
  split line = [] -> first_char line = Ok c -> Ascii.eqb c ">" = false.
Proof.
  unfold split. destruct line as [|c' s]; simpl; [discriminate|].
  intros Hs E. inversion E; subst c'.
  destruct (Ascii.eqb c ">") eqn:Ec; [|reflexivity].
  apply Ascii.eqb_eq in Ec. subst c. simpl in Hs.
  destruct (split_go_some s (String ">" "")) as (t & rest & E').
  rewrite E' in Hs. discriminate.
Qed.

Lemma read_hcadomain_raise_at pre st line rest e :
  hcadomain_loop pre ([], None) = Ok st ->
  hcadomain_line st line = Raise e ->
  read_hcadomain (pre ++ line :: rest) = Raise e.
Proof.
  intros Hpre Hl. unfold read_hcadomain.
  rewrite hcadomain_loop_app, Hpre. cbn [rbind hcadomain_loop].
  now rewrite Hl.
Qed.

(** Malformed lines of a seghca file, after a prefix that reads: a line
    without any token (an empty line) raises [IndexError]; a header line
    that has not two tokens raises [ValueError]; a domain line with no bound,
    or with one bound that is an integer, raises [IndexError]; a domain
    line with a bound that is not an integer raises [ValueError]. *)
Theorem read_hcadomain_malformed_line pre st line rest :
  hcadomain_loop pre ([], None) = Ok st ->
  (split line = [] ->
   read_hcadomain (pre ++ line :: rest) = Raise IndexError) /\
  (forall c, first_char line = Ok c -> Ascii.eqb c ">" = true ->
             List.length (split (slice_1_m1 line)) <> 2%nat ->
   read_hcadomain (pre ++ line :: rest) = Raise ValueError) /\
  (forall more, split line = "domain" :: more ->
                (more = [] \/ exists ts s, more = [ts] /\ int ts = Ok s) ->
   read_hcadomain (pre ++ line :: rest) = Raise IndexError) /\
  (forall ts more, split line = "domain" :: ts :: more ->
                   (int ts = Raise ValueError \/
                    exists s te more',
                      int ts = Ok s /\ more = te :: more' /\
                      int te = Raise ValueError) ->
   read_hcadomain (pre ++ line :: rest) = Raise ValueError).
Proof.
  intros Hpre. destruct st as [annotation prot].
  assert (Hdom : forall more, split line = "domain" :: more ->
                   exists c, first_char line = Ok c /\ Ascii.eqb c ">" = false).
  { intros more Hs. destruct (split_first_char _ _ _ Hs) as (c & Hc & Hgt).
    exists c. split; [assumption|].
    destruct (Ascii.eqb c ">") eqn:E; [|reflexivity].
    destruct (Hgt eq_refl) as (t' & Ht'). discriminate. }
  split; [|split; [|split]].
  - intros Hs. apply (read_hcadomain_raise_at pre (annotation, prot)); [assumption|].
    unfold hcadomain_line. destruct (first_char line) as [c|e] eqn:Hc.
    + cbn [rbind]. rewrite (split_nil_first_char line c Hs Hc), Hs. reflexivity.
    + destruct line; [|discriminate]. simpl in Hc. now inversion Hc.
  - intros c Hc Hgt Hlen.
    apply (read_hcadomain_raise_at pre (annotation, prot)); [assumption|].
    unfold hcadomain_line. rewrite Hc. cbn [rbind]. rewrite Hgt.
    destruct (split (slice_1_m1 line)) as [|p [|size [|x l]]]; try reflexivity.
    now contradiction Hlen.
  - intros more Hs Hmore. destruct (Hdom more Hs) as (c & Hc & Hgt).
    apply (read_hcadomain_raise_at pre (annotation, prot)); [assumption|].
    unfold hcadomain_line. rewrite Hc. cbn [rbind]. rewrite Hgt, Hs.
    destruct Hmore as [->|(ts & s & -> & Hi)];
      cbn [index nth_error rbind]; simpl String.eqb; cbn iota;
      [reflexivity|].
    rewrite Hi. reflexivity.
  - intros ts more Hs Hbad. destruct (Hdom _ Hs) as (c & Hc & Hgt).
    apply (read_hcadomain_raise_at pre (annotation, prot)); [assumption|].
    unfold hcadomain_line. rewrite Hc. cbn [rbind]. rewrite Hgt, Hs.
    cbn [index nth_error rbind]. simpl String.eqb. cbn iota.
    destruct Hbad as [Hi|(s & te & more' & Hi & -> & Hi')].
    + rewrite Hi. reflexivity.
    + rewrite Hi. cbn [index nth_error rbind]. rewrite Hi'. reflexivity.
Qed.

Lemma read_hcadomain_malformed_line_witness :
  read_hcadomain [(">P1 100" ++ nl)%string; nl] = Raise IndexError /\
  read_hcadomain [(">P1 100" ++ nl)%string; (">P2" ++ nl)%string] =
    Raise ValueError /\
  read_hcadomain [(">P1 100" ++ nl)%string; ("domain 5" ++ nl)%string] =
    Raise IndexError /\
  read_hcadomain [(">P1 100" ++ nl)%string; ("domain 5 x" ++ nl)%string] =
    Raise ValueError.
Proof.
  assert (Hpre : hcadomain_loop [(">P1 100" ++ nl)%string] ([], None) =
                 Ok ([("P1", [])], Some "P1")) by reflexivity.
  split; [|split; [|split]].
  - apply (proj1 (read_hcadomain_malformed_line _ _ nl [] Hpre)). reflexivity.
  - apply (proj1 (proj2 (read_hcadomain_malformed_line _ _
                           (">P2" ++ nl)%string [] Hpre)) ">"%char);
      [reflexivity | reflexivity | vm_compute; discriminate].
  - apply (proj1 (proj2 (proj2 (read_hcadomain_malformed_line _ _
                           ("domain 5" ++ nl)%string [] Hpre))) ["5"]);
      [reflexivity|]. right. exists "5", 5. split; reflexivity.
  - apply (proj2 (proj2 (proj2 (read_hcadomain_malformed_line _ _
                           ("domain 5 x" ++ nl)%string [] Hpre))) "5" ["x"]);
      [reflexivity|]. right. exists 5, "x", []. repeat split.
Defined.

(** ** read_pfamdomain on whole files *)

Lemma pfamdomain_loop_app l1 l2 : forall annotation,
  pfamdomain_loop (l1 ++ l2) annotation =
  rbind (pfamdomain_loop l1 annotation) (fun a => pfamdomain_loop l2 a).
Proof.
  induction l1 as [|line rest IH]; intros annotation;
    cbn [app pfamdomain_loop rbind]; [reflexivity|].
  destruct (pfamdomain_line annotation line) as [a|e]; cbn [rbind];
    [apply IH | reflexivity].
Qed.

Lemma pfamdomain_line_skipped annotation line :
  pfam_skipped line -> pfamdomain_line annotation line = Ok annotation.
Proof.
  intros (c & Hc & Hskip). unfold pfamdomain_line. rewrite Hc. cbn [rbind].
  now rewrite Hskip.
Qed.

(** Comment lines (first character [#]) and lines that start with a newline
    character do not change what is read. *)
Theorem read_pfamdomain_skips_comments l1 line l2 :
  pfam_skipped line ->
  read_pfamdomain (l1 ++ line :: l2) = read_pfamdomain (l1 ++ l2).
Proof.
  intros Hs. unfold read_pfamdomain. rewrite !pfamdomain_loop_app.
  destruct (pfamdomain_loop l1 []) as [a|e]; cbn [rbind]; [|reflexivity].
  cbn [pfamdomain_loop]. now rewrite (pfamdomain_line_skipped a line Hs).
Qed.

Lemma read_pfamdomain_skips_comments_witness :
  read_pfamdomain sample_pfam =
  read_pfamdomain [("P1 PF00001 5 20 more" ++ nl)%string].
Proof.
  apply (read_pfamdomain_skips_comments [] ("# comment" ++ nl)%string
           [("P1 PF00001 5 20 more" ++ nl)%string]).
  exists "#"%char. split; reflexivity.
Defined.

(** An annotation line of a pfam file adds one tuple at the end of the list
    of its protein (a new list for a protein met for the first time), with
    the start and the stop as they are written in the file: unlike the
    seghca reader, this reader does not lower the start by one. *)
Theorem read_pfamdomain_appends pre annotation line prot name s e :
  read_pfamdomain pre = Ok annotation ->
  pfam_line line prot name s e ->
  read_pfamdomain (pre ++ [line]) =
    Ok (setdefault_append annotation prot
          [VInt s; VInt e; VStr name; VStr "!"; VNone]) /\
  dget (setdefault_append annotation prot
          [VInt s; VInt e; VStr name; VStr "!"; VNone]) prot =
    Some (match dget annotation prot with Some l => l | None => [] end
          ++ [[VInt s; VInt e; VStr name; VStr "!"; VNone]]).
Proof.
  intros Hpre (c & ts & te & more & Hc & Hskip & Hs & Hi1 & Hi2). split.
  - unfold read_pfamdomain in *. rewrite pfamdomain_loop_app, Hpre.
    cbn [rbind pfamdomain_loop]. unfold pfamdomain_line.
    rewrite Hc. cbn [rbind]. rewrite Hskip, Hs.
    cbn [index nth_error rbind]. rewrite Hi1. cbn [rbind]. rewrite Hi2.
    reflexivity.
  - unfold setdefault_append.
    destruct (dget annotation prot); apply dget_dset_same.
Qed.

Lemma read_pfamdomain_appends_witness :
  read_pfamdomain [("P1 PF00001 5 20" ++ nl)%string;
                   ("P1 PF00002 30 40" ++ nl)%string] =
  Ok [("P1", [[VInt 5; VInt 20; VStr "PF00001"; VStr "!"; VNone];
              [VInt 30; VInt 40; VStr "PF00002"; VStr "!"; VNone]])].
Proof.
  destruct (read_pfamdomain_appends
              [("P1 PF00001 5 20" ++ nl)%string]
              [("P1", [[VInt 5; VInt 20; VStr "PF00001"; VStr "!"; VNone]])]
              ("P1 PF00002 30 40" ++ nl)%string "P1" "PF00002" 30 40)
    as [Hread _].
  - vm_compute. reflexivity.
  - exists "P"%char, "30", "40", []. repeat split.
  - exact Hread.
Defined.

Lemma read_pfamdomain_raise_at pre annotation line rest e :
  read_pfamdomain pre = Ok annotation ->
  pfamdomain_line annotation line = Raise e ->
  read_pfamdomain (pre ++ line :: rest) = Raise e.
Proof.
  intros Hpre Hl. unfold read_pfamdomain in *.
  rewrite pfamdomain_loop_app, Hpre. cbn [rbind pfamdomain_loop].
  now rewrite Hl.
Qed.

(** Malformed lines of a pfam file, after a prefix that reads, for a line
    that is not skipped: fewer than three tokens (a line of blanks that does
    not start with a newline among them), or three tokens of which the third
    is an integer, raise [IndexError]; a start or stop that is not an integer
    raises [ValueError]. *)
Theorem read_pfamdomain_malformed_line pre annotation line rest c :
  read_pfamdomain pre = Ok annotation ->
  first_char line = Ok c ->
  (Ascii.eqb c "#" || Ascii.eqb c (ascii_of_nat 10)) = false ->
  ((List.length (split line) < 3)%nat ->
   read_pfamdomain (pre ++ line :: rest) = Raise IndexError) /\
  (forall prot name ts s, split line = [prot; name; ts] -> int ts = Ok s ->
   read_pfamdomain (pre ++ line :: rest) = Raise IndexError) /\
  (forall prot name ts more, split line = prot :: name :: ts :: more ->
     (int ts = Raise ValueError \/
      exists s te more',
        int ts = Ok s /\ more = te :: more' /\ int te = Raise ValueError) ->
   read_pfamdomain (pre ++ line :: rest) = Raise ValueError).
Proof.
  intros Hpre Hc Hskip. split; [|split].
  - intros Hlen. apply (read_pfamdomain_raise_at pre annotation); [assumption|].
    unfold pfamdomain_line. rewrite Hc. cbn [rbind]. rewrite Hskip.
    destruct (split line) as [|a [|b [|t l]]]; try reflexivity.
    simpl in Hlen. lia.
  - intros prot name ts s Hs Hi.
    apply (read_pfamdomain_raise_at pre annotation); [assumption|].
    unfold pfamdomain_line. rewrite Hc. cbn [rbind]. rewrite Hskip, Hs.
    cbn [index nth_error rbind]. rewrite Hi. reflexivity.
  - intros prot name ts more Hs Hbad.
    apply (read_pfamdomain_raise_at pre annotation); [assumption|].
    unfold pfamdomain_line. rewrite Hc. cbn [rbind]. rewrite Hskip, Hs.
    cbn [index nth_error rbind].
    destruct Hbad as [Hi|(s & te & more' & Hi & -> & Hi')].
    + rewrite Hi. reflexivity.
    + rewrite Hi. cbn [index nth_error rbind]. rewrite Hi'. reflexivity.
Qed.

Lemma read_pfamdomain_malformed_line_witness :
  read_pfamdomain [(" " ++ nl)%string] = Raise IndexError /\
  read_pfamdomain [("P1 PF00001 5" ++ nl)%string] = Raise IndexError /\
  read_pfamdomain [("P1 PF00001 5 x" ++ nl)%string] = Raise ValueError.
Proof.
  split; [|split].
  - apply (proj1 (read_pfamdomain_malformed_line [] [] (" " ++ nl)%string []
                    " "%char eq_refl eq_refl eq_refl)).
    vm_compute. lia.
  - apply (proj1 (proj2 (read_pfamdomain_malformed_line [] []
                    ("P1 PF00001 5" ++ nl)%string [] "P"%char
                    eq_refl eq_refl eq_refl)) "P1" "PF00001" "5" 5);
      reflexivity.
  - apply (proj2 (proj2 (read_pfamdomain_malformed_line [] []
                    ("P1 PF00001 5 x" ++ nl)%string [] "P"%char
                    eq_refl eq_refl eq_refl)) "P1" "PF00001" "5" ["x"]);
      [reflexivity|]. right. exists 5, "x", []. repeat split.
Defined.

Lemma write_header_eq out : write_header out = (out ++ header_chunks, Ok tt).
Proof.
  unfold header_chunks, write_header, wbind, write. cbn [fst app].
  repeat rewrite <- app_assoc. reflexivity.
Qed.

(** ** The report writer: when the whole report is written *)

Lemma returns_wret {A : Type} (a : A) (P : A -> Prop) : P a -> returns (wret a) P.
Proof. intros Hp out. exists [], a. simpl. now rewrite app_nil_r. Qed.

Lemma returns_lift {A : Type} (r : result A) (a : A) (P : A -> Prop) :
  r = Ok a -> P a -> returns (lift r) P.
Proof. intros -> Hp out. exists [], a. unfold lift. now rewrite app_nil_r. Qed.

Lemma returns_write c : returns (write c) (fun _ => True).
Proof. intros out. now exists [c], tt. Qed.

Lemma returns_write_all cs : returns (write_all cs) (fun _ => True).
Proof. intros out. now exists cs, tt. Qed.

Lemma returns_wbind {A B : Type} (m : W A) (k : A -> W B)
    (P : A -> Prop) (Q : B -> Prop) :
  returns m P -> (forall a, P a -> returns (k a) Q) -> returns (wbind m k) Q.
Proof.
  intros Hm Hk out. unfold wbind.
  destruct (Hm out) as (n1 & a & -> & Hp).
  destruct (Hk a Hp (out ++ n1)) as (n2 & b & -> & Hq).
  exists (n1 ++ n2), b. now rewrite app_assoc.
Qed.

Lemma returns_wfor {A : Type} (l : list A) (body : A -> W unit) :
  (forall a, In a l -> returns (body a) (fun _ => True)) ->
  returns (wfor l body) (fun _ => True).
Proof.
  induction l as [|a l IH]; intros Hb; cbn [wfor].
  - now apply returns_wret.
  - apply (returns_wbind _ _ (fun _ => True)); [apply Hb; now left|].
    intros _ _. apply IH. intros x Hx. apply Hb. now right.
Qed.

Lemma returns_weaken {A : Type} (m : W A) (P : A -> Prop) :
  returns m P -> returns m (fun _ => True).
Proof.
  intros Hm out. destruct (Hm out) as (n & a & E & _). now exists n, a.
Qed.

Lemma In_enumerate {A : Type} (l : list A) i a :
  In (i, a) (enumerate l) <-> nth_error l i = Some a.
Proof.
  unfold enumerate.
  assert (Hgen : forall k,
             In (i, a) (combine (seq k (List.length l)) l) <->
             (k <= i)%nat /\ nth_error l (i - k) = Some a).
  { induction l as [|x l IH]; intros k; simpl.
    - split; [tauto|]. intros [_ E]. destruct (i - k)%nat; discriminate.
    - rewrite IH. split.
      + intros [E|[Hle Hn]].
        * inversion E; subst. rewrite Nat.sub_diag. split; [lia | reflexivity].
        * split; [lia|]. replace (i - k)%nat with (S (i - S k)) by lia.
          exact Hn.
      + intros [Hle Hn]. destruct (Nat.eq_dec i k) as [->|Hne].
        * rewrite Nat.sub_diag in Hn. simpl in Hn. inversion Hn. now left.
        * right. split; [lia|].
          replace (i - k)%nat with (S (i - S k)) in Hn by lia. exact Hn. }
  rewrite Hgen, Nat.sub_0_r. split; [tauto | intros; split; [lia | assumption]].
Qed.

Lemma index_Ok {A : Type} (l : list A) i :
  (i < List.length l)%nat -> exists a, index l i = Ok a.
Proof.
  intros Hi. unfold index. destruct (nth_error l i) eqn:E; [eauto|].
  apply nth_error_None in E. lia.
Qed.

Lemma returns_write_query query :
  query_complete query -> returns (write_query query) (fun _ => True).
Proof.
  intros [Hd Hs]. unfold write_query. apply returns_wfor.
  intros [i name] Hi. apply In_enumerate in Hi.
  assert (Hlt : (i < List.length (qname query))%nat)
    by (apply nth_error_Some; congruence).
  destruct (index_Ok (qdescr query) i) as (d & Ed); [lia|].
  destruct (index_Ok (qseq query) i) as (s & Es); [lia|].
  apply (returns_wbind _ _ (fun _ => True)); [apply returns_write | intros _ _].
  apply (returns_wbind _ _ (fun _ => True));
    [eapply returns_lift; [exact Ed | exact I] | intros d' _].
  apply (returns_wbind _ _ (fun _ => True)); [apply returns_write | intros _ _].
  apply (returns_wbind _ _ (fun _ => True));
    [eapply returns_lift; [exact Es | exact I] | intros s' _].
  apply returns_write.
Qed.

Lemma returns_write_positions positions :
  returns (write_positions positions)
          (fun querydoms =>
             forall q, In q querydoms ->
                       exists i, q = Z.of_nat i /\ (i < List.length positions)%nat).
Proof.
  unfold write_positions.
  apply (returns_wbind _ _ (fun _ => True)).
  - apply returns_wfor. intros [ite [start stop]] _. apply returns_write.
  - intros _ _. apply returns_wret. intros q Hq.
    apply in_map_iff in Hq. destruct Hq as ([i p] & <- & Hi).
    apply In_enumerate in Hi. exists i. split; [reflexivity|].
    apply nth_error_Some. congruence.
Qed.

Lemma flat_hits_rows hs : forall fl k row,
  In (k, row) (flat_hits hs fl) ->
  In (k, row) fl \/ exists res, row = flatrow res.
Proof.
  unfold flat_hits.
  induction hs as [|[k0 r0] hs IH]; intros fl k row Hi; cbn [fold_left] in Hi;
    [now left|].
  apply IH in Hi. destruct Hi as [Hi|Hr]; [|now right].
  cbn [fst snd] in Hi.
  assert (Hset : forall (d : dict Z (list val)),
             In (k, row) (dset d k0 (flatrow r0)) ->
             In (k, row) d \/ row = flatrow r0).
  { induction d as [|[k' v'] d IHd]; simpl.
    - intros [E|[]]. inversion E. now right.
    - destruct (Z.eqb_spec k0 k') as [->|Hn]; simpl.
      + intros [E|Hd]; [inversion E; now right | left; now right].
      + intros [E|Hd]; [left; now left|].
        destruct (IHd Hd) as [H1|H2]; [left; now right | now right]. }
  destruct (Hset fl Hi) as [H1|H2]; [now left | right; eauto].
Qed.

Lemma write_hit_flatrow querydom hitnum res out :
  write_hit querydom (hitnum, flatrow res) out =
  (out ++ hit_chunks querydom (hitnum, res), Ok tt).
Proof.
  unfold write_hit, flatrow, hit_chunks, wbind, write, lift, add1.
  cbn [fst snd]. repeat rewrite <- app_assoc. reflexivity.
Qed.

Lemma returns_write_domains querydom cddres prot :
  renderable cddres ->
  returns (write_domains querydom cddres prot) (fun _ => True).
Proof.
  intros Hr. unfold write_domains.
  destruct (dget cddres prot) as [anns|] eqn:Eg; [|apply returns_write].
  apply returns_wfor. intros ann Hi.
  destruct (Hr prot anns ann Eg Hi)
    as (start & stop & dom & ev & bs & ty & v & -> & Hv).
  unfold write_annotation.
  apply (returns_wbind _ _ (fun _ => True));
    [eapply returns_lift; [exact Hv | exact I] | intros v' _].
  apply returns_write.
Qed.

Lemma returns_write_arrangement querydom gq tq cddres orderedda da :
  NoDup (keys gq) -> renderable cddres ->
  orderda gq tq = Ok orderedda -> In da orderedda ->
  returns (write_arrangement querydom gq tq cddres da) (fun _ => True).
Proof.
  intros Hnd Hr Hrun Hda.
  destruct (orderda_Ok_facts _ _ _ Hnd Hrun) as (Hk & _ & Hranked & _).
  apply Hranked in Hda. destruct Hda as [_ Hh]. clear Hranked.
  destruct (da_has_hit_member _ _ _ Hh) as (proteins & p0 & Hg & Hp0 & Hhit).
  destruct (flatres_some_hit tq proteins) as (order & flat & Hflat & _);
    [intros p Hi; apply (Hk da proteins); [now apply dget_In | assumption]
    | eauto |].
  unfold write_arrangement.
  apply (returns_wbind _ _ (fun ps => ps = proteins)).
  { eapply returns_lift; [|reflexivity]. unfold subscript. now rewrite Hg. }
  intros ps ->.
  apply (returns_wbind _ _ (fun _ => True)); [apply returns_write | intros _ _].
  apply (returns_wbind _ _ (fun r => r = (order, flat))).
  { eapply returns_lift; [exact Hflat | reflexivity]. }
  intros r ->. apply returns_wfor. intros prot Hp.
  apply (flatres_order_In _ _ _ _ Hflat) in Hp. destruct Hp as [Hp _].
  pose proof Hflat as Hloop. apply flatres_Ok in Hloop.
  destruct Hloop as (po & Hloop & _ & _).
  destruct (flatres_loop_flat _ _ _ _ _ _ Hloop prot) as [Hin _].
  destruct (Hin Hp) as (hs & Ht & Hfl).
  unfold write_protein.
  apply (returns_wbind _ _ (fun _ => True)); [apply returns_write | intros _ _].
  apply (returns_wbind _ _ (fun _ => True));
    [now apply returns_write_domains | intros _ _].
  apply (returns_wbind _ _ (fun fl => fl = flat_hits hs [])).
  { eapply returns_lift; [|reflexivity]. unfold subscript. now rewrite Hfl. }
  intros fl ->. apply returns_wfor. intros [hitnum row] Hrow.
  apply flat_hits_rows in Hrow. destruct Hrow as [[]|(res & ->)].
  intros out. exists (hit_chunks querydom (hitnum, res)), tt.
  split; [apply write_hit_flatrow | exact I].
Qed.

Lemma returns_write_querydom targets cddres groups positions i :
  domains_present positions targets groups -> renderable cddres ->
  (i < List.length positions)%nat ->
  returns (write_querydom targets cddres groups (Z.of_nat i)) (fun _ => True).
Proof.
  intros Hdp Hr Hi. destruct (Hdp i Hi) as (gq & tq & Hg & Ht & Hnd & Hm).
  destruct (orderda_members_Ok gq tq Hm) as (orderedda & Hrun).
  unfold write_querydom.
  apply (returns_wbind _ _ (fun _ => True)); [apply returns_write | intros _ _].
  apply (returns_wbind _ _ (fun g => g = gq)).
  { eapply returns_lift; [|reflexivity]. unfold subscript. now rewrite Hg. }
  intros g ->.
  apply (returns_wbind _ _ (fun t => t = tq)).
  { eapply returns_lift; [|reflexivity]. unfold subscript. now rewrite Ht. }
  intros t ->.
  apply (returns_wbind _ _ (fun o => o = orderedda)).
  { eapply returns_lift; [exact Hrun | reflexivity]. }
  intros o ->.
  apply (returns_wbind _ _ (fun _ => True)); [apply returns_write | intros _ _].
  apply (returns_wbind _ _ (fun _ => True)).
  { apply returns_wfor. intros da Hda.
    destruct (orderda_Ok_facts _ _ _ Hnd Hrun) as (_ & _ & Hin & _).
    apply Hin in Hda. destruct Hda as [Hk _].
    apply In_keys_dget in Hk. destruct Hk as (members & Hmem).
    apply (returns_wbind _ _ (fun _ => True)); [|intros; apply returns_write].
    eapply returns_lift; [|exact I]. unfold subscript. now rewrite Hmem. }
  intros _ _.
  apply (returns_wbind _ _ (fun _ => True)); [apply returns_write | intros _ _].
  apply returns_wfor. intros da Hda.
  eapply returns_write_arrangement; eassumption.
Qed.

(** The whole report is written, and the call returns, when there is a
    description and a sequence for every query name, every index of
    [positions] is a sub-domain of the hit mapping and of the grouping with
    member proteins that are keys of the hit mapping, every protein with a
    hit is a member of some group, and every annotation has six fields with a
    numeric start.  In particular no arrangement reaches [flatres] without a
    hit, and the rows built by [flatres] are unpacked without error. *)
Theorem write_tremolo_results_completes
    query positions targets cddres groups xbest out :
  query_complete query ->
  domains_present positions targets groups ->
  groups_reach targets groups ->
  renderable cddres ->
  snd (write_tremolo_results query positions targets cddres groups xbest out) =
  Ok tt.
Proof.
  intros Hq Hdp Hreach Hr.
  assert (Hret : returns (write_tremolo_results query positions targets cddres
                            groups xbest) (fun _ => True)).
  { unfold write_tremolo_results.
    apply (returns_wbind _ _ (fun _ => True)).
    { intros o. exists header_chunks, tt. now rewrite write_header_eq. }
    intros _ _.
    apply (returns_wbind _ _ (fun _ => True));
      [now apply returns_write_query | intros _ _].
    eapply returns_wbind; [apply returns_write_positions|].
    intros querydoms Hqs.
    apply (returns_wbind _ _ (fun _ => True)); [apply returns_write | intros _ _].
    assert (Hsum : exists summary,
               summary_tremolo targets groups xbest = Ok summary)
      by (unfold summary_tremolo; rewrite summary_loop_eq by assumption; eauto).
    destruct Hsum as (summary & Hsum).
    apply (returns_wbind _ _ (fun _ => True));
      [eapply returns_lift; [exact Hsum | exact I] | intros s _].
    apply (returns_wbind _ _ (fun _ => True));
      [apply returns_write_all | intros _ _].
    apply (returns_wbind _ _ (fun _ => True)); [apply returns_write | intros _ _].
    apply returns_wfor. intros q Hin.
    destruct (Hqs q Hin) as (i & -> & Hi).
    eapply returns_write_querydom; eassumption. }
  destruct (Hret out) as (new & [] & E & _). now rewrite E.
Qed.

Lemma write_tremolo_results_completes_witness :
  snd (write_tremolo_results sample_query [(0, 10)] sample_all_targets
         sample_cddres sample_all_groups 2 []) = Ok tt.
Proof.
  apply write_tremolo_results_completes.
  - split; simpl; lia.
  - intros i Hi. simpl in Hi. assert (i = 0%nat) by lia. subst i.
    exists sample_groups, sample_targets.
    split; [reflexivity|]. split; [reflexivity|]. split.
    + repeat constructor; simpl; intuition discriminate.
    + intros da prots prot [E|[E|[]]] Hp; inversion E; subst;
        simpl in Hp; intuition (subst; reflexivity).
  - apply groups_cover_reach, sample_groups_cover.
  - intros prot anns ann Hg Hi.
    unfold sample_cddres in Hg. simpl in Hg.
    destruct (String.eqb prot "P1"); [|discriminate].
    inversion Hg; subst anns. destruct Hi as [<-|[]].
    repeat eexists.
Defined.

(** ** The report writer: the query section *)

Lemma wfor_raises {A : Type} (l : list A) (body : A -> W unit) e :
  (forall a, In a l -> forall out,
     snd (body a out) = Ok tt \/ snd (body a out) = Raise e) ->
  (exists a, In a l /\ forall out, snd (body a out) = Raise e) ->
  forall out, snd (wfor l body out) = Raise e.
Proof.
  induction l as [|a l IH]; intros Hall (x & Hx & Hraise) out.
  - contradiction.
  - cbn [wfor]. unfold wbind.
    destruct (Hall a (or_introl eq_refl) out) as [Hok|Hr];
      destruct (body a out) as [o1 [u|e1]] eqn:Eb; simpl in *;
      try discriminate.
    + destruct Hx as [->|Hx].
      * specialize (Hraise out). rewrite Eb in Hraise. discriminate.
      * apply IH; [intros y Hy; apply Hall; now right | eauto].
    + exact Hr.
Qed.

Lemma index_outcome {A : Type} (l : list A) i :
  ((i < List.length l)%nat /\ exists a, index l i = Ok a) \/
  ((List.length l <= i)%nat /\ index l i = Raise IndexError).
Proof.
  unfold index. destruct (nth_error l i) eqn:E.
  - left. split; [apply nth_error_Some; congruence | eauto].
  - right. split; [now apply nth_error_None | reflexivity].
Qed.

(** The query section is written to its end exactly when there is a
    description and a sequence for every name; when a description or a
    sequence is missing the call raises [IndexError].  Descriptions and
    sequences beyond the number of names are not read. *)
Theorem write_query_outcome query out :
  (query_complete query -> snd (write_query query out) = Ok tt) /\
  (~ query_complete query -> snd (write_query query out) = Raise IndexError).
Proof.
  split.
  - intros Hq. destruct (returns_write_query query Hq out) as (n & [] & E & _).
    now rewrite E.
  - intros Hn. unfold write_query. apply wfor_raises.
    + intros [i name] _ o. unfold wbind, write, lift. cbn [fst snd].
      destruct (index_outcome (qdescr query) i) as [[_ (d & ->)]|[_ ->]];
        [|now right].
      destruct (index_outcome (qseq query) i) as [[_ (s & ->)]|[_ ->]];
        [now left | now right].
    + set (i := Nat.min (List.length (qdescr query)) (List.length (qseq query))).
      assert (Hi : (i < List.length (qname query))%nat).
      { unfold query_complete in Hn. unfold i. lia. }
      destruct (nth_error (qname query) i) as [name|] eqn:En;
        [|apply nth_error_None in En; lia].
      exists (i, name). split; [now apply In_enumerate|].
      intros o. unfold wbind, write, lift. cbn [fst snd].
      destruct (index_outcome (qdescr query) i) as [[Hd (d & ->)]|[_ ->]];
        [|reflexivity].
      destruct (index_outcome (qseq query) i) as [[Hs (s & ->)]|[_ ->]];
        [|reflexivity].
      unfold i in *. lia.
Qed.

Lemma write_query_outcome_witness :
  snd (write_query sample_query []) = Ok tt /\
  write_query short_query [] =
    ([Fmt (tsv ["Qname"; "{}"]) [VStr "query"]], Raise IndexError).
Proof.
  split.
  - apply (proj1 (write_query_outcome sample_query [])). split; simpl; lia.
  - assert (E : snd (write_query short_query []) = Raise IndexError).
    { apply (proj2 (write_query_outcome short_query [])).
      intros [Hd _]. simpl in Hd. lia. }
    revert E. vm_compute. reflexivity.
Defined.

(** ** The report writer: the block of one protein *)

Lemma wfor_write_hits querydom hs : forall out,
  wfor (map (fun kv : Z * hit => (fst kv, flatrow (snd kv))) hs)
       (write_hit querydom) out =
  (out ++ flat_map (hit_chunks querydom) hs, Ok tt).
Proof.
  induction hs as [|[hitnum res] hs IH]; intros out; cbn [map wfor flat_map].
  - unfold wret. now rewrite app_nil_r.
  - unfold wbind. cbn [fst snd]. rewrite write_hit_flatrow, IH.
    now rewrite <- app_assoc.
Qed.

(** The block of a protein of the returned order that has no entry in the
    annotation mapping: the line of the protein, the placeholder line, then
    for each of its hits, in the order of the hit mapping (the hits are not
    sorted), the six chunks of the hit, with the starts of the alignments
    raised by one. *)
Theorem write_protein_block
    targets proteins order flat querydom cddres prot hs out :
  flatres targets proteins = Ok (order, flat) ->
  In prot order ->
  dget targets prot = Some hs ->
  NoDup (keys hs) ->
  dget cddres prot = None ->
  write_protein querydom cddres flat prot out =
  (out ++ Fmt (">{}" ++ nl)%string [VStr prot] :: none_line querydom
       :: flat_map (hit_chunks querydom) hs,
   Ok tt).
Proof.
  intros Hrun Hp Ht Hnd Hc.
  apply (flatres_order_In _ _ _ _ Hrun) in Hp. destruct Hp as [Hp _].
  apply flatres_Ok in Hrun. destruct Hrun as (po & Hloop & _ & _).
  destruct (flatres_loop_flat _ _ _ _ _ _ Hloop prot) as [Hin _].
  destruct (Hin Hp) as (hs' & Ht' & Hfl). rewrite Ht in Ht'.
  inversion Ht'; subst hs'.
  rewrite flat_hits_map in Hfl by exact Hnd. cbn [app] in Hfl.
  unfold write_protein, write_domains, wbind, write, lift, subscript.
  rewrite Hc, Hfl. cbn [fst snd]. rewrite wfor_write_hits.
  repeat rewrite <- app_assoc. reflexivity.
Qed.

Lemma write_protein_block_witness :
  flatres sample_targets ["P3"] =
    Ok (["P3"], [("P3", [(1, flatrow (sample_hit (1 # 10) 50))])]) /\
  write_protein 0 sample_cddres
    [("P3", [(1, flatrow (sample_hit (1 # 10) 50))])] "P3" [] =
  (Fmt (">{}" ++ nl)%string [VStr "P3"] :: none_line 0
     :: hit_chunks 0 (1, sample_hit (1 # 10) 50),
   Ok tt).
Proof.
  assert (E : flatres sample_targets ["P3"] =
              Ok (["P3"], [("P3", [(1, flatrow (sample_hit (1 # 10) 50))])]))
    by (vm_compute; reflexivity).
  split; [exact E|].
  rewrite (write_protein_block sample_targets ["P3"] ["P3"] _ 0
             sample_cddres "P3" [(1, sample_hit (1 # 10) 50)] [] E).
  - cbn [flat_map app]. now rewrite app_nil_r.
  - now left.
  - reflexivity.
  - repeat constructor. simpl. tauto.
  - reflexivity.
Defined.

(** ** write_annotHCA *)

Lemma write_annotHCA_protein_ok sizes kv out :
  annotHCA_entry_ok sizes kv = true ->
  write_annotHCA_protein sizes kv out = (out ++ annotHCA_block sizes kv, Ok tt).
Proof.
  destruct kv as [prot entry]. unfold annotHCA_entry_ok, annotHCA_block, dmem.
  cbn [fst snd]. unfold write_annotHCA_protein, subscript.
  destruct (dget sizes prot) as [size|]; [|discriminate].
  destruct (dget entry "domain") as [domains|]; [|discriminate].
  destruct (dget entry "cluster") as [clusters|]; [|discriminate].
  intros _.
  assert (Hfor : forall (l : list val) o,
             wfor l (fun annotation =>
                       write (Fmt ("{}" ++ nl)%string [annotation])) o =
             (o ++ map (fun a => Fmt ("{}" ++ nl)%string [a]) l, Ok tt)).
  { induction l as [|a l IH]; intros o; cbn [wfor map].
    - unfold wret. now rewrite app_nil_r.
    - unfold wbind, write at 1. rewrite IH. now rewrite <- app_assoc. }
  unfold wbind, lift, write at 1. rewrite !Hfor.
  rewrite map_app. repeat rewrite <- app_assoc. reflexivity.
Qed.

Lemma write_annotHCA_protein_missing sizes kv out :
  annotHCA_entry_ok sizes kv = false ->
  snd (write_annotHCA_protein sizes kv out) = Raise KeyError.
Proof.
  destruct kv as [prot entry]. unfold annotHCA_entry_ok, dmem.
  cbn [fst snd]. unfold write_annotHCA_protein, subscript.
  assert (Hfor : forall (l : list val) o,
             wfor l (fun annotation =>
                       write (Fmt ("{}" ++ nl)%string [annotation])) o =
             (o ++ map (fun a => Fmt ("{}" ++ nl)%string [a]) l, Ok tt)).
  { induction l as [|a l IH]; intros o; cbn [wfor map].
    - unfold wret. now rewrite app_nil_r.
    - unfold wbind, write at 1. rewrite IH. now rewrite <- app_assoc. }
  unfold wbind, lift, write at 1.
  destruct (dget sizes prot) as [size|]; [|reflexivity].
  destruct (dget entry "domain") as [domains|]; [|reflexivity].
  rewrite Hfor.
  destruct (dget entry "cluster") as [clusters|]; [discriminate | reflexivity].
Qed.

Lemma write_annotHCA_loop_ok sizes dannotate : forall out,
  forallb (annotHCA_entry_ok sizes) dannotate = true ->
  wfor dannotate (write_annotHCA_protein sizes) out =
  (out ++ flat_map (annotHCA_block sizes) dannotate, Ok tt).
Proof.
  induction dannotate as [|kv rest IH]; intros out Hall;
    cbn [forallb wfor flat_map] in *.
  - unfold wret. now rewrite app_nil_r.
  - apply andb_prop in Hall. destruct Hall as [Hkv Hrest].
    unfold wbind. rewrite (write_annotHCA_protein_ok sizes kv out Hkv).
    rewrite (IH _ Hrest). now rewrite <- app_assoc.
Qed.

Lemma write_annotHCA_loop_missing sizes dannotate : forall out,
  forallb (annotHCA_entry_ok sizes) dannotate = false ->
  snd (wfor dannotate (write_annotHCA_protein sizes) out) = Raise KeyError.
Proof.
  induction dannotate as [|kv rest IH]; intros out Hall;
    cbn [forallb wfor] in *; [discriminate|].
  unfold wbind. destruct (annotHCA_entry_ok sizes kv) eqn:Hkv.
  - rewrite (write_annotHCA_protein_ok sizes kv out Hkv). now apply IH.
  - pose proof (write_annotHCA_protein_missing sizes kv out Hkv) as Hr.
    destruct (write_annotHCA_protein sizes kv out) as [o1 [u|e]];
      simpl in Hr; [discriminate | exact Hr].
Qed.

(** The annotation file: when every protein of [dannotate] has a size and
    its two lists, the file is, for the proteins in turn, the header line
    with the size, the lines of the domains, then the lines of the clusters,
    and the call returns; when a protein lacks its size or one of its lists
    the call raises [KeyError].  The message on standard output is printed
    only with [verbose]. *)
Theorem write_annotHCA_outcome output dannotate sizes verbose :
  (forallb (annotHCA_entry_ok sizes) dannotate = true ->
   snd (write_annotHCA output dannotate sizes verbose) =
   (flat_map (annotHCA_block sizes) dannotate, Ok tt)) /\
  (forallb (annotHCA_entry_ok sizes) dannotate = false ->
   snd (snd (write_annotHCA output dannotate sizes verbose)) = Raise KeyError) /\
  (verbose = false -> fst (write_annotHCA output dannotate sizes verbose) = []).
Proof.
  unfold write_annotHCA. cbn [fst snd]. split; [|split].
  - intros Hall. now rewrite (write_annotHCA_loop_ok sizes dannotate [] Hall).
  - intros Hall. now apply write_annotHCA_loop_missing.
  - intros ->. reflexivity.
Qed.

Lemma write_annotHCA_outcome_witness :
  snd (write_annotHCA "out.hca" sample_dannotate sample_sizes false) =
    ([Fmt (">{} {}" ++ nl)%string [VStr "P1"; VInt 100];
      Fmt ("{}" ++ nl)%string [VStr "domain 5 20"];
      Fmt ("{}" ++ nl)%string [VStr "domain 30 40"];
      Fmt ("{}" ++ nl)%string [VStr "cluster 6 9 1011"];
      Fmt (">{} {}" ++ nl)%string [VStr "P2"; VInt 50]], Ok tt) /\
  snd (snd (write_annotHCA "out.hca" sample_dannotate [("P1", VInt 100)] false)) =
    Raise KeyError.
Proof.
  split.
  - rewrite (proj1 (write_annotHCA_outcome "out.hca" sample_dannotate
                      sample_sizes false)); reflexivity.
  - apply (proj1 (proj2 (write_annotHCA_outcome "out.hca" sample_dannotate
                           [("P1", VInt 100)] false))).
    reflexivity.
Defined.
